(** * homebridge-power-lock: the per-lock state controller

    A shallow embedding of the two controller implementations of the
    repository and of their platforms (discovery and shutdown):

    - [TS]: [PowerLockAccessory] and [PowerLockPlatform] of [src/index.ts];
    - [Legacy]: [PowerLockAccessory] and [PowerLockPlatform] of the
      JavaScript implementation ([powerlockAccessory.js], [platform.js]).

    The Node.js event loop is explicit: timers created by [setTimeout] and
    [setInterval] live in a table keyed by their handle, the controller's
    fields only hold handles, and child processes started by [exec] wait in
    a second table until the process exits.  A handle that is overwritten
    without [clearTimeout] therefore stays armed, as in the runtime.

    Numbers are integers ([Z]); seconds and milliseconds are not mixed.
    Log lines of level info and debug are presentation and are left out;
    [log.error] lines are effects. *)

From stdpp Require Import base option list strings gmap.
From Stdlib Require Import ZArith Lia Ascii.

Local Open Scope Z_scope.

(** ** JavaScript values *)

Module JS.

(** [!s] is true for the empty string only. *)
Definition truthy (s : string) : bool :=
  match s with EmptyString => false | String _ _ => true end.

(** Truthiness of an optional string field ([undefined] is falsy). *)
Definition truthy_opt (o : option string) : bool :=
  match o with Some s => truthy s | None => false end.

(** [a || b] on strings. *)
Definition or_str (a : option string) (b : string) : string :=
  match a with
  | Some s => if truthy s then s else b
  | None => b
  end.

(** [a || b] on numbers: [0] is falsy. *)
Definition or_num (a : option Z) (b : Z) : Z :=
  match a with
  | Some n => if n =? 0 then b else n
  | None => b
  end.

(** [a || false] on an optional boolean. *)
Definition or_false (a : option bool) : bool :=
  match a with Some b => b | None => false end.

(** [d && d > 0] on an optional number. *)
Definition is_positive (a : option Z) : bool :=
  match a with Some n => negb (n =? 0) && (0 <? n) | None => false end.

Definition is_space (c : ascii) : bool :=
  let n := nat_of_ascii c in
  (Nat.eqb n 32 || Nat.eqb n 9 || Nat.eqb n 10 || Nat.eqb n 11
   || Nat.eqb n 12 || Nat.eqb n 13)%bool.

Fixpoint trim_start (s : string) : string :=
  match s with
  | String c r => if is_space c then trim_start r else s
  | EmptyString => EmptyString
  end.

Fixpoint rev_string (acc s : string) : string :=
  match s with
  | String c r => rev_string (String c acc) r
  | EmptyString => acc
  end.

(** [String.prototype.trim], on ASCII white space. *)
Definition trim (s : string) : string :=
  rev_string EmptyString (trim_start (rev_string EmptyString (trim_start s))).

Definition lower_char (c : ascii) : ascii :=
  let n := nat_of_ascii c in
  if (Nat.leb 65 n && Nat.leb n 90)%bool then ascii_of_nat (n + 32) else c.

(** [String.prototype.toLowerCase], on ASCII letters. *)
Fixpoint toLowerCase (s : string) : string :=
  match s with
  | String c r => String (lower_char c) (toLowerCase r)
  | EmptyString => EmptyString
  end.

Definition upper_char (c : ascii) : ascii :=
  let n := nat_of_ascii c in
  if (Nat.leb 97 n && Nat.leb n 122)%bool then ascii_of_nat (n - 32) else c.

(** [String.prototype.toUpperCase], on ASCII letters. *)
Fixpoint toUpperCase (s : string) : string :=
  match s with
  | String c r => String (upper_char c) (toUpperCase r)
  | EmptyString => EmptyString
  end.

(** The strings on which [trim], [toLowerCase] and [toUpperCase] are
    modelled in full: those of ASCII characters. *)
Fixpoint ascii_only (s : string) : bool :=
  match s with
  | String c r => Nat.ltb (nat_of_ascii c) 128 && ascii_only r
  | EmptyString => true
  end.

(** The outcome of a call that may throw. *)
Inductive outcome (A : Type) : Type :=
| Returned (a : A)
| Thrown (message : string).
Arguments Returned {A} a.
Arguments Thrown {A} message.

Definition bind {A B} (o : outcome A) (k : A -> outcome B) : outcome B :=
  match o with
  | Returned a => k a
  | Thrown m => Thrown m
  end.

(** [try { body } catch (e) { handler e }] *)
Definition try_catch {A} (body : outcome A) (handler : string -> outcome A)
  : outcome A :=
  match body with
  | Returned a => Returned a
  | Thrown m => handler m
  end.

Definition throws {A} (o : outcome A) : bool :=
  match o with Returned _ => false | Thrown _ => true end.

(** [if (failed) throw new Error(message)] *)
Definition throw_if (failed : bool) (message : string) : outcome unit :=
  if failed then Thrown message else Returned tt.

End JS.

Import JS.

(** ** The accessory host (HAP) *)

(** Values of the two lock characteristics, as hap-nodejs defines them. *)
Module LockCurrentState.
Definition UNSECURED : Z := 0.
Definition SECURED : Z := 1.
End LockCurrentState.

Module LockTargetState.
Definition UNSECURED : Z := 0.
Definition SECURED : Z := 1.
End LockTargetState.

Inductive characteristic : Set :=
| CurrentState
| TargetState.

(** What the controller does to the outside world. *)
Inductive effect : Type :=
| UpdateCharacteristic (c : characteristic) (value : Z)
| SetName (name : string)
| MqttConnect (broker : string) (port : option Z)
    (username password : option string)
| MqttPublish (topic message : string)
| MqttEnd
| Exec (command : string)
| LogError (message : string)
| Uncaught (message : string)
| RegisterPlatformAccessories (uuid : string)
| UpdatePlatformAccessories (uuid : string).

Definition is_host_write (e : effect) : bool :=
  match e with UpdateCharacteristic _ _ => true | _ => false end.

Definition is_side_effect (e : effect) : bool :=
  match e with MqttPublish _ _ | Exec _ => true | _ => false end.

(** How a child process started by [exec] ends. *)
Inductive exec_result : Type :=
| Resolved (stdout stderr : string)
| Rejected (message : string).

Definition execAsync (r : exec_result) : outcome (string * string) :=
  match r with
  | Resolved stdout stderr => Returned (stdout, stderr)
  | Rejected message => Thrown message
  end.

Definition quote : string := String (ascii_of_nat 34) EmptyString.

(** ** The event loop

    Timers and child processes of one controller.  A timer's callback and
    the continuation that waits for a process are data of the controller
    that owns the loop. *)

Module EventLoop.

Record Timer (Callback : Type) : Type := {
  due : Z;
  callback : Callback;
  period : option Z
}.
Arguments due {Callback} _.
Arguments callback {Callback} _.
Arguments period {Callback} _.

Record Loop (Callback Continuation : Type) : Type := {
  now : Z;
  timers : gmap nat (Timer Callback);
  nextTimer : nat;
  running : gmap nat Continuation;
  nextPid : nat
}.
Arguments now {Callback Continuation} _.
Arguments timers {Callback Continuation} _.
Arguments nextTimer {Callback Continuation} _.
Arguments running {Callback Continuation} _.
Arguments nextPid {Callback Continuation} _.

Section Operations.

Context {Callback Continuation : Type}.
Implicit Type l : Loop Callback Continuation.

Definition idle : Loop Callback Continuation :=
  {| now := 0; timers := ∅; nextTimer := 0%nat; running := ∅;
     nextPid := 0%nat |}.

(** [setTimeout(cb, ms)]: a fresh handle, armed for [now + ms]. *)
Definition setTimeout (cb : Callback) (ms : Z) l
  : nat * Loop Callback Continuation :=
  (nextTimer l,
   {| now := now l;
      timers := <[nextTimer l := {| due := now l + ms; callback := cb;
                                    period := None |}]> (timers l);
      nextTimer := S (nextTimer l);
      running := running l; nextPid := nextPid l |}).

(** [setInterval(cb, ms)]: as [setTimeout], armed again at every
    expiry. *)
Definition setInterval (cb : Callback) (ms : Z) l
  : nat * Loop Callback Continuation :=
  (nextTimer l,
   {| now := now l;
      timers := <[nextTimer l := {| due := now l + ms; callback := cb;
                                    period := Some ms |}]> (timers l);
      nextTimer := S (nextTimer l);
      running := running l; nextPid := nextPid l |}).

(** [clearTimeout(h)] and [clearInterval(h)]: nothing happens for a
    handle that has fired or was cleared before. *)
Definition clearTimeout (h : nat) l : Loop Callback Continuation :=
  {| now := now l; timers := delete h (timers l);
     nextTimer := nextTimer l;
     running := running l; nextPid := nextPid l |}.

(** A child process is started and [k] waits for it. *)
Definition spawn (k : Continuation) l : Loop Callback Continuation :=
  {| now := now l; timers := timers l; nextTimer := nextTimer l;
     running := <[nextPid l := k]> (running l);
     nextPid := S (nextPid l) |}.

Definition elapse (dt : Z) l : Loop Callback Continuation :=
  {| now := now l + dt; timers := timers l; nextTimer := nextTimer l;
     running := running l; nextPid := nextPid l |}.

(** A timer that expired leaves the table; an interval is armed
    again. *)
Definition expired (h : nat) (t : Timer Callback) l
  : Loop Callback Continuation :=
  {| now := now l;
     timers := match period t with
               | Some ms =>
                   <[h := {| due := now l + ms; callback := callback t;
                             period := period t |}]> (timers l)
               | None => delete h (timers l)
               end;
     nextTimer := nextTimer l;
     running := running l; nextPid := nextPid l |}.

Definition exited (pid : nat) l : Loop Callback Continuation :=
  {| now := now l; timers := timers l; nextTimer := nextTimer l;
     running := delete pid (running l); nextPid := nextPid l |}.

(** The timer the loop may run now: armed and due. *)
Definition ready (h : nat) l : option (Timer Callback) :=
  match timers l !! h with
  | Some t => if due t <=? now l then Some t else None
  | None => None
  end.

End Operations.

End EventLoop.

Import EventLoop.

(** ** The TypeScript controller ([src/index.ts]) *)

Module TS.

Record MqttSettings : Type := {
  mqttBroker : string;
  mqttPort : option Z;
  mqttUsername : option string;
  mqttPassword : option string;
  mqttTopicSubscribe : string;
  mqttOpenMessage : string;
  mqttCloseMessage : string;
  mqttTopicPublish : string;
  mqttPublishOpenMessage : string;
  mqttPublishCloseMessage : string
}.

Record CommandSettings : Type := {
  openCommand : string;
  closeCommand : string;
  monitorCommand : string;
  monitorInterval : Z
}.

(** [mode] is a string: [validateConfig] and [setupMode] both have a
    branch for a mode outside the three of the interface. *)
Record LockConfig : Type := {
  name : string;
  mode : string;
  autoLock : option bool;
  autoLockDelay : option Z;
  lockDelay : option Z;
  unlockDelay : option Z;
  logging : option string;
  mqttSettings : option MqttSettings;
  commandSettings : option CommandSettings
}.

(** [accessory.context], the state the host persists across restarts. *)
Record Context : Type := {
  ctx_isLocked : option bool;
  ctx_targetState : option bool
}.

Definition no_context : Context :=
  {| ctx_isLocked := None; ctx_targetState := None |}.

(** *** Timers and processes *)

(** The closures handed to [setTimeout] and [setInterval].  The two
    delay closures capture [cs], the command settings read by
    [setTargetState]. *)
Inductive Callback : Type :=
| LockDelayCb (cs : CommandSettings)
| UnlockDelayCb (cs : CommandSettings)
| AutoLockCb
| MonitorCb.

(** What runs when an awaited [execAsync] settles. *)
Inductive Continuation : Type :=
| AfterCommand (commandName : string) (desiredState : bool)
| AfterMonitor.

Abbreviation Loop := (EventLoop.Loop Callback Continuation).

Record MqttClient : Type := { ended : bool }.

Record State : Type := {
  isLocked : bool;
  targetState : bool;
  mqttClient : option MqttClient;
  autoLockTimeout : option nat;
  monitorIntervalHandle : option nat;
  lockDelayTimeout : option nat;
  unlockDelayTimeout : option nat;
  context : Context;
  loop : Loop
}.

Definition set_isLocked (b : bool) (s : State) : State :=
  {| isLocked := b; targetState := targetState s; mqttClient := mqttClient s;
     autoLockTimeout := autoLockTimeout s;
     monitorIntervalHandle := monitorIntervalHandle s;
     lockDelayTimeout := lockDelayTimeout s;
     unlockDelayTimeout := unlockDelayTimeout s;
     context := context s; loop := loop s |}.

Definition set_targetState (b : bool) (s : State) : State :=
  {| isLocked := isLocked s; targetState := b; mqttClient := mqttClient s;
     autoLockTimeout := autoLockTimeout s;
     monitorIntervalHandle := monitorIntervalHandle s;
     lockDelayTimeout := lockDelayTimeout s;
     unlockDelayTimeout := unlockDelayTimeout s;
     context := context s; loop := loop s |}.

Definition set_mqttClient (c : option MqttClient) (s : State) : State :=
  {| isLocked := isLocked s; targetState := targetState s; mqttClient := c;
     autoLockTimeout := autoLockTimeout s;
     monitorIntervalHandle := monitorIntervalHandle s;
     lockDelayTimeout := lockDelayTimeout s;
     unlockDelayTimeout := unlockDelayTimeout s;
     context := context s; loop := loop s |}.

Definition set_autoLockTimeout (h : option nat) (s : State) : State :=
  {| isLocked := isLocked s; targetState := targetState s;
     mqttClient := mqttClient s; autoLockTimeout := h;
     monitorIntervalHandle := monitorIntervalHandle s;
     lockDelayTimeout := lockDelayTimeout s;
     unlockDelayTimeout := unlockDelayTimeout s;
     context := context s; loop := loop s |}.

Definition set_monitorIntervalHandle (h : option nat) (s : State) : State :=
  {| isLocked := isLocked s; targetState := targetState s;
     mqttClient := mqttClient s; autoLockTimeout := autoLockTimeout s;
     monitorIntervalHandle := h;
     lockDelayTimeout := lockDelayTimeout s;
     unlockDelayTimeout := unlockDelayTimeout s;
     context := context s; loop := loop s |}.

Definition set_lockDelayTimeout (h : option nat) (s : State) : State :=
  {| isLocked := isLocked s; targetState := targetState s;
     mqttClient := mqttClient s; autoLockTimeout := autoLockTimeout s;
     monitorIntervalHandle := monitorIntervalHandle s;
     lockDelayTimeout := h;
     unlockDelayTimeout := unlockDelayTimeout s;
     context := context s; loop := loop s |}.

Definition set_unlockDelayTimeout (h : option nat) (s : State) : State :=
  {| isLocked := isLocked s; targetState := targetState s;
     mqttClient := mqttClient s; autoLockTimeout := autoLockTimeout s;
     monitorIntervalHandle := monitorIntervalHandle s;
     lockDelayTimeout := lockDelayTimeout s;
     unlockDelayTimeout := h;
     context := context s; loop := loop s |}.

Definition set_context (c : Context) (s : State) : State :=
  {| isLocked := isLocked s; targetState := targetState s;
     mqttClient := mqttClient s; autoLockTimeout := autoLockTimeout s;
     monitorIntervalHandle := monitorIntervalHandle s;
     lockDelayTimeout := lockDelayTimeout s;
     unlockDelayTimeout := unlockDelayTimeout s;
     context := c; loop := loop s |}.

Definition set_loop (l : Loop) (s : State) : State :=
  {| isLocked := isLocked s; targetState := targetState s;
     mqttClient := mqttClient s; autoLockTimeout := autoLockTimeout s;
     monitorIntervalHandle := monitorIntervalHandle s;
     lockDelayTimeout := lockDelayTimeout s;
     unlockDelayTimeout := unlockDelayTimeout s;
     context := context s; loop := l |}.

Definition setTimeout (cb : Callback) (ms : Z) (s : State) : nat * State :=
  let '(h, l) := EventLoop.setTimeout cb ms (loop s) in (h, set_loop l s).

Definition setInterval (cb : Callback) (ms : Z) (s : State) : nat * State :=
  let '(h, l) := EventLoop.setInterval cb ms (loop s) in (h, set_loop l s).

Definition clearTimeout (h : nat) (s : State) : State :=
  set_loop (EventLoop.clearTimeout h (loop s)) s.

Definition spawn (k : Continuation) (s : State) : State :=
  set_loop (EventLoop.spawn k (loop s)) s.

Definition includes (l : list string) (x : string) : bool :=
  existsb (String.eqb x) l.

Section Controller.

Variable config : LockConfig.

Definition tag : string := "[" +:+ name config +:+ "] ".

Definition logError (message : string) : list effect :=
  if includes ["debug"; "normal"; "minimal"]
              (or_str (logging config) "normal")
  then [LogError message] else [].

Definition secured (c : characteristic) (b : bool) : Z :=
  match c with
  | CurrentState =>
      if b then LockCurrentState.SECURED else LockCurrentState.UNSECURED
  | TargetState =>
      if b then LockTargetState.SECURED else LockTargetState.UNSECURED
  end.

(** The message published after a state change, when the controller
    is in mqtt mode with a client and a publish topic. *)
Definition publishState (desiredState : bool) (s : State) : list effect :=
  match mqttSettings config with
  | Some ms =>
      if String.eqb (mode config) "mqtt"
         && bool_decide (is_Some (mqttClient s))
         && truthy (mqttTopicPublish ms)
      then [MqttPublish (mqttTopicPublish ms)
              (if desiredState
               then or_str (Some (mqttPublishCloseMessage ms)) "closed"
               else or_str (Some (mqttPublishOpenMessage ms)) "opened")]
      else []
  | None => []
  end.

Definition armAutoLock (s : State) : State :=
  let s1 := match autoLockTimeout s with
            | Some h => clearTimeout h s
            | None => s
            end in
  let '(h, s2) :=
    setTimeout AutoLockCb (or_num (autoLockDelay config) 30 * 1000) s1 in
  set_autoLockTimeout (Some h) s2.

Definition updateLockState (desiredState triggerAutoLock : bool)
    (s : State) : State * list effect :=
  if Bool.eqb desiredState (isLocked s)
     && Bool.eqb (targetState s) desiredState
  then (s, [])
  else
    let s1 := set_targetState desiredState s in
    let s2 := set_isLocked desiredState s1 in
    let s3 := set_context {| ctx_isLocked := Some (isLocked s2);
                             ctx_targetState := Some (targetState s2) |}
                s2 in
    let s4 := if triggerAutoLock && or_false (autoLock config)
                 && negb desiredState
              then armAutoLock s3 else s3 in
    (s4,
     [UpdateCharacteristic TargetState (secured TargetState desiredState);
      UpdateCharacteristic CurrentState (secured CurrentState desiredState)]
     ++ publishState desiredState s3).

(** The [try]/[catch] of [executeCommand], once [execAsync] settled. *)
Definition executeCommand_settle (commandName : string) (r : exec_result)
  : outcome (list effect) :=
  try_catch
    (bind (execAsync r) (fun out =>
       Returned
         (if truthy (snd out)
          then logError (tag +:+ commandName +:+ " error output: "
                         +:+ trim (snd out))
          else [])))
    (fun message =>
       Returned (logError (tag +:+ commandName +:+ " failed: "
                           +:+ message))).

(** [await this.executeCommand(command, commandName);
     this.updateLockState(desiredState, this.config.autoLock || false)]:
    every call of [executeCommand] is followed by this update.  With an
    empty command nothing is started and the update runs at once;
    otherwise it waits for the process. *)
Definition executeCommand (command commandName : string)
    (desiredState : bool) (s : State) : State * list effect :=
  if truthy command
  then (spawn (AfterCommand commandName desiredState) s, [Exec command])
  else
    let '(s', e) :=
      updateLockState desiredState (or_false (autoLock config)) s in
    (s', logError (tag +:+ commandName +:+ " is not defined.") ++ e).

Definition setTargetState (value : Z) (s : State) : State * list effect :=
  let desiredState := (value =? LockTargetState.SECURED) in
  if String.eqb (mode config) "command" then
    match commandSettings config with
    | None => (s, logError (tag +:+ "Command settings missing."))
    | Some cs =>
        if desiredState then
          if is_positive (lockDelay config) then
            let '(h, s1) :=
              setTimeout (LockDelayCb cs)
                (default 0 (lockDelay config) * 1000) s in
            (set_lockDelayTimeout (Some h) s1, [])
          else executeCommand (closeCommand cs) "closeCommand" true s
        else
          if is_positive (unlockDelay config) then
            let '(h, s1) :=
              setTimeout (UnlockDelayCb cs)
                (default 0 (unlockDelay config) * 1000) s in
            (set_unlockDelayTimeout (Some h) s1, [])
          else executeCommand (openCommand cs) "openCommand" false s
    end
  else updateLockState desiredState (or_false (autoLock config)) s.

(** The token table of [executeMonitorCommand]. *)
Definition monitorState (stdout : string) : option bool :=
  let output := toLowerCase (trim stdout) in
  if String.eqb output "open" || String.eqb output "unsecured"
  then Some false
  else if String.eqb output "closed" || String.eqb output "secured"
  then Some true
  else None.

(** [executeMonitorCommand] up to its [await]. *)
Definition executeMonitorCommand (s : State) : State * list effect :=
  match commandSettings config with
  | Some cs =>
      if truthy (monitorCommand cs)
      then (spawn AfterMonitor s, [Exec (monitorCommand cs)])
      else (s, logError (tag +:+ "'monitorCommand' is not defined."))
  | None => (s, logError (tag +:+ "'monitorCommand' is not defined."))
  end.

(** [executeMonitorCommand] after its [await]. *)
Definition executeMonitorCommand_settle (r : exec_result) (s : State)
  : outcome (State * list effect) :=
  try_catch
    (bind (execAsync r) (fun out =>
       let e1 := if truthy (snd out)
                 then logError (tag +:+ "monitorCommand error output: "
                                +:+ trim (snd out))
                 else [] in
       match monitorState (fst out) with
       | Some newState =>
           if negb (Bool.eqb newState (isLocked s))
           then let '(s', e2) := updateLockState newState false s in
                Returned (s', e1 ++ e2)
           else Returned (s, e1)
       | None => Returned (s, e1)
       end))
    (fun message =>
       Returned (s, logError (tag +:+ "monitorCommand failed: "
                              +:+ message))).

(** The handler of the client's [message] event. *)
Definition onMessage (ms : MqttSettings) (topic message : string)
    (s : State) : State * list effect :=
  if String.eqb topic (mqttTopicSubscribe ms) then
    if String.eqb message (mqttOpenMessage ms)
    then updateLockState false false s
    else if String.eqb message (mqttCloseMessage ms)
    then updateLockState true false s
    else (s, [])
  else (s, []).

(** The handlers of the client's [connect], [error] and [reconnect]
    events subscribe and log; they touch no field of the controller and
    are not events of the model.  The [message] handler is [onMessage]. *)
Definition setupMQTT (s : State) : State * list effect :=
  match mqttSettings config with
  | None => (s, logError (tag +:+ "MQTT settings are missing."))
  | Some ms =>
      let credential (o : option string) :=
        match o with
        | Some v => if truthy v && truthy (trim v) then Some v else None
        | None => None
        end in
      (set_mqttClient (Some {| ended := false |}) s,
       [MqttConnect (mqttBroker ms) (Some (or_num (mqttPort ms) 1883))
          (credential (mqttUsername ms)) (credential (mqttPassword ms))])
  end.

Definition setupCommandLine (s : State) : State * list effect :=
  match commandSettings config with
  | None => (s, logError (tag +:+ "Command line settings are missing."))
  | Some cs =>
      if negb (truthy (openCommand cs)) || negb (truthy (closeCommand cs))
         || negb (truthy (monitorCommand cs))
         || (monitorInterval cs =? 0)
      then (s, logError (tag +:+ "Missing command settings (openCommand, closeCommand, monitorCommand, monitorInterval)."))
      else
        let '(h, s1) := setInterval MonitorCb (monitorInterval cs * 1000) s in
        (set_monitorIntervalHandle (Some h) s1, [])
  end.

Definition setupMode (s : State) : State * list effect :=
  if String.eqb (mode config) "mqtt" then setupMQTT s
  else if String.eqb (mode config) "command" then setupCommandLine s
  else (s, []).

(** The constructor, for an accessory with persisted [ctx], in a
    process whose event loop is [l]. *)
Definition construct (ctx : Context) (l : Loop) : State * list effect :=
  let s0 :=
    {| isLocked := default true (ctx_isLocked ctx);
       targetState := default true (ctx_targetState ctx);
       mqttClient := None; autoLockTimeout := None;
       monitorIntervalHandle := None; lockDelayTimeout := None;
       unlockDelayTimeout := None; context := ctx; loop := l |} in
  let '(s1, e) := setupMode s0 in
  (s1,
   [SetName (name config);
    UpdateCharacteristic CurrentState (secured CurrentState (isLocked s0));
    UpdateCharacteristic TargetState (secured TargetState (targetState s0))]
   ++ e).


(** [mqttClient.end(true, cb)] is a call into the bus client and may
    throw; [endThrows] says whether it does. *)
Definition mqtt_end (endThrows : option string) : outcome unit :=
  match endThrows with
  | Some message => Thrown message
  | None => Returned tt
  end.

Definition clear (h : option nat) (s : State) : State :=
  match h with
  | Some id => clearTimeout id s
  | None => s
  end.

Definition shutdown (endThrows : option string) (s : State)
  : outcome State * list effect :=
  let timeouts (s0 : State) :=
    let s1 := clear (monitorIntervalHandle s0) s0 in
    let s2 := clear (autoLockTimeout s1) s1 in
    let s3 := clear (lockDelayTimeout s2) s2 in
    clear (unlockDelayTimeout s3) s3 in
  match mqttClient s with
  | Some _ =>
      (bind (mqtt_end endThrows) (fun _ =>
         Returned (timeouts (set_mqttClient (Some {| ended := true |}) s))),
       [MqttEnd])
  | None => (Returned (timeouts s), [])
  end.

(** *** Events *)

(** What the host, the bus, the clock and child processes do to a
    controller.  [Expire h] runs the callback of timer [h] and [Exit]
    settles the [execAsync] of process [pid]. *)
Inductive event : Type :=
| HostSet (value : Z)
| BusMessage (topic message : string)
| Elapse (dt : Z)
| Expire (h : nat)
| Exit (pid : nat) (r : exec_result)
| HostShutdown (endThrows : option string).

Definition runCallback (cb : Callback) (s : State) : State * list effect :=
  match cb with
  | LockDelayCb cs => executeCommand (closeCommand cs) "closeCommand" true s
  | UnlockDelayCb cs => executeCommand (openCommand cs) "openCommand" false s
  | AutoLockCb => updateLockState true false s
  | MonitorCb => executeMonitorCommand s
  end.

(** The loop runs a timer only when it is armed and due. *)
Definition expire (h : nat) (s : State) : State * list effect :=
  match ready h (loop s) with
  | Some t => runCallback (callback t) (set_loop (expired h t (loop s)) s)
  | None => (s, [])
  end.

Definition resume (k : Continuation) (r : exec_result) (s : State)
  : State * list effect :=
  match k with
  | AfterCommand commandName desiredState =>
      match executeCommand_settle commandName r with
      | Returned e1 =>
          let '(s', e2) :=
            updateLockState desiredState (or_false (autoLock config)) s in
          (s', e1 ++ e2)
      | Thrown message => (s, [Uncaught message])
      end
  | AfterMonitor =>
      match executeMonitorCommand_settle r s with
      | Returned (s', e) => (s', e)
      | Thrown message => (s, [Uncaught message])
      end
  end.

Definition exit (pid : nat) (r : exec_result) (s : State)
  : State * list effect :=
  match running (loop s) !! pid with
  | Some k => resume k r (set_loop (exited pid (loop s)) s)
  | None => (s, [])
  end.

(** The bus delivers messages to a connected client only. *)
Definition busMessage (topic message : string) (s : State)
  : State * list effect :=
  match mqttSettings config, mqttClient s with
  | Some ms, Some c =>
      if ended c then (s, []) else onMessage ms topic message s
  | _, _ => (s, [])
  end.

Definition step (s : State) (ev : event) : State * list effect :=
  match ev with
  | HostSet value => setTargetState value s
  | BusMessage topic message => busMessage topic message s
  | Elapse dt =>
      if 0 <=? dt then (set_loop (elapse dt (loop s)) s, []) else (s, [])
  | Expire h => expire h s
  | Exit pid r => exit pid r s
  | HostShutdown endThrows =>
      match shutdown endThrows s with
      | (Returned s', e) => (s', e)
      | (Thrown message, e) => (s, e ++ [Uncaught message])
      end
  end.

Fixpoint run (s : State) (evs : list event) : State * list effect :=
  match evs with
  | [] => (s, [])
  | ev :: evs' =>
      let '(s1, e1) := step s ev in
      let '(s2, e2) := run s1 evs' in
      (s2, e1 ++ e2)
  end.

End Controller.

(** *** The platform *)

Definition lock_ (c : LockConfig) : string :=
  "Lock " +:+ quote +:+ name c +:+ quote.

Definition validateMode (lockConfig : LockConfig) : outcome unit :=
  if String.eqb (mode lockConfig) "mqtt" then
    match mqttSettings lockConfig with
    | None =>
        Thrown (lock_ lockConfig +:+ " is missing 'mqttSettings' in config.")
    | Some m =>
        bind (throw_if (negb (truthy (mqttBroker m)))
                (lock_ lockConfig
                 +:+ " is missing 'mqttBroker' in MQTT settings.")) (fun _ =>
        bind (throw_if (negb (truthy (mqttTopicSubscribe m)))
                (lock_ lockConfig
                 +:+ " is missing 'mqttTopicSubscribe' in MQTT settings."))
          (fun _ =>
        bind (throw_if (negb (truthy (mqttTopicPublish m)))
                (lock_ lockConfig
                 +:+ " is missing 'mqttTopicPublish' in MQTT settings."))
          (fun _ =>
        throw_if ((truthy_opt (mqttUsername m)
                && negb (truthy_opt (mqttPassword m)))
               || (negb (truthy_opt (mqttUsername m))
                   && truthy_opt (mqttPassword m)))
          (lock_ lockConfig
           +:+ " must provide both 'mqttUsername' and 'mqttPassword' together."))))
    end
  else if String.eqb (mode lockConfig) "command" then
    match commandSettings lockConfig with
    | None =>
        Thrown (lock_ lockConfig
                +:+ " is missing 'commandSettings' in config.")
    | Some cs =>
        bind (throw_if (negb (truthy (openCommand cs))
                     || negb (truthy (closeCommand cs))
                     || negb (truthy (monitorCommand cs))
                     || (monitorInterval cs =? 0))
                (lock_ lockConfig +:+ " is missing required command fields."))
          (fun _ =>
        throw_if (monitorInterval cs <=? 0)
          (lock_ lockConfig +:+ " has invalid 'monitorInterval'."))
    end
  else if String.eqb (mode lockConfig) "dummy" then Returned tt
  else Thrown (lock_ lockConfig +:+ " has invalid mode " +:+ quote
               +:+ mode lockConfig +:+ quote +:+ ".").

(** The fields are typed as the interface declares them, so the
    [typeof ... !== 'number'] tests are false. *)
Definition validateConfig (lockConfig : LockConfig) : outcome unit :=
  bind (validateMode lockConfig) (fun _ =>
  bind (throw_if (match lockDelay lockConfig with
               | Some d => d <? 0
               | None => false
               end)
          (lock_ lockConfig +:+ " has invalid 'lockDelay'. Must be >= 0."))
    (fun _ =>
  bind (throw_if (match unlockDelay lockConfig with
               | Some d => d <? 0
               | None => false
               end)
          (lock_ lockConfig +:+ " has invalid 'unlockDelay'. Must be >= 0."))
    (fun _ =>
  bind (throw_if (or_false (autoLock lockConfig)
               && match autoLockDelay lockConfig with
                  | Some d => d <=? 0
                  | None => false
                  end)
          (lock_ lockConfig +:+ " has invalid 'autoLockDelay'. Must be > 0."))
    (fun _ =>
  throw_if (match logging lockConfig with
         | Some l => negb (includes ["debug"; "normal"; "minimal"] l)
         | None => false
         end)
    (lock_ lockConfig
     +:+ " has invalid 'logging'. Valid: debug, normal, minimal."))))).

Definition valid (lockConfig : LockConfig) : bool :=
  negb (throws (validateConfig lockConfig)).

(** A platform accessory: [persisted] is the context the host restored
    from its cache, [instance] the controller stored in
    [context.instance], which from then on owns the context. *)
Record PlatformAccessory : Type := {
  UUID : string;
  displayName : string;
  persisted : Context;
  instance : option (LockConfig * State)
}.

Definition accessory_context (acc : PlatformAccessory) : Context :=
  match instance acc with
  | Some (_, st) => context st
  | None => persisted acc
  end.

(** [accessories] is [this.accessories], the accessories the host loaded
    from its cache; [created] are the accessories made by
    [discoverDevices] and handed to the host. *)
Record Platform : Type := {
  accessories : list PlatformAccessory;
  created : list PlatformAccessory
}.

Section Discovery.

(** [api.hap.uuid.generate] *)
Variable generate : string -> string.

(** One iteration of the loop of [discoverDevices].  Every controller
    starts on timers of its own: those of other controllers never
    touch its fields. *)
Definition discoverDevice (lockConfig : LockConfig) (p : Platform)
  : Platform * list effect :=
  match validateConfig lockConfig with
  | Thrown message => (p, [LogError message])
  | Returned _ =>
      let uuid := generate (name lockConfig) in
      match list_find (fun acc => UUID acc = uuid) (accessories p) with
      | Some (i, existingAccessory) =>
          let '(st, e) :=
            construct lockConfig (accessory_context existingAccessory)
              idle in
          ({| accessories :=
                <[i := {| UUID := UUID existingAccessory;
                          displayName := displayName existingAccessory;
                          persisted := persisted existingAccessory;
                          instance := Some (lockConfig, st) |}]>
                  (accessories p);
              created := created p |},
           e ++ [UpdatePlatformAccessories uuid])
      | None =>
          let '(st, e) := construct lockConfig no_context idle in
          ({| accessories := accessories p;
              created := created p ++
                [{| UUID := uuid; displayName := name lockConfig;
                    persisted := no_context;
                    instance := Some (lockConfig, st) |}] |},
           e ++ [RegisterPlatformAccessories uuid])
      end
  end.

Fixpoint discoverLoop (locks : list LockConfig) (p : Platform)
  : Platform * list effect :=
  match locks with
  | [] => (p, [])
  | lockConfig :: rest =>
      let '(p1, e1) := discoverDevice lockConfig p in
      let '(p2, e2) := discoverLoop rest p1 in
      (p2, e1 ++ e2)
  end.

(** [locks] is [None] when [config.locks] is missing or no array. *)
Definition discoverDevices (locks : option (list LockConfig))
    (p : Platform) : Platform * list effect :=
  match locks with
  | None => (p, [LogError "No locks configured."])
  | Some l => discoverLoop l p
  end.

End Discovery.

(** [shutdown] of the platform, on the host's [SHUTDOWN] event.  The loop
    goes over [this.accessories], the accessories the host loaded from its
    cache.  The controller's [shutdown] is an [async] method that is not
    awaited: what it throws rejects its promise and does not leave the
    loop.  [endThrows] says for which accessory the client's [end] throws;
    [instance] is [None] when the restored context holds no controller. *)
Definition shutdownAccessory (endThrows : PlatformAccessory -> option string)
    (accessory : PlatformAccessory) : PlatformAccessory * list effect :=
  match instance accessory with
  | Some (lockConfig, st) =>
      match shutdown (endThrows accessory) st with
      | (Returned st', e) =>
          ({| UUID := UUID accessory; displayName := displayName accessory;
              persisted := persisted accessory;
              instance := Some (lockConfig, st') |}, e)
      | (Thrown message, e) => (accessory, e ++ [Uncaught message])
      end
  | None => (accessory, [])
  end.

Fixpoint shutdownLoop (endThrows : PlatformAccessory -> option string)
    (accs : list PlatformAccessory) : list PlatformAccessory * list effect :=
  match accs with
  | [] => ([], [])
  | accessory :: rest =>
      let '(a, e1) := shutdownAccessory endThrows accessory in
      let '(rest', e2) := shutdownLoop endThrows rest in
      (a :: rest', e1 ++ e2)
  end.

Definition shutdownPlatform (endThrows : PlatformAccessory -> option string)
    (p : Platform) : Platform * list effect :=
  let '(accs, e) := shutdownLoop endThrows (accessories p) in
  ({| accessories := accs; created := created p |}, e).

End TS.

(** ** The JavaScript controller ([powerlockAccessory.js]) *)

Module Legacy.

(** The lock's entry of the platform configuration, as [configure]
    reads it. *)
Module Config.
Record t : Type := {
  lockName : option string;
  mode : option string;
  autoLock : option bool;
  autoLockDelay : option Z;
  lockDelay : option Z;
  unlockDelay : option Z;
  mqttBrokerUrl : option string;
  mqttUsername : option string;
  mqttPassword : option string;
  mqttTopic : option string;
  mqttMessageOpen : option string;
  mqttMessageClosed : option string;
  mqttMessageSendOpen : option string;
  mqttMessageSendClosed : option string;
  cmdPollInterval : option Z;
  cmdPollCommand : option string;
  cmdLockCommand : option string;
  cmdUnlockCommand : option string
}.
End Config.

(** The fields [configure] assigns. *)
Record Settings : Type := {
  lockName : string;
  mode : string;
  autoLock : bool;
  autoLockDelay : Z;
  lockDelay : Z;
  unlockDelay : Z;
  mqttBrokerUrl : string;
  mqttUsername : string;
  mqttPassword : string;
  mqttTopic : string;
  mqttMessageOpen : string;
  mqttMessageClosed : string;
  mqttMessageSendOpen : string;
  mqttMessageSendClosed : string;
  cmdPollInterval : Z;
  cmdPollCommand : string;
  cmdLockCommand : string;
  cmdUnlockCommand : string
}.

Definition with_mode (m : string) (c : Settings) : Settings :=
  {| lockName := lockName c; mode := m; autoLock := autoLock c;
     autoLockDelay := autoLockDelay c; lockDelay := lockDelay c;
     unlockDelay := unlockDelay c; mqttBrokerUrl := mqttBrokerUrl c;
     mqttUsername := mqttUsername c; mqttPassword := mqttPassword c;
     mqttTopic := mqttTopic c; mqttMessageOpen := mqttMessageOpen c;
     mqttMessageClosed := mqttMessageClosed c;
     mqttMessageSendOpen := mqttMessageSendOpen c;
     mqttMessageSendClosed := mqttMessageSendClosed c;
     cmdPollInterval := cmdPollInterval c;
     cmdPollCommand := cmdPollCommand c;
     cmdLockCommand := cmdLockCommand c;
     cmdUnlockCommand := cmdUnlockCommand c |}.

(** The assignments at the head of [configure]. *)
Definition assign (config : Config.t) : Settings :=
  {| lockName := or_str (Config.lockName config) "Power Lock";
     mode := or_str (Config.mode config) "dummy";
     autoLock := or_false (Config.autoLock config);
     autoLockDelay := or_num (Config.autoLockDelay config) 10;
     lockDelay := or_num (Config.lockDelay config) 0;
     unlockDelay := or_num (Config.unlockDelay config) 0;
     mqttBrokerUrl := or_str (Config.mqttBrokerUrl config) EmptyString;
     mqttUsername := or_str (Config.mqttUsername config) EmptyString;
     mqttPassword := or_str (Config.mqttPassword config) EmptyString;
     mqttTopic := or_str (Config.mqttTopic config) EmptyString;
     mqttMessageOpen := or_str (Config.mqttMessageOpen config) "OPEN";
     mqttMessageClosed := or_str (Config.mqttMessageClosed config) "CLOSED";
     mqttMessageSendOpen :=
       or_str (Config.mqttMessageSendOpen config) "UNLOCK";
     mqttMessageSendClosed :=
       or_str (Config.mqttMessageSendClosed config) "LOCK";
     cmdPollInterval := or_num (Config.cmdPollInterval config) 0;
     cmdPollCommand := or_str (Config.cmdPollCommand config) EmptyString;
     cmdLockCommand := or_str (Config.cmdLockCommand config) EmptyString;
     cmdUnlockCommand :=
       or_str (Config.cmdUnlockCommand config) EmptyString |}.

Inductive Callback : Type :=
| LockDelayCb
| UnlockDelayCb
| AutoLockCb
| PollCb.

(** The callbacks of [exec]: only the one of the poll command touches
    the controller, the other two log. *)
Inductive Continuation : Type :=
| AfterPoll
| AfterLock
| AfterUnlock.

Abbreviation Loop := (EventLoop.Loop Callback Continuation).

Record State : Type := {
  settings : Settings;
  currentState : Z;
  targetState : Z;
  pollIntervalObj : option nat;
  autoLockTimeout : option nat;
  lockDelayTimeout : option nat;
  unlockDelayTimeout : option nat;
  mqttClient : option unit;
  loop : Loop
}.

Definition set_settings (c : Settings) (s : State) : State :=
  {| settings := c; currentState := currentState s;
     targetState := targetState s; pollIntervalObj := pollIntervalObj s;
     autoLockTimeout := autoLockTimeout s;
     lockDelayTimeout := lockDelayTimeout s;
     unlockDelayTimeout := unlockDelayTimeout s;
     mqttClient := mqttClient s; loop := loop s |}.

Definition set_currentState (v : Z) (s : State) : State :=
  {| settings := settings s; currentState := v;
     targetState := targetState s; pollIntervalObj := pollIntervalObj s;
     autoLockTimeout := autoLockTimeout s;
     lockDelayTimeout := lockDelayTimeout s;
     unlockDelayTimeout := unlockDelayTimeout s;
     mqttClient := mqttClient s; loop := loop s |}.

Definition set_targetState (v : Z) (s : State) : State :=
  {| settings := settings s; currentState := currentState s;
     targetState := v; pollIntervalObj := pollIntervalObj s;
     autoLockTimeout := autoLockTimeout s;
     lockDelayTimeout := lockDelayTimeout s;
     unlockDelayTimeout := unlockDelayTimeout s;
     mqttClient := mqttClient s; loop := loop s |}.

Definition set_pollIntervalObj (h : option nat) (s : State) : State :=
  {| settings := settings s; currentState := currentState s;
     targetState := targetState s; pollIntervalObj := h;
     autoLockTimeout := autoLockTimeout s;
     lockDelayTimeout := lockDelayTimeout s;
     unlockDelayTimeout := unlockDelayTimeout s;
     mqttClient := mqttClient s; loop := loop s |}.

Definition set_autoLockTimeout (h : option nat) (s : State) : State :=
  {| settings := settings s; currentState := currentState s;
     targetState := targetState s; pollIntervalObj := pollIntervalObj s;
     autoLockTimeout := h;
     lockDelayTimeout := lockDelayTimeout s;
     unlockDelayTimeout := unlockDelayTimeout s;
     mqttClient := mqttClient s; loop := loop s |}.

Definition set_lockDelayTimeout (h : option nat) (s : State) : State :=
  {| settings := settings s; currentState := currentState s;
     targetState := targetState s; pollIntervalObj := pollIntervalObj s;
     autoLockTimeout := autoLockTimeout s;
     lockDelayTimeout := h;
     unlockDelayTimeout := unlockDelayTimeout s;
     mqttClient := mqttClient s; loop := loop s |}.

Definition set_unlockDelayTimeout (h : option nat) (s : State) : State :=
  {| settings := settings s; currentState := currentState s;
     targetState := targetState s; pollIntervalObj := pollIntervalObj s;
     autoLockTimeout := autoLockTimeout s;
     lockDelayTimeout := lockDelayTimeout s;
     unlockDelayTimeout := h;
     mqttClient := mqttClient s; loop := loop s |}.

Definition set_mqttClient (c : option unit) (s : State) : State :=
  {| settings := settings s; currentState := currentState s;
     targetState := targetState s; pollIntervalObj := pollIntervalObj s;
     autoLockTimeout := autoLockTimeout s;
     lockDelayTimeout := lockDelayTimeout s;
     unlockDelayTimeout := unlockDelayTimeout s;
     mqttClient := c; loop := loop s |}.

Definition set_loop (l : Loop) (s : State) : State :=
  {| settings := settings s; currentState := currentState s;
     targetState := targetState s; pollIntervalObj := pollIntervalObj s;
     autoLockTimeout := autoLockTimeout s;
     lockDelayTimeout := lockDelayTimeout s;
     unlockDelayTimeout := unlockDelayTimeout s;
     mqttClient := mqttClient s; loop := l |}.

Definition setTimeout (cb : Callback) (ms : Z) (s : State) : nat * State :=
  let '(h, l) := EventLoop.setTimeout cb ms (loop s) in (h, set_loop l s).

Definition setInterval (cb : Callback) (ms : Z) (s : State) : nat * State :=
  let '(h, l) := EventLoop.setInterval cb ms (loop s) in (h, set_loop l s).

Definition clearTimeout (h : nat) (s : State) : State :=
  set_loop (EventLoop.clearTimeout h (loop s)) s.

Definition spawn (k : Continuation) (s : State) : State :=
  set_loop (EventLoop.spawn k (loop s)) s.

(** [mqttClient.end(true)] may throw; [endThrows] says whether it
    does. *)
Definition mqtt_end (endThrows : option string) : outcome unit :=
  match endThrows with
  | Some message => Thrown message
  | None => Returned tt
  end.

Definition cleanup (endThrows : option string) (s : State)
  : outcome State * list effect :=
  let s1 := match pollIntervalObj s with
            | Some h => set_pollIntervalObj None (clearTimeout h s)
            | None => s
            end in
  let s2 := match autoLockTimeout s1 with
            | Some h => set_autoLockTimeout None (clearTimeout h s1)
            | None => s1
            end in
  let s3 := match lockDelayTimeout s2 with
            | Some h => set_lockDelayTimeout None (clearTimeout h s2)
            | None => s2
            end in
  let s4 := match unlockDelayTimeout s3 with
            | Some h => set_unlockDelayTimeout None (clearTimeout h s3)
            | None => s3
            end in
  match mqttClient s4 with
  | Some _ =>
      (bind (try_catch (mqtt_end endThrows) (fun _ => Returned tt))
         (fun _ => Returned (set_mqttClient None s4)),
       [MqttEnd])
  | None => (Returned s4, [])
  end.

Definition clearLockUnlockDelays (s : State) : State :=
  let s1 := match lockDelayTimeout s with
            | Some h => set_lockDelayTimeout None (clearTimeout h s)
            | None => s
            end in
  match unlockDelayTimeout s1 with
  | Some h => set_unlockDelayTimeout None (clearTimeout h s1)
  | None => s1
  end.

Definition updateHomeKitStates (s : State) : list effect :=
  [UpdateCharacteristic CurrentState (currentState s);
   UpdateCharacteristic TargetState (targetState s)].

Definition doLock (s : State) : State * list effect :=
  let c := settings s in
  let e1 := if String.eqb (mode c) "mqtt"
               && bool_decide (is_Some (mqttClient s))
               && truthy (mqttMessageSendClosed c)
            then [MqttPublish (mqttTopic c) (mqttMessageSendClosed c)]
            else [] in
  let '(s1, e2) := if String.eqb (mode c) "cmd" && truthy (cmdLockCommand c)
                   then (spawn AfterLock s, [Exec (cmdLockCommand c)])
                   else (s, []) in
  let s2 := set_targetState LockTargetState.SECURED
              (set_currentState LockCurrentState.SECURED s1) in
  (s2, e1 ++ e2 ++ updateHomeKitStates s2).

Definition doUnlock (s : State) : State * list effect :=
  let c := settings s in
  let e1 := if String.eqb (mode c) "mqtt"
               && bool_decide (is_Some (mqttClient s))
               && truthy (mqttMessageSendOpen c)
            then [MqttPublish (mqttTopic c) (mqttMessageSendOpen c)]
            else [] in
  let '(s1, e2) := if String.eqb (mode c) "cmd"
                      && truthy (cmdUnlockCommand c)
                   then (spawn AfterUnlock s, [Exec (cmdUnlockCommand c)])
                   else (s, []) in
  let s2 := set_targetState LockTargetState.UNSECURED
              (set_currentState LockCurrentState.UNSECURED s1) in
  let s3 := if autoLock c then
              let s' := match autoLockTimeout s2 with
                        | Some h => clearTimeout h s2
                        | None => s2
                        end in
              let '(h, s'') :=
                setTimeout AutoLockCb (autoLockDelay c * 1000) s' in
              set_autoLockTimeout (Some h) s''
            else s2 in
  (s3, e1 ++ e2 ++ updateHomeKitStates s2).

Definition handleTargetStateSet (value : Z) (s : State)
  : State * list effect :=
  let s0 := set_targetState value s in
  let c := settings s0 in
  if value =? LockTargetState.SECURED then
    if 0 <? lockDelay c then
      let '(h, s1) :=
        setTimeout LockDelayCb (lockDelay c * 1000)
          (clearLockUnlockDelays s0) in
      (set_lockDelayTimeout (Some h) s1, [])
    else doLock s0
  else if value =? LockTargetState.UNSECURED then
    if 0 <? unlockDelay c then
      let '(h, s1) :=
        setTimeout UnlockDelayCb (unlockDelay c * 1000)
          (clearLockUnlockDelays s0) in
      (set_unlockDelayTimeout (Some h) s1, [])
    else doUnlock s0
  else (s0, []).

Definition setupMqtt (s : State) : State * list effect :=
  let c := settings s in
  if negb (truthy (mqttBrokerUrl c)) || negb (truthy (mqttTopic c))
  then (set_settings (with_mode "dummy" c) s, [])
  else
    (set_mqttClient (Some tt) s,
     [MqttConnect (mqttBrokerUrl c) None
        (if truthy (mqttUsername c) then Some (mqttUsername c) else None)
        (if truthy (mqttPassword c) then Some (mqttPassword c) else None)]).

Definition setupCommandPolling (s : State) : State * list effect :=
  let c := settings s in
  if negb (truthy (cmdPollCommand c)) || (cmdPollInterval c =? 0)
  then (set_settings (with_mode "dummy" c) s, [])
  else
    let '(h, s1) := setInterval PollCb (cmdPollInterval c * 1000) s in
    (set_pollIntervalObj (Some h) s1, []).

Definition configure (config : Config.t) (endThrows : option string)
    (s : State) : outcome State * list effect :=
  let s1 := set_settings (assign config) s in
  match cleanup endThrows s1 with
  | (Returned s2, e) =>
      let '(s3, e') :=
        if String.eqb (mode (settings s2)) "mqtt" then setupMqtt s2
        else if String.eqb (mode (settings s2)) "cmd"
        then setupCommandPolling s2
        else (s2, []) in
      (Returned s3, [SetName (lockName (settings s1))] ++ e ++ e')
  | (Thrown message, e) =>
      (Thrown message, [SetName (lockName (settings s1))] ++ e)
  end.

(** The object as the constructor has it when it calls [cleanup] for
    the first time: no timer field and no client is set.  [configure]
    assigns [settings] before anything reads them. *)
Definition blank (config : Config.t) : State :=
  {| settings := assign config;
     currentState := LockCurrentState.SECURED;
     targetState := LockTargetState.SECURED;
     pollIntervalObj := None; autoLockTimeout := None;
     lockDelayTimeout := None; unlockDelayTimeout := None;
     mqttClient := None; loop := idle |}.

Definition construct (config : Config.t) : outcome State * list effect :=
  match cleanup None (blank config) with
  | (Returned s1, e1) =>
      match configure config None s1 with
      | (Returned s2, e2) =>
          (Returned s2, e1 ++ e2 ++ updateHomeKitStates s2)
      | (Thrown message, e2) => (Thrown message, e1 ++ e2)
      end
  | (Thrown message, e1) => (Thrown message, e1)
  end.

(** *** Events *)

Inductive event : Type :=
| HostSet (value : Z)
| BusMessage (message : string)
| Elapse (dt : Z)
| Expire (h : nat)
| Exit (pid : nat) (r : exec_result)
| Configure (config : Config.t) (endThrows : option string)
| Cleanup (endThrows : option string).

Definition runCallback (cb : Callback) (s : State) : State * list effect :=
  match cb with
  | LockDelayCb => doLock s
  | UnlockDelayCb => doUnlock s
  | AutoLockCb => doLock (set_targetState LockTargetState.SECURED s)
  | PollCb => (spawn AfterPoll s, [Exec (cmdPollCommand (settings s))])
  end.

Definition expire (h : nat) (s : State) : State * list effect :=
  match ready h (loop s) with
  | Some t => runCallback (callback t) (set_loop (expired h t (loop s)) s)
  | None => (s, [])
  end.

(** The callback of the poll command. *)
Definition polled (r : exec_result) (s : State) : State * list effect :=
  match r with
  | Rejected _ => (s, [])
  | Resolved stdout _ =>
      let c := settings s in
      let trimmed := toUpperCase (trim stdout) in
      let s1 :=
        if String.eqb trimmed (toUpperCase (mqttMessageOpen c))
           || String.eqb trimmed "OPEN"
        then set_targetState LockTargetState.UNSECURED
               (set_currentState LockCurrentState.UNSECURED s)
        else if String.eqb trimmed (toUpperCase (mqttMessageClosed c))
                || String.eqb trimmed "CLOSED"
        then set_targetState LockTargetState.SECURED
               (set_currentState LockCurrentState.SECURED s)
        else s in
      (s1, updateHomeKitStates s1)
  end.

Definition exit (pid : nat) (r : exec_result) (s : State)
  : State * list effect :=
  match running (loop s) !! pid with
  | Some AfterPoll => polled r (set_loop (exited pid (loop s)) s)
  | Some _ => (set_loop (exited pid (loop s)) s, [])
  | None => (s, [])
  end.

(** The handler of the client's [message] event; the bus delivers to a
    live client only. *)
Definition busMessage (msgStr : string) (s : State) : State * list effect :=
  match mqttClient s with
  | Some _ =>
      let c := settings s in
      if String.eqb msgStr (mqttMessageOpen c) then
        let s1 := set_targetState LockTargetState.UNSECURED
                    (set_currentState LockCurrentState.UNSECURED s) in
        (s1, updateHomeKitStates s1)
      else if String.eqb msgStr (mqttMessageClosed c) then
        let s1 := set_targetState LockTargetState.SECURED
                    (set_currentState LockCurrentState.SECURED s) in
        (s1, updateHomeKitStates s1)
      else (s, [])
  | None => (s, [])
  end.

Definition settle (s : State) (r : outcome State * list effect)
  : State * list effect :=
  match r with
  | (Returned s', e) => (s', e)
  | (Thrown message, e) => (s, e ++ [Uncaught message])
  end.

Definition step (s : State) (ev : event) : State * list effect :=
  match ev with
  | HostSet value => handleTargetStateSet value s
  | BusMessage message => busMessage message s
  | Elapse dt =>
      if 0 <=? dt then (set_loop (elapse dt (loop s)) s, []) else (s, [])
  | Expire h => expire h s
  | Exit pid r => exit pid r s
  | Configure config endThrows => settle s (configure config endThrows s)
  | Cleanup endThrows => settle s (cleanup endThrows s)
  end.

Fixpoint run (s : State) (evs : list event) : State * list effect :=
  match evs with
  | [] => (s, [])
  | ev :: evs' =>
      let '(s1, e1) := step s ev in
      let '(s2, e2) := run s1 evs' in
      (s2, e1 ++ e2)
  end.

(** *** The platform ([platform.js]) *)

(** An element of [this.accessories]: an accessory the host loaded from
    its cache, or a controller, with the UUID of the accessory it wraps. *)
Inductive Entry : Type :=
| Cached (UUID displayName : string)
| Handler (UUID : string) (st : State).

(** [a.UUID] for a cached accessory, [a.accessory?.UUID] for a
    controller. *)
Definition entry_UUID (a : Entry) : string :=
  match a with
  | Cached uuid _ => uuid
  | Handler uuid _ => uuid
  end.

Section Platform.

(** [api.hap.uuid.generate] *)
Variable generate : string -> string.

(** The body of the loop of [configureAccessories].  [endThrows] says
    whether the [end] of the client of a controller that is configured
    again throws. *)
Definition configureLock (endThrows : option string) (lockConfig : Config.t)
    (accs : list Entry) : outcome (list Entry) * list effect :=
  match Config.lockName lockConfig with
  | None => (Returned accs, [])
  | Some lockName =>
      if negb (truthy lockName) then (Returned accs, [])
      else
        let uuid := generate lockName in
        let create :=
          match construct lockConfig with
          | (Returned st, e) =>
              (Returned (accs ++ [Handler uuid st]),
               e ++ [RegisterPlatformAccessories uuid])
          | (Thrown message, e) => (Thrown message, e)
          end in
        match list_find (fun a => entry_UUID a = uuid) accs with
        | Some (i, Handler u st) =>
            match configure lockConfig endThrows st with
            | (Returned st', e) => (Returned (<[i := Handler u st']> accs), e)
            | (Thrown message, e) => (Thrown message, e)
            end
        | Some (i, Cached u displayName) =>
            if truthy displayName then
              match construct lockConfig with
              | (Returned st, e) => (Returned (<[i := Handler u st]> accs), e)
              | (Thrown message, e) => (Thrown message, e)
              end
            else create
        | None => create
        end
  end.

Fixpoint configureAccessories (endThrows : option string)
    (locksConfig : list Config.t) (accs : list Entry)
  : outcome (list Entry) * list effect :=
  match locksConfig with
  | [] => (Returned accs, [])
  | lockConfig :: rest =>
      match configureLock endThrows lockConfig accs with
      | (Returned accs', e) =>
          let '(o, e') := configureAccessories endThrows rest accs' in
          (o, e ++ e')
      | (Thrown message, e) => (Thrown message, e)
      end
  end.

End Platform.

(** The handler of the host's [shutdown] event: [cleanup] of every
    element that is a controller. *)
Fixpoint shutdownAll (endThrows : option string) (accs : list Entry)
  : outcome (list Entry) * list effect :=
  match accs with
  | [] => (Returned [], [])
  | Handler u st :: rest =>
      match cleanup endThrows st with
      | (Returned st', e) =>
          let '(o, e') := shutdownAll endThrows rest in
          (bind o (fun rest' => Returned (Handler u st' :: rest')), e ++ e')
      | (Thrown message, e) => (Thrown message, e)
      end
  | acc :: rest =>
      let '(o, e') := shutdownAll endThrows rest in
      (bind o (fun rest' => Returned (acc :: rest')), e')
  end.

End Legacy.

(** * Vocabulary of the properties *)

(** ** For the TypeScript controller *)

Module TSProps.

Import TS.

(** The direction of a request, as [setTargetState] derives it. *)
Definition value_of (d : bool) : Z :=
  if d then LockTargetState.SECURED else LockTargetState.UNSECURED.

Definition commandFor (d : bool) (cs : CommandSettings) : string :=
  if d then closeCommand cs else openCommand cs.

Definition commandNameFor (d : bool) : string :=
  if d then "closeCommand" else "openCommand".

Definition delayFor (d : bool) (config : LockConfig) : option Z :=
  if d then lockDelay config else unlockDelay config.

Definition delayCb (d : bool) (cs : CommandSettings) : Callback :=
  if d then LockDelayCb cs else UnlockDelayCb cs.

(** The two host writes of a state change. *)
Definition host_writes (d : bool) : list effect :=
  [UpdateCharacteristic TargetState (value_of d);
   UpdateCharacteristic CurrentState
     (if d then LockCurrentState.SECURED else LockCurrentState.UNSECURED)].

Definition persisted_as (b1 b2 : bool) : Context :=
  {| ctx_isLocked := Some b1; ctx_targetState := Some b2 |}.

(** Current and target state agree. *)
Definition settled (s : State) : Prop := isLocked s = targetState s.

(** Example configurations. *)
Definition garage : LockConfig :=
  {| name := "Garage Lock"; mode := "command"; autoLock := Some false;
     autoLockDelay := None; lockDelay := Some 0; unlockDelay := Some 0;
     logging := Some "debug"; mqttSettings := None;
     commandSettings :=
       Some {| openCommand := "echo 'unlocking garage'";
               closeCommand := "echo 'locking garage'";
               monitorCommand := "echo 'closed'";
               monitorInterval := 60 |} |}.

Definition garage_cs : CommandSettings :=
  {| openCommand := "echo 'unlocking garage'";
     closeCommand := "echo 'locking garage'";
     monitorCommand := "echo 'closed'";
     monitorInterval := 60 |}.

Definition slow_garage : LockConfig :=
  {| name := "Garage Lock"; mode := "command"; autoLock := Some true;
     autoLockDelay := Some 10; lockDelay := Some 5; unlockDelay := Some 5;
     logging := Some "debug"; mqttSettings := None;
     commandSettings := Some garage_cs |}.


Definition front_door : LockConfig :=
  {| name := "Front Door Lock"; mode := "mqtt"; autoLock := Some true;
     autoLockDelay := Some 30; lockDelay := Some 5; unlockDelay := Some 5;
     logging := Some "normal";
     mqttSettings :=
       Some {| mqttBroker := "mqtt://localhost"; mqttPort := Some 1883;
               mqttUsername := Some "mqttuser";
               mqttPassword := Some "mqttpass";
               mqttTopicSubscribe := "home/lock/command";
               mqttOpenMessage := "open"; mqttCloseMessage := "close";
               mqttTopicPublish := "home/lock/state";
               mqttPublishOpenMessage := "opened";
               mqttPublishCloseMessage := "closed" |};
     commandSettings := None |}.

(** A freshly started controller. *)
Definition started (config : LockConfig) (ctx : Context) : State :=
  fst (construct config ctx idle).

(** The property as the specification words it: a request for the state
    the lock is in changes nothing and does nothing. *)
Definition request_is_noop (config : LockConfig) : Prop :=
  forall s x, isLocked s = x -> targetState s = x ->
    setTargetState config (value_of x) s = (s, []).

Definition consistent (ctx : Context) : Prop :=
  default true (ctx_isLocked ctx) = default true (ctx_targetState ctx).

(** The invariant: the two fields agree, and so do the persisted ones. *)
Definition Inv (s : State) : Prop := settled s /\ consistent (context s).

Definition set_delayTimeout (d : bool) (h : option nat) (s : State) : State :=
  if d then set_lockDelayTimeout h s else set_unlockDelayTimeout h s.







(** The state after the two fields and the context have been written. *)
Definition written (d : bool) (s : State) : State :=
  set_context (persisted_as d d) (set_isLocked d (set_targetState d s)).


(** The accessory a discovery effect announces to the host. *)
Definition announced (e : effect) : option string :=
  match e with
  | RegisterPlatformAccessories uuid | UpdatePlatformAccessories uuid =>
      Some uuid
  | _ => None
  end.


Definition no_accessories : Platform := {| accessories := []; created := [] |}.

(** The context a session leaves: the controller is built on [ctx] and
    handles [evs]. *)
Definition session (ctx : Context) (run_ : LockConfig * list event)
  : Context :=
  context (run run_.1 (started run_.1 ctx) run_.2).1.

(** The persisted context mirrors the two fields: a field that was never
    persisted reads as locked. *)
Definition Mirrored (s : State) : Prop :=
  isLocked s = default true (ctx_isLocked (context s))
  /\ targetState s = default true (ctx_targetState (context s)).

(** The lock state and the persisted context are either untouched or
    written together, to one value. *)
Definition kept_or_written (s s' : State) : Prop :=
  (isLocked s' = isLocked s /\ targetState s' = targetState s
   /\ context s' = context s)
  \/ exists d, isLocked s' = d /\ targetState s' = d
               /\ context s' = persisted_as d d.

(** What [validateConfig] asks of a lock, field by field. *)
Definition well_formed (c : LockConfig) : Prop :=
  ((mode c = "mqtt"
    /\ exists m, mqttSettings c = Some m
         /\ truthy (mqttBroker m) = true
         /\ truthy (mqttTopicSubscribe m) = true
         /\ truthy (mqttTopicPublish m) = true
         /\ truthy_opt (mqttUsername m) = truthy_opt (mqttPassword m))
   \/ (mode c = "command"
       /\ exists cs, commandSettings c = Some cs
            /\ truthy (openCommand cs) = true
            /\ truthy (closeCommand cs) = true
            /\ truthy (monitorCommand cs) = true
            /\ 0 < monitorInterval cs)
   \/ mode c = "dummy")
  /\ (forall d, lockDelay c = Some d -> 0 <= d)
  /\ (forall d, unlockDelay c = Some d -> 0 <= d)
  /\ (autoLock c = Some true -> forall d, autoLockDelay c = Some d -> 0 < d)
  /\ (forall l, logging c = Some l ->
        l = "debug" \/ l = "normal" \/ l = "minimal").

Definition with_name (n : string) (c : LockConfig) : LockConfig :=
  {| name := n; mode := mode c; autoLock := autoLock c;
     autoLockDelay := autoLockDelay c; lockDelay := lockDelay c;
     unlockDelay := unlockDelay c; logging := logging c;
     mqttSettings := mqttSettings c; commandSettings := commandSettings c |}.

(** The credential [setupMQTT] passes to the client: a value that is
    empty or blank is left out. *)
Definition credential (o : option string) : option string :=
  match o with
  | Some v => if truthy v && truthy (trim v) then Some v else None
  | None => None
  end.

Definition is_error (e : effect) : bool :=
  match e with LogError _ | Uncaught _ => true | _ => false end.

Definition is_command (e : effect) : bool :=
  match e with Exec _ => true | _ => false end.

(** Every armed timer is the auto-lock timer or the monitor interval, and
    the controller holds its handle. *)
Definition Held (s : State) : Prop :=
  forall h t, timers (loop s) !! h = Some t ->
    (callback t = AutoLockCb /\ autoLockTimeout s = Some h)
    \/ (callback t = MonitorCb /\ monitorIntervalHandle s = Some h).


(** Nothing of command mode is in use. *)
Definition Virtual (s : State) : Prop :=
  (forall h t, timers (loop s) !! h = Some t -> callback t = AutoLockCb)
  /\ running (loop s) = ∅
  /\ monitorIntervalHandle s = None
  /\ lockDelayTimeout s = None /\ unlockDelayTimeout s = None.

(** No auto-lock timer is armed and none was ever stored. *)
Definition NoAutoLock (s : State) : Prop :=
  (forall h t, timers (loop s) !! h = Some t -> callback t <> AutoLockCb)
  /\ autoLockTimeout s = None.

(** Events of the clock: time passes, the loop runs a timer. *)
Inductive tick : Type :=
| Passes (dt : Z)
| Runs (h : nat).

Definition clock (t : tick) : event :=
  match t with
  | Passes dt => Elapse dt
  | Runs h => Expire h
  end.

(** [clearTimeout] on the table, for a field that may be unset. *)
Definition clearing (o : option nat) (m : gmap nat (Timer Callback))
  : gmap nat (Timer Callback) :=
  match o with
  | Some h => delete h m
  | None => m
  end.

(** The timer a field holds, if it is armed. *)
Definition armed_at (o : option nat) (s : State) : option (Timer Callback) :=
  match o with
  | Some h => timers (loop s) !! h
  | None => None
  end.

(** The accessory a discovery effect registers with the host, and the one
    it updates. *)
Definition registered (e : effect) : option string :=
  match e with RegisterPlatformAccessories uuid => Some uuid | _ => None end.

Definition updated (e : effect) : option string :=
  match e with UpdatePlatformAccessories uuid => Some uuid | _ => None end.

(** The lock's accessory is among those loaded from the cache. *)
Definition cached (generate : string -> string) (p : Platform)
    (c : LockConfig) : bool :=
  bool_decide (generate (name c) ∈ UUID <$> accessories p).

(** What the host stored of an accessory. *)
Definition stored (acc : PlatformAccessory) : string * string * Context :=
  (UUID acc, displayName acc, persisted acc).

(** The accessory [discoverDevices] makes for a lock that is not cached. *)
Definition new_accessory (generate : string -> string) (c : LockConfig)
  : PlatformAccessory :=
  {| UUID := generate (name c); displayName := name c;
     persisted := no_context;
     instance := Some (c, started c no_context) |}.

(** A cache that holds the accessory of the garage lock, last seen
    unlocked. *)
Definition garage_cache : Platform :=
  {| accessories :=
       [{| UUID := "uuid:Garage Lock"; displayName := "Garage Lock";
           persisted := persisted_as false false; instance := None |}];
     created := [] |}.

(** What the host was last told of the two characteristics. *)
Definition current_written (e : effect) : option Z :=
  match e with UpdateCharacteristic CurrentState v => Some v | _ => None end.

Definition target_written (e : effect) : option Z :=
  match e with UpdateCharacteristic TargetState v => Some v | _ => None end.

Definition host_view (e : list effect) : option Z * option Z :=
  (last (omap current_written e), last (omap target_written e)).

(** The messages sent to the bus, with their topic. *)
Definition published (e : effect) : option (string * string) :=
  match e with MqttPublish topic message => Some (topic, message) | _ => None end.

(** A step leaves the two fields alone, writes nothing to the host and
    publishes nothing; or it changes a field, sets both to one value,
    writes it and publishes what [publishState] says. *)
Definition told (config : LockConfig) (s s' : State) (e : list effect)
  : Prop :=
  (isLocked s' = isLocked s /\ targetState s' = targetState s
   /\ List.filter is_host_write e = [] /\ omap published e = [])
  \/ exists d, isLocked s' = d /\ targetState s' = d
               /\ (isLocked s <> d \/ targetState s <> d)
               /\ List.filter is_host_write e = host_writes d
               /\ omap published e = omap published (publishState config d s).

(** The two fields are as they were. *)
Definition unchanged (s s' : State) : bool :=
  Bool.eqb (isLocked s') (isLocked s)
  && Bool.eqb (targetState s') (targetState s).

(** The state is published: mqtt mode, a client, a publish topic. *)
Definition publishing (config : LockConfig) (s : State) : bool :=
  String.eqb (mode config) "mqtt"
  && bool_decide (is_Some (mqttClient s))
  && match mqttSettings config with
     | Some ms => truthy (mqttTopicPublish ms)
     | None => false
     end.

(** The topic and the message for state [d]. *)
Definition state_message (config : LockConfig) (d : bool) : string * string :=
  match mqttSettings config with
  | Some ms =>
      (mqttTopicPublish ms,
       if d then or_str (Some (mqttPublishCloseMessage ms)) "closed"
       else or_str (Some (mqttPublishOpenMessage ms)) "opened")
  | None => (EmptyString, EmptyString)
  end.

End TSProps.

(** ** For the JavaScript controller *)

Module LegacyProps.

Import Legacy.

(** The field that holds the handle of a timer, by its callback. *)
Definition handle_of (cb : Callback) (s : State) : option nat :=
  match cb with
  | LockDelayCb => lockDelayTimeout s
  | UnlockDelayCb => unlockDelayTimeout s
  | AutoLockCb => autoLockTimeout s
  | PollCb => pollIntervalObj s
  end.

Definition set_handle (cb : Callback) (o : option nat) (s : State) : State :=
  match cb with
  | LockDelayCb => set_lockDelayTimeout o s
  | UnlockDelayCb => set_unlockDelayTimeout o s
  | AutoLockCb => set_autoLockTimeout o s
  | PollCb => set_pollIntervalObj o s
  end.

(** Every armed timer is held by the field of its class. *)
Definition Owned (s : State) : Prop :=
  forall h t, timers (loop s) !! h = Some t ->
    handle_of (callback t) s = Some h.

(** No timer of class [cb] is armed. *)
Definition NoKind (cb : Callback) (s : State) : Prop :=
  forall h t, timers (loop s) !! h = Some t -> callback t <> cb.

(** [s'] has no timer that [s] has not. *)
Definition fewer (s' s : State) : Prop :=
  forall h t, timers (loop s') !! h = Some t -> timers (loop s) !! h = Some t.

#[export] Instance Callback_eq_dec : EqDecision Callback.
Proof. solve_decision. Defined.

(** The timer of class [cb] is cleared and its field set to [null]. *)
Definition release (cb : Callback) (s : State) : State :=
  match handle_of cb s with
  | Some h => set_handle cb None (clearTimeout h s)
  | None => s
  end.

(** The timer of class [cb] is cleared, its field keeps the handle. *)
Definition cancel (cb : Callback) (s : State) : State :=
  match handle_of cb s with
  | Some h => clearTimeout h s
  | None => s
  end.

(** [cleanup], by the four releases. *)
Definition released (s : State) : State :=
  release UnlockDelayCb
    (release LockDelayCb (release AutoLockCb (release PollCb s))).

(** Every armed timer is held by its field, and the two delay fields are
    never both set. *)
Definition Inv (s : State) : Prop :=
  Owned s /\ (lockDelayTimeout s = None \/ unlockDelayTimeout s = None).

(** The controller the constructor builds. *)
Definition started (config : Config.t) : State :=
  match (construct config).1 with
  | Returned s => s
  | Thrown _ => blank config
  end.

(** Events of the clock: time passes, the loop runs a timer. *)
Inductive tick : Type :=
| Passes (dt : Z)
| Runs (h : nat).

Definition clock (t : tick) : event :=
  match t with
  | Passes dt => Elapse dt
  | Runs h => Expire h
  end.

Definition shed : Config.t :=
  {| Config.lockName := Some "Shed"; Config.mode := Some "cmd";
     Config.autoLock := None; Config.autoLockDelay := None;
     Config.lockDelay := Some 5; Config.unlockDelay := None;
     Config.mqttBrokerUrl := None; Config.mqttUsername := None;
     Config.mqttPassword := None; Config.mqttTopic := None;
     Config.mqttMessageOpen := None; Config.mqttMessageClosed := None;
     Config.mqttMessageSendOpen := None;
     Config.mqttMessageSendClosed := None;
     Config.cmdPollInterval := Some 60;
     Config.cmdPollCommand := Some "shed status";
     Config.cmdLockCommand := Some "shed lock";
     Config.cmdUnlockCommand := Some "shed unlock" |}.


(** The delay and the timer class of a request for [value]. *)
Definition delay_of (value : Z) (c : Settings) : Z :=
  if value =? LockTargetState.SECURED then lockDelay c else unlockDelay c.

Definition delayCb (value : Z) : Callback :=
  if value =? LockTargetState.SECURED then LockDelayCb else UnlockDelayCb.

(** What [doLock] sends out, by the mode. *)
Definition lock_action (s : State) : list effect :=
  (if String.eqb (mode (settings s)) "mqtt"
      && bool_decide (is_Some (mqttClient s))
      && truthy (mqttMessageSendClosed (settings s))
   then [MqttPublish (mqttTopic (settings s))
           (mqttMessageSendClosed (settings s))]
   else [])
  ++ (if String.eqb (mode (settings s)) "cmd"
         && truthy (cmdLockCommand (settings s))
      then [Exec (cmdLockCommand (settings s))]
      else []).

Definition porch : Config.t :=
  {| Config.lockName := Some "Porch"; Config.mode := Some "cmd";
     Config.autoLock := Some true; Config.autoLockDelay := Some 20;
     Config.lockDelay := Some 5; Config.unlockDelay := None;
     Config.mqttBrokerUrl := None; Config.mqttUsername := None;
     Config.mqttPassword := None; Config.mqttTopic := None;
     Config.mqttMessageOpen := None; Config.mqttMessageClosed := None;
     Config.mqttMessageSendOpen := None;
     Config.mqttMessageSendClosed := None;
     Config.cmdPollInterval := Some 60;
     Config.cmdPollCommand := Some "porch status";
     Config.cmdLockCommand := Some "porch lock";
     Config.cmdUnlockCommand := Some "porch unlock" |}.

(** The current state is one of the two the lock can be in. *)
Definition Binary (s : State) : Prop :=
  currentState s = LockCurrentState.SECURED
  \/ currentState s = LockCurrentState.UNSECURED.

(** The credential [setupMqtt] passes to the client. *)
Definition credential (v : string) : option string :=
  if truthy v then Some v else None.

(** *** The platform *)

Definition named (c : Config.t) : bool := truthy_opt (Config.lockName c).

Definition uuid_of (generate : string -> string) (c : Config.t) : string :=
  generate (default EmptyString (Config.lockName c)).

(** [this.accessories] when the host has loaded its cache: accessories
    only, by UUID and display name. *)
Definition cache (l : list (string * string)) : list Entry :=
  (fun x => Cached x.1 x.2) <$> l.

Definition handler_UUID (a : Entry) : option string :=
  match a with
  | Handler uuid _ => Some uuid
  | Cached _ _ => None
  end.

(** The UUIDs that have a controller. *)
Definition handled (accs : list Entry) : list string :=
  omap handler_UUID accs.

(** A controller with no timer armed and no client. *)
Definition quiet (a : Entry) : Prop :=
  match a with
  | Handler _ st => timers (loop st) = ∅ /\ mqttClient st = None
  | Cached _ _ => True
  end.

Definition handler_ok (a : Entry) : Prop :=
  match a with
  | Handler _ st => Inv st
  | Cached _ _ => True
  end.

Definition cached_named (a : Entry) : Prop :=
  match a with
  | Handler _ _ => True
  | Cached _ displayName => truthy displayName = true
  end.

Definition street : list Config.t :=
  [shed; porch; shed].

(** Handles are fresh: the fields of two timer classes never hold the same
    handle, and every handle held was handed out by the loop. *)
Definition Fresh (s : State) : Prop :=
  (forall cb cb' h,
     handle_of cb s = Some h -> handle_of cb' s = Some h -> cb = cb')
  /\ (forall cb h, handle_of cb s = Some h -> (h < nextTimer (loop s))%nat).

End LegacyProps.

(** * Properties of the event loop *)

Module EventLoopFacts.

(** The loop runs a timer only if it is armed and due. *)
Lemma ready_armed_timer {Cb K : Type} h (l : EventLoop.Loop Cb K) t :
  ready h l = Some t -> timers l !! h = Some t /\ due t <= now l.
Proof.
  unfold ready. destruct (timers l !! h) as [t'|]; [| done].
  destruct (Z.leb_spec (due t') (now l)); [| done].
  by intros [= <-].
Qed.

End EventLoopFacts.

Import EventLoopFacts.

(** * Properties of the TypeScript controller *)

Module TSFacts.

Import TS TSProps.

(** ** [updateLockState] *)

Lemma updateLockState_noop config d t s :
  isLocked s = d -> targetState s = d ->
  updateLockState config d t s = (s, []).
Proof.
  intros H1 H2. unfold updateLockState. rewrite H1, H2.
  by destruct d.
Qed.

Lemma updateLockState_settles config d t s :
  isLocked (updateLockState config d t s).1 = d
  /\ targetState (updateLockState config d t s).1 = d.
Proof.
  unfold updateLockState, armAutoLock, TS.setTimeout, TS.clearTimeout.
  destruct (isLocked s) eqn:E1, (targetState s) eqn:E2, d; cbn;
    try (split; assumption);
    destruct (t && or_false (autoLock config) && _); cbn;
    try destruct (autoLockTimeout _); cbn; auto.
Qed.

(** Without [triggerAutoLock] only the two state fields and the
    persisted context change. *)
Lemma updateLockState_observed config d s :
  let s' := (updateLockState config d false s).1 in
  loop s' = loop s /\ autoLockTimeout s' = autoLockTimeout s
  /\ lockDelayTimeout s' = lockDelayTimeout s
  /\ unlockDelayTimeout s' = unlockDelayTimeout s
  /\ monitorIntervalHandle s' = monitorIntervalHandle s
  /\ mqttClient s' = mqttClient s.
Proof.
  unfold updateLockState.
  destruct (Bool.eqb d (isLocked s) && Bool.eqb (targetState s) d);
    cbn; auto 10.
Qed.


Lemma logError_quiet config message :
  List.filter is_host_write (logError config message) = []
  /\ List.filter is_side_effect (logError config message) = [].
Proof. unfold logError. by destruct (includes _ _). Qed.

(** ** Construction *)

Lemma setupMode_state config s :
  let s' := (setupMode config s).1 in
  isLocked s' = isLocked s /\ targetState s' = targetState s
  /\ context s' = context s
  /\ List.filter is_host_write (setupMode config s).2 = [].
Proof.
  unfold setupMode, setupMQTT, setupCommandLine, TS.setInterval.
  destruct (String.eqb (mode config) "mqtt").
  - destruct (mqttSettings config); cbn; repeat split;
      apply logError_quiet.
  - destruct (String.eqb (mode config) "command"); [| by cbn].
    destruct (commandSettings config) as [cs|]; cbn;
      [| repeat split; apply logError_quiet].
    destruct (_ || _); cbn; repeat split; apply logError_quiet.
Qed.

Lemma construct_state config ctx l :
  let '(s, e) := construct config ctx l in
  isLocked s = default true (ctx_isLocked ctx)
  /\ targetState s = default true (ctx_targetState ctx)
  /\ context s = ctx
  /\ List.filter is_host_write e
     = [UpdateCharacteristic CurrentState
          (secured CurrentState (default true (ctx_isLocked ctx)));
        UpdateCharacteristic TargetState
          (secured TargetState (default true (ctx_targetState ctx)))].
Proof.
  unfold construct.
  match goal with |- context [setupMode config ?s0] =>
    pose proof (setupMode_state config s0) as H;
    destruct (setupMode config s0) as [s1 e] end.
  cbn in H. destruct H as (H1 & H2 & H3 & H4).
  repeat split; try assumption. cbn. by rewrite H4.
Qed.

(** C8: a controller built on an accessory whose persisted state is
    unlocked/unlocked holds that state and writes exactly it to the
    host's two characteristics; without persisted state both fields are
    locked. *)
Theorem construct_reports_persisted_state config l :
  (let '(s, e) := construct config (persisted_as false false) l in
   isLocked s = false /\ targetState s = false
   /\ context s = persisted_as false false
   /\ List.filter is_host_write e
      = [UpdateCharacteristic CurrentState LockCurrentState.UNSECURED;
         UpdateCharacteristic TargetState LockTargetState.UNSECURED])
  /\ (let '(s, e) := construct config no_context l in
      isLocked s = true /\ targetState s = true
      /\ List.filter is_host_write e
         = [UpdateCharacteristic CurrentState LockCurrentState.SECURED;
            UpdateCharacteristic TargetState LockTargetState.SECURED]).
Proof.
  split.
  - pose proof (construct_state config (persisted_as false false) l) as H.
    by destruct (construct config _ l).
  - pose proof (construct_state config no_context l) as H.
    destruct (construct config _ l). by destruct H as (? & ? & ? & ?).
Qed.

(** ** Requests for the state the lock is in *)

Lemma command_mode_request_runs_command : ~ request_is_noop garage.
Proof.
  intros H.
  specialize (H (started garage no_context) true eq_refl eq_refl).
  apply (f_equal snd) in H. vm_compute in H. discriminate H.
Qed.

Lemma value_of_desired x : (value_of x =? LockTargetState.SECURED) = x.
Proof. by destruct x. Qed.

(** C1, amended: a request for the state the lock is in never changes
    the state and never writes to the host or publishes; outside command
    mode it does nothing at all; in command mode the command of the
    direction is run again, or its delay timer armed. *)
Theorem request_in_desired_state config s x :
  isLocked s = x -> targetState s = x ->
  let s' := (setTargetState config (value_of x) s).1 in
  let e := (setTargetState config (value_of x) s).2 in
  isLocked s' = x /\ targetState s' = x /\ context s' = context s
  /\ List.filter is_host_write e = []
  /\ (mode config <> "command" -> s' = s /\ e = [])
  /\ (forall cs,
        mode config = "command" -> commandSettings config = Some cs ->
        truthy (commandFor x cs) = true ->
        if is_positive (delayFor x config)
        then e = []
             /\ timers (loop s') !! nextTimer (loop s)
                = Some {| due := now (loop s)
                                 + default 0 (delayFor x config) * 1000;
                          callback := delayCb x cs; period := None |}
        else e = [Exec (commandFor x cs)]
             /\ running (loop s') !! nextPid (loop s)
                = Some (AfterCommand (commandNameFor x) x)).
Proof.
  intros H1 H2. cbv zeta. unfold setTargetState.
  rewrite value_of_desired.
  destruct (String.eqb_spec (mode config) "command") as [Hm|Hm].
  - destruct (commandSettings config) as [cs|] eqn:Hcs.
    + assert (Hgo : forall cs', Some cs = Some cs' -> cs' = cs)
        by (by intros ? [= <-]).
      destruct x; cbn [delayFor commandFor delayCb commandNameFor];
        (destruct (is_positive _) eqn:Hd;
         [ cbn; do 4 (split; [done|]); split; [by intros []|];
           intros cs' _ Hcs' _; rewrite (Hgo _ Hcs');
           split; [done | by rewrite lookup_insert_eq]
         | unfold executeCommand;
           match goal with |- context [truthy ?c] =>
             destruct (truthy c) eqn:Ht end;
           [ cbn; do 4 (split; [done|]); split; [by intros []|];
             intros cs' _ Hcs' _; rewrite (Hgo _ Hcs');
             split; [done | by rewrite lookup_insert_eq]
           | rewrite (updateLockState_noop _ _ _ _ H1 H2), app_nil_r;
             do 3 (split; [done|]);
             split; [apply logError_quiet|];
             split; [by intros []|];
             intros cs' _ Hcs' Ht'; rewrite (Hgo _ Hcs') in Ht';
             congruence ] ]).
    + do 3 (split; [done|]). split; [apply logError_quiet|].
      split; [by intros []|]. intros cs _ [=].
  - rewrite (updateLockState_noop _ _ _ _ H1 H2).
    do 5 (split; [done|]). intros cs Hm'. contradiction.
Qed.

Lemma request_in_desired_state_witness :
  isLocked (setTargetState garage (value_of true)
              (started garage no_context)).1 = true
  /\ List.filter is_host_write
       (setTargetState garage (value_of true)
          (started garage no_context)).2 = [].
Proof.
  pose proof (request_in_desired_state garage (started garage no_context)
                true eq_refl eq_refl) as H.
  exact (conj (proj1 H) (proj1 (proj2 (proj2 (proj2 H))))).
Defined.

(** ** Observations from the bus and from the monitor command *)

Lemma onMessage_observes config ms topic message s :
  onMessage config ms topic message s = (s, [])
  \/ exists b, onMessage config ms topic message s
               = updateLockState config b false s.
Proof.
  unfold onMessage.
  destruct (String.eqb topic _); [| by left].
  destruct (String.eqb message (mqttOpenMessage ms)); [right; by exists false |].
  destruct (String.eqb message (mqttCloseMessage ms)); [right; by exists true |].
  by left.
Qed.

Lemma monitor_observes config r s :
  (executeMonitorCommand_settle config r s = Returned (s, [])
   \/ exists message,
        executeMonitorCommand_settle config r s
        = Returned (s, logError config message))
  \/ exists b e,
       executeMonitorCommand_settle config r s
       = Returned ((updateLockState config b false s).1,
                   e ++ (updateLockState config b false s).2).
Proof.
  unfold executeMonitorCommand_settle.
  destruct r as [stdout stderr | message]; cbn.
  - destruct (monitorState stdout) as [b|].
    + destruct (negb (Bool.eqb b (isLocked s))).
      * right. exists b. eexists.
        by destruct (updateLockState config b false s).
      * left. destruct (truthy stderr); eauto.
    + left. destruct (truthy stderr); eauto.
  - left. eauto.
Qed.

(** C5: a bus message and a result of the monitor command reach
    [updateLockState] with [triggerAutoLock = false] only, and handling
    them leaves every timer and the auto-lock handle as they were, for
    every configuration, state, message and command output. *)
Theorem observation_never_arms_auto_lock config s :
  (forall ms topic message,
     onMessage config ms topic message s = (s, [])
     \/ exists b, onMessage config ms topic message s
                  = updateLockState config b false s)
  /\ (forall topic message,
        loop (busMessage config topic message s).1 = loop s
        /\ autoLockTimeout (busMessage config topic message s).1
           = autoLockTimeout s)
  /\ (forall r,
        loop (resume config AfterMonitor r s).1 = loop s
        /\ autoLockTimeout (resume config AfterMonitor r s).1
           = autoLockTimeout s).
Proof.
  split; [intros; apply onMessage_observes |].
  split.
  - intros topic message. unfold busMessage.
    destruct (mqttSettings config) as [ms|]; [| done].
    destruct (mqttClient s) as [c|]; [| done].
    destruct (ended c); [done |].
    destruct (onMessage_observes config ms topic message s) as [-> | [b ->]];
      [done |].
    pose proof (updateLockState_observed config b s) as H.
    exact (conj (proj1 H) (proj1 (proj2 H))).
  - intros r. unfold resume.
    destruct (monitor_observes config r s)
      as [[-> | [m ->]] | (b & e & ->)]; try done.
    pose proof (updateLockState_observed config b s) as H.
    exact (conj (proj1 H) (proj1 (proj2 H))).
Qed.

(** ** Current and target state move together *)

Lemma updateLockState_Inv config d t s :
  consistent (context s) -> Inv (updateLockState config d t s).1.
Proof.
  intros Hc. split.
  - unfold settled. by destruct (updateLockState_settles config d t s) as [-> ->].
  - unfold updateLockState.
    destruct (Bool.eqb d (isLocked s) && Bool.eqb (targetState s) d);
      [done |].
    unfold armAutoLock, TS.setTimeout, TS.clearTimeout. cbn.
    destruct (t && or_false (autoLock config) && negb d); cbn;
      [destruct (autoLockTimeout s) |]; done.
Qed.

Lemma executeCommand_Inv config command commandName d s :
  Inv s -> Inv (executeCommand config command commandName d s).1.
Proof.
  intros [H1 H2]. unfold executeCommand.
  destruct (truthy command); [done |].
  pose proof (updateLockState_Inv config d (or_false (autoLock config)) s H2).
  by destruct (updateLockState config d _ s).
Qed.

Lemma setTargetState_Inv config value s :
  Inv s -> Inv (setTargetState config value s).1.
Proof.
  intros H. unfold setTargetState.
  destruct (String.eqb (mode config) "command");
    [| apply updateLockState_Inv, H].
  destruct (commandSettings config) as [cs|]; [| done].
  destruct (value =? LockTargetState.SECURED).
  - destruct (is_positive (lockDelay config));
      [done | by apply executeCommand_Inv].
  - destruct (is_positive (unlockDelay config));
      [done | by apply executeCommand_Inv].
Qed.

Lemma executeCommand_settle_returns config commandName r :
  exists e, executeCommand_settle config commandName r = Returned e.
Proof. destruct r; cbn; eauto. Qed.

Lemma resume_Inv config k r s : Inv s -> Inv (resume config k r s).1.
Proof.
  intros H. destruct k as [commandName d|]; cbn [resume].
  - destruct (executeCommand_settle_returns config commandName r) as [e ->].
    pose proof (updateLockState_Inv config d (or_false (autoLock config)) s
                  (proj2 H)).
    by destruct (updateLockState config d _ s).
  - destruct (monitor_observes config r s)
      as [[-> | [m ->]] | (b & e & ->)]; try done.
    apply updateLockState_Inv, H.
Qed.

Lemma expire_Inv config h s : Inv s -> Inv (expire config h s).1.
Proof.
  intros H. unfold expire.
  destruct (ready h (loop s)) as [t|]; [| done].
  assert (H' : Inv (set_loop (expired h t (loop s)) s)) by done.
  destruct (callback t) as [cs | cs | |]; cbn [runCallback].
  - by apply executeCommand_Inv.
  - by apply executeCommand_Inv.
  - apply updateLockState_Inv, H'.
  - unfold executeMonitorCommand.
    destruct (commandSettings config) as [cs|]; [| done].
    by destruct (truthy (monitorCommand cs)).
Qed.

Lemma clear_Inv h s : Inv s -> Inv (clear h s).
Proof. by destruct h. Qed.

Lemma shutdown_Inv endThrows s s' :
  (shutdown endThrows s).1 = Returned s' -> Inv s -> Inv s'.
Proof.
  unfold shutdown.
  destruct (mqttClient s); [destruct endThrows |]; cbn;
    try discriminate; intros [= <-] H; by repeat apply clear_Inv.
Qed.

Lemma step_Inv config s ev : Inv s -> Inv (step config s ev).1.
Proof.
  intros H. destruct ev as [value | topic message | dt | h | pid r | endThrows];
    cbn [step].
  - by apply setTargetState_Inv.
  - unfold busMessage.
    destruct (mqttSettings config) as [ms|]; [| done].
    destruct (mqttClient s) as [c|]; [| done].
    destruct (ended c); [done |].
    destruct (onMessage_observes config ms topic message s) as [-> | [b ->]];
      [done |]. apply updateLockState_Inv, H.
  - by destruct (0 <=? dt).
  - by apply expire_Inv.
  - unfold exit. destruct (running (loop s) !! pid) as [k|]; [| done].
    by apply resume_Inv.
  - pose proof (shutdown_Inv endThrows s) as Hs.
    destruct (shutdown endThrows s) as [[s'|m] e]; [| done].
    by apply Hs.
Qed.

Lemma run_Inv config evs : forall s, Inv s -> Inv (run config s evs).1.
Proof.
  induction evs as [| ev evs IH]; intros s H; [done |].
  cbn [run]. pose proof (step_Inv config s ev H) as H1.
  destruct (step config s ev) as [s1 e1].
  specialize (IH s1 H1). by destruct (run config s1 evs).
Qed.

Lemma constructed_run_Inv config ctx l evs :
  consistent ctx -> Inv (run config (construct config ctx l).1 evs).1.
Proof.
  intros Hc. apply run_Inv.
  pose proof (construct_state config ctx l) as H.
  destruct (construct config ctx l) as [s e].
  destruct H as (H1 & H2 & H3 & _). split.
  - unfold settled. cbn. by rewrite H1, H2.
  - cbn. by rewrite H3.
Qed.

(** C10: in the TypeScript controller the two fields are written by
    [updateLockState] only, both to the same value.  Started on persisted
    fields that agree (both absent, or as the controller persisted them),
    [isLocked = targetState] holds after every event of every run, also
    while a delay timer is pending, and the persisted fields agree again. *)
Theorem current_and_target_always_agree config ctx l evs :
  consistent ctx ->
  isLocked (run config (construct config ctx l).1 evs).1
  = targetState (run config (construct config ctx l).1 evs).1
  /\ consistent (context (run config (construct config ctx l).1 evs).1).
Proof. intros Hc. by apply constructed_run_Inv. Qed.

Lemma current_and_target_always_agree_witness :
  isLocked (run slow_garage (construct slow_garage no_context idle).1
              [HostSet LockTargetState.UNSECURED; Elapse 1000]).1
  = targetState (run slow_garage (construct slow_garage no_context idle).1
                   [HostSet LockTargetState.UNSECURED; Elapse 1000]).1.
Proof.
  exact (proj1 (current_and_target_always_agree slow_garage no_context idle
                  [HostSet LockTargetState.UNSECURED; Elapse 1000] eq_refl)).
Defined.

(** ** Requests in command mode *)

Lemma setTargetState_command config cs s d :
  mode config = "command" -> commandSettings config = Some cs ->
  setTargetState config (value_of d) s
  = if is_positive (delayFor d config)
    then (set_delayTimeout d (Some (nextTimer (loop s)))
            (set_loop (EventLoop.setTimeout (delayCb d cs)
                         (default 0 (delayFor d config) * 1000) (loop s)).2 s),
          [])
    else executeCommand config (commandFor d cs) (commandNameFor d) d s.
Proof.
  intros Hm Hcs. unfold setTargetState.
  rewrite value_of_desired, Hm, Hcs. cbn.
  destruct d; cbn; by destruct (is_positive _).
Qed.

Lemma publishState_command config d s :
  mode config = "command" -> publishState config d s = [].
Proof.
  intros Hm. unfold publishState. rewrite Hm.
  by destruct (mqttSettings config).
Qed.

(** What the update of a finished command does, in command mode. *)
Lemma updateLockState_command config d t s :
  mode config = "command" ->
  (updateLockState config d t s).2
  = if Bool.eqb d (isLocked s) && Bool.eqb (targetState s) d
    then [] else host_writes d.
Proof.
  intros Hm. unfold updateLockState.
  destruct (Bool.eqb d (isLocked s) && Bool.eqb (targetState s) d); [done |].
  cbn. rewrite publishState_command by done. by destruct d.
Qed.


Lemma resume_command config commandName d r s :
  resume config (AfterCommand commandName d) r s
  = ((updateLockState config d (or_false (autoLock config)) s).1,
     match r with
     | Resolved _ stderr =>
         if truthy stderr
         then logError config (tag config +:+ commandName
                               +:+ " error output: " +:+ trim stderr)
         else []
     | Rejected message =>
         logError config (tag config +:+ commandName +:+ " failed: "
                          +:+ message)
     end ++ (updateLockState config d (or_false (autoLock config)) s).2).
Proof.
  unfold resume, executeCommand_settle.
  destruct r; cbn; by destruct (updateLockState config d _ s).
Qed.

Lemma resume_rejected config commandName d message s :
  mode config = "command" ->
  let late := resume config (AfterCommand commandName d)
                (Rejected message) s in
  isLocked late.1 = d /\ targetState late.1 = d
  /\ List.filter is_host_write late.2
     = if Bool.eqb d (isLocked s) && Bool.eqb (targetState s) d
       then [] else host_writes d.
Proof.
  intros Hm. cbv zeta. rewrite resume_command.
  destruct (updateLockState_settles config d (or_false (autoLock config)) s)
    as [H1 H2].
  do 2 (split; [done |]). cbn [snd].
  rewrite List.filter_app, (proj1 (logError_quiet _ _)).
  rewrite (updateLockState_command _ _ _ _ Hm).
  destruct (_ && _); by destruct d.
Qed.

(** C6: in command mode a command that fails, by its exit status or
    because it could not be run, still ends in the requested state: the
    two fields are set, the host is written when the state changed, the
    failure is a line of the error log and nothing is thrown.  The state is
    the one a successful command leaves. *)
Theorem failed_command_still_transitions config cs s d message :
  mode config = "command" -> commandSettings config = Some cs ->
  is_positive (delayFor d config) = false ->
  truthy (commandFor d cs) = true ->
  let failed := run config s [HostSet (value_of d);
                              Exit (nextPid (loop s)) (Rejected message)] in
  let succeeded := run config s [HostSet (value_of d);
                                 Exit (nextPid (loop s))
                                   (Resolved EmptyString EmptyString)] in
  isLocked failed.1 = d /\ targetState failed.1 = d
  /\ failed.1 = succeeded.1
  /\ failed.2
     = [Exec (commandFor d cs)]
       ++ logError config (tag config +:+ commandNameFor d +:+ " failed: "
                           +:+ message)
       ++ (if Bool.eqb d (isLocked s) && Bool.eqb (targetState s) d
           then [] else host_writes d)
  /\ (forall s' commandName,
        let late := resume config (AfterCommand commandName d)
                      (Rejected message) s' in
        isLocked late.1 = d /\ targetState late.1 = d
        /\ List.filter is_host_write late.2
           = if Bool.eqb d (isLocked s') && Bool.eqb (targetState s') d
             then [] else host_writes d).
Proof.
  intros Hm Hcs Hd Ht. cbv zeta.
  assert (Hlate := fun s' commandName =>
            resume_rejected config commandName d message s' Hm).
  cbn [run step].
  rewrite (setTargetState_command _ _ _ _ Hm Hcs), Hd.
  unfold executeCommand. rewrite Ht. unfold exit. cbn [fst snd].
  change (running (loop (TS.spawn ?k s)) !! nextPid (loop s))
    with (<[nextPid (loop s) := k]> (running (loop s)) !! nextPid (loop s)).
  rewrite lookup_insert_eq, !resume_command.
  set (s1 := set_loop _ _).
  destruct (updateLockState_settles config d (or_false (autoLock config)) s1)
    as [H1 H2].
  pose proof (updateLockState_command config d (or_false (autoLock config)) s1
                Hm) as He.
  destruct (updateLockState config d _ s1) as [s2 e2]. cbn in H1, H2, He |- *.
  rewrite !app_nil_r. subst e2.
  do 3 (split; [done |]). split; [done |]. exact Hlate.
Qed.

Lemma failed_command_still_transitions_witness :
  isLocked (run garage (started garage no_context)
              [HostSet (value_of false);
               Exit 0%nat (Rejected "Command failed: exit 1")]).1 = false
  /\ (run garage (started garage no_context)
        [HostSet (value_of false);
         Exit 0%nat (Rejected "Command failed: exit 1")]).2
     = [Exec "echo 'unlocking garage'";
        LogError "[Garage Lock] openCommand failed: Command failed: exit 1";
        UpdateCharacteristic TargetState 0;
        UpdateCharacteristic CurrentState 0].
Proof.
  pose proof (failed_command_still_transitions garage garage_cs
                (started garage no_context) false "Command failed: exit 1"
                eq_refl eq_refl eq_refl eq_refl) as H.
  exact (conj (proj1 H) (proj1 (proj2 (proj2 (proj2 H))))).
Defined.

(** ** Delayed requests *)















(** ** The two delay timers *)

(** C3, at the failing input: command mode, both delays 5 s, the lock is
    unlocked; a lock request is followed after 1 s by an unlock request.
    The lock timer is not cancelled: both delay timers are armed together,
    and both commands are run, the lock command at 5 s and the unlock
    command at 6 s. *)
Theorem opposite_delay_timer_not_cancelled :
  let s := started slow_garage (persisted_as false false) in
  let requests := [HostSet LockTargetState.SECURED; Elapse 1000;
                   HostSet LockTargetState.UNSECURED] in
  let expiries := [Elapse 4000; Expire 1%nat;
                   Exit 0%nat (Resolved EmptyString EmptyString);
                   Elapse 1000; Expire 2%nat;
                   Exit 1%nat (Resolved EmptyString EmptyString)] in
  callback <$> timers (loop (run slow_garage s requests).1) !! 1%nat
  = Some (LockDelayCb garage_cs)
  /\ callback <$> timers (loop (run slow_garage s requests).1) !! 2%nat
     = Some (UnlockDelayCb garage_cs)
  /\ List.filter is_side_effect (run slow_garage s (requests ++ expiries)).2
     = [Exec "echo 'locking garage'"; Exec "echo 'unlocking garage'"]
  /\ List.filter is_host_write (run slow_garage s (requests ++ expiries)).2
     = host_writes true ++ host_writes false.
Proof. vm_compute. repeat split. Qed.

(** ** The auto-lock timer *)


Lemma armAutoLock_timers config s :
  autoLockTimeout (armAutoLock config s) = Some (nextTimer (loop s))
  /\ timers (loop (armAutoLock config s))
     = <[nextTimer (loop s) :=
          {| due := now (loop s) + or_num (autoLockDelay config) 30 * 1000;
             callback := AutoLockCb; period := None |}]>
         (match autoLockTimeout s with
          | Some old => delete old (timers (loop s))
          | None => timers (loop s)
          end).
Proof. unfold armAutoLock. by destruct (autoLockTimeout s). Qed.





















(** ** Discovery *)

Lemma logError_announces_nothing config message :
  omap announced (logError config message) = [].
Proof. unfold logError. by destruct (includes _ _). Qed.

Lemma construct_announces_nothing config ctx l :
  omap announced (construct config ctx l).2 = [].
Proof.
  unfold construct, setupMode, setupMQTT, setupCommandLine, TS.setInterval.
  destruct (String.eqb (mode config) "mqtt").
  - destruct (mqttSettings config); cbn; [done |].
    apply logError_announces_nothing.
  - destruct (String.eqb (mode config) "command"); [| done].
    destruct (commandSettings config) as [cs|]; cbn;
      [| apply logError_announces_nothing].
    destruct (_ || _); cbn; [| done]. apply logError_announces_nothing.
Qed.

Section DiscoveryFacts.

Variable generate : string -> string.






End DiscoveryFacts.


(** ** Restarts and shutdown *)

(** Whatever the sessions before did, a controller restarted on the context
    they left finds persisted fields that agree. *)
Lemma restarts_keep_context_consistent (history : list (LockConfig * list event)) :
  consistent (foldl session no_context history).
Proof.
  assert (H : forall ctx, consistent ctx ->
                consistent (foldl session ctx history)).
  { induction history as [| [config evs] history IH]; intros ctx Hc; [done |].
    cbn [foldl]. apply IH. unfold session, started. cbn [fst snd].
    apply (constructed_run_Inv config ctx idle evs Hc). }
  by apply H.
Qed.

(** ** Scenarios *)

(** Mqtt mode, open message [open]: the message on the subscribed topic
    unlocks the lock, the state is published, no timer is armed. *)
Example bus_open_message :
  let r := run front_door (started front_door no_context)
             [BusMessage "home/lock/command" "open"] in
  isLocked r.1 = false /\ targetState r.1 = false
  /\ timers (loop r.1) = ∅
  /\ r.2 = host_writes false ++ [MqttPublish "home/lock/state" "opened"].
Proof. by vm_compute. Qed.

(** In mqtt mode the topic and the message are compared verbatim. *)
Example bus_message_verbatim :
  (run front_door (started front_door no_context)
     [BusMessage "home/lock/command" "Open";
      BusMessage "home/lock/other" "open"]).2 = [].
Proof. by vm_compute. Qed.

(** Command mode, the monitor command prints [secured]: an unlocked lock
    is locked when the first poll has finished. *)
Example monitor_reports_secured :
  let r := run garage (started garage (persisted_as false false))
             [Elapse 60000; Expire 0%nat;
              Exit 0%nat (Resolved "secured
" EmptyString)] in
  isLocked r.1 = true
  /\ r.2 = [Exec "echo 'closed'"] ++ host_writes true.
Proof. by vm_compute. Qed.

(** In mqtt mode the delays are not consulted: with [lockDelay = 5] a
    lock request is applied at once. *)
Example mqtt_request_not_delayed :
  let r := run front_door (started front_door (persisted_as false false))
             [HostSet LockTargetState.SECURED] in
  isLocked r.1 = true /\ timers (loop r.1) = ∅.
Proof. by vm_compute. Qed.

(** [shutdown] clears the timers whose handles the fields hold.  A delay
    timer whose handle a later request has overwritten stays armed: after
    two lock requests and a shutdown the first timer still runs the lock
    command. *)
Lemma shutdown_keeps_overwritten_timer :
  let r := run slow_garage (started slow_garage (persisted_as false false))
             [HostSet LockTargetState.SECURED; Elapse 1000;
              HostSet LockTargetState.SECURED; HostShutdown None;
              Elapse 4000; Expire 1%nat] in
  r.2 = [Exec "echo 'locking garage'"].
Proof. by vm_compute. Qed.

(** ** The persisted context *)

Lemma kept s : kept_or_written s s.
Proof. by left. Qed.

Lemma updateLockState_writes config d t s :
  kept_or_written s (updateLockState config d t s).1.
Proof.
  unfold updateLockState.
  destruct (Bool.eqb d (isLocked s) && Bool.eqb (targetState s) d);
    [apply kept |].
  right. exists d. unfold armAutoLock, TS.setTimeout, TS.clearTimeout. cbn.
  destruct (t && or_false (autoLock config) && negb d); cbn;
    [destruct (autoLockTimeout s) |]; done.
Qed.

Lemma executeCommand_writes config command commandName d s :
  kept_or_written s (executeCommand config command commandName d s).1.
Proof.
  unfold executeCommand. destruct (truthy command); [by left |].
  pose proof (updateLockState_writes config d (or_false (autoLock config)) s).
  by destruct (updateLockState config d _ s).
Qed.

Lemma setTargetState_writes config value s :
  kept_or_written s (setTargetState config value s).1.
Proof.
  unfold setTargetState.
  destruct (String.eqb (mode config) "command");
    [| apply updateLockState_writes].
  destruct (commandSettings config) as [cs|]; [| by left].
  destruct (value =? LockTargetState.SECURED).
  - destruct (is_positive (lockDelay config));
      [by left | apply executeCommand_writes].
  - destruct (is_positive (unlockDelay config));
      [by left | apply executeCommand_writes].
Qed.

Lemma kept_or_written_loop l s s' :
  kept_or_written (set_loop l s) s' -> kept_or_written s s'.
Proof. done. Qed.

Lemma expire_writes config h s : kept_or_written s (expire config h s).1.
Proof.
  unfold expire. destruct (ready h (loop s)) as [t|]; [| by left].
  apply (kept_or_written_loop (expired h t (loop s))).
  destruct (callback t) as [cs | cs | |]; cbn [runCallback].
  - apply executeCommand_writes.
  - apply executeCommand_writes.
  - apply updateLockState_writes.
  - unfold executeMonitorCommand.
    destruct (commandSettings config) as [cs|]; [| by left].
    destruct (truthy (monitorCommand cs)); by left.
Qed.

Lemma resume_writes config k r s : kept_or_written s (resume config k r s).1.
Proof.
  destruct k as [commandName d|].
  - rewrite resume_command. apply updateLockState_writes.
  - cbn [resume].
    destruct (monitor_observes config r s)
      as [[-> | [m ->]] | (b & e & ->)]; try by left.
    apply updateLockState_writes.
Qed.

Lemma clear_kept o s :
  isLocked (clear o s) = isLocked s /\ targetState (clear o s) = targetState s
  /\ context (clear o s) = context s.
Proof. by destruct o. Qed.

Lemma shutdown_writes endThrows s s' :
  (shutdown endThrows s).1 = Returned s' -> kept_or_written s s'.
Proof.
  unfold shutdown.
  destruct (mqttClient s); [destruct endThrows |]; cbn;
    try discriminate; intros [= <-]; left;
    (split; [| split]);
    [ rewrite !(proj1 (clear_kept _ _))
    | rewrite !(proj1 (proj2 (clear_kept _ _)))
    | rewrite !(proj2 (proj2 (clear_kept _ _)))
    | rewrite !(proj1 (clear_kept _ _))
    | rewrite !(proj1 (proj2 (clear_kept _ _)))
    | rewrite !(proj2 (proj2 (clear_kept _ _))) ]; done.
Qed.

Lemma step_writes config s ev : kept_or_written s (step config s ev).1.
Proof.
  destruct ev as [value | topic message | dt | h | pid r | endThrows];
    cbn [step].
  - apply setTargetState_writes.
  - unfold busMessage.
    destruct (mqttSettings config) as [ms|]; [| by left].
    destruct (mqttClient s) as [c|]; [| by left].
    destruct (ended c); [by left |].
    destruct (onMessage_observes config ms topic message s) as [-> | [b ->]];
      [by left | apply updateLockState_writes].
  - destruct (0 <=? dt); by left.
  - apply expire_writes.
  - unfold exit. destruct (running (loop s) !! pid) as [k|]; [| by left].
    apply (kept_or_written_loop (exited pid (loop s))), resume_writes.
  - pose proof (shutdown_writes endThrows s) as Hs.
    destruct (shutdown endThrows s) as [[s'|m] e]; [by apply Hs | by left].
Qed.

Lemma step_Mirrored config s ev : Mirrored s -> Mirrored (step config s ev).1.
Proof.
  intros [H1 H2].
  destruct (step_writes config s ev) as [(E1 & E2 & E3) | (d & E1 & E2 & E3)];
    unfold Mirrored; rewrite E1, E2, E3; done.
Qed.

Lemma run_Mirrored config evs :
  forall s, Mirrored s -> Mirrored (run config s evs).1.
Proof.
  induction evs as [| ev evs IH]; intros s H; [done |].
  cbn [run]. pose proof (step_Mirrored config s ev H) as H1.
  destruct (step config s ev) as [s1 e1].
  specialize (IH s1 H1). by destruct (run config s1 evs).
Qed.

Lemma construct_Mirrored config ctx l : Mirrored (construct config ctx l).1.
Proof.
  pose proof (construct_state config ctx l) as H.
  destruct (construct config ctx l) as [s e].
  destruct H as (H1 & H2 & H3 & _). unfold Mirrored. cbn. by rewrite H3.
Qed.

(** X1: whatever a controller went through, a controller built afterwards
    on the context it left, under any configuration, starts in the lock
    state the first one ended in, and writes that state to the host. *)
Theorem restart_restores_lock_state config config' ctx l l' evs :
  let s := (run config (construct config ctx l).1 evs).1 in
  let restarted := construct config' (context s) l' in
  isLocked restarted.1 = isLocked s
  /\ targetState restarted.1 = targetState s
  /\ List.filter is_host_write restarted.2
     = [UpdateCharacteristic CurrentState (secured CurrentState (isLocked s));
        UpdateCharacteristic TargetState (secured TargetState (targetState s))].
Proof.
  intros s restarted.
  assert (H : Mirrored s) by apply run_Mirrored, construct_Mirrored.
  destruct H as [H1 H2].
  pose proof (construct_state config' (context s) l') as Hc.
  subst restarted. destruct (construct config' (context s) l') as [s' e'].
  destruct Hc as (C1 & C2 & _ & C4). cbn [fst snd].
  by rewrite C1, C2, C4, <- H1, <- H2.
Qed.

(** ** Validation *)

Lemma throw_if_returns failed message :
  throw_if failed message = Returned tt <-> failed = false.
Proof. unfold throw_if. destruct failed; split; congruence. Qed.

Lemma bind_returns (o : outcome unit) (k : unit -> outcome unit) :
  JS.bind o k = Returned tt <-> o = Returned tt /\ k tt = Returned tt.
Proof.
  destruct o as [[]|m]; cbn; [tauto |]. split; [discriminate | by intros []].
Qed.

Lemma includes_levels l :
  includes ["debug"; "normal"; "minimal"] l = true
  <-> l = "debug" \/ l = "normal" \/ l = "minimal".
Proof.
  unfold includes. cbn.
  destruct (String.eqb_spec l "debug"), (String.eqb_spec l "normal"),
    (String.eqb_spec l "minimal"); cbn; intuition congruence.
Qed.

Lemma validateMode_returns c :
  validateMode c = Returned tt
  <-> ((mode c = "mqtt"
        /\ exists m, mqttSettings c = Some m
             /\ truthy (mqttBroker m) = true
             /\ truthy (mqttTopicSubscribe m) = true
             /\ truthy (mqttTopicPublish m) = true
             /\ truthy_opt (mqttUsername m) = truthy_opt (mqttPassword m))
       \/ (mode c = "command"
           /\ exists cs, commandSettings c = Some cs
                /\ truthy (openCommand cs) = true
                /\ truthy (closeCommand cs) = true
                /\ truthy (monitorCommand cs) = true
                /\ 0 < monitorInterval cs)
       \/ mode c = "dummy").
Proof.
  unfold validateMode.
  destruct (String.eqb_spec (mode c) "mqtt") as [Hm | Hm].
  - rewrite Hm. destruct (mqttSettings c) as [m|].
    + rewrite !bind_returns, !throw_if_returns. split.
      * intros (H1 & H2 & H3 & H4). left. split; [done |]. exists m.
        destruct (truthy (mqttBroker m)), (truthy (mqttTopicSubscribe m)),
          (truthy (mqttTopicPublish m)), (truthy_opt (mqttUsername m)),
          (truthy_opt (mqttPassword m)); by try discriminate.
      * intros [(_ & m' & [= <-] & H1 & H2 & H3 & H4)
               | [(Hc & _) | Hd]]; [| discriminate | discriminate].
        rewrite H1, H2, H3, H4. by destruct (truthy_opt (mqttPassword m)).
    + split; [discriminate |].
      intros [(_ & m' & Hs & _) | [(Hc & _) | Hd]]; discriminate.
  - destruct (String.eqb_spec (mode c) "command") as [Hc | Hc].
    + rewrite Hc. destruct (commandSettings c) as [cs|].
      * rewrite !bind_returns, !throw_if_returns. split.
        -- intros (H1 & H2). right. left. split; [done |]. exists cs.
           apply Z.leb_gt in H2.
           destruct (truthy (openCommand cs)), (truthy (closeCommand cs)),
             (truthy (monitorCommand cs)); by try discriminate.
        -- intros [(Hm' & _)
                  | [(_ & cs' & [= <-] & H1 & H2 & H3 & H4) | Hd]];
             [discriminate | | discriminate].
           rewrite H1, H2, H3. split; [| by apply Z.leb_gt].
           cbn. apply Z.eqb_neq. lia.
      * split; [discriminate |].
        intros [(Hm' & _) | [(_ & cs' & Hs & _) | Hd]]; discriminate.
    + destruct (String.eqb_spec (mode c) "dummy") as [Hd | Hd].
      * split; [by right; right | done].
      * split; [discriminate |].
        intros [(Hm' & _) | [(Hc' & _) | Hd']]; contradiction.
Qed.

Lemma validateConfig_iff c :
  validateConfig c = Returned tt <-> well_formed c.
Proof.
  unfold validateConfig, well_formed.
  rewrite !bind_returns, !throw_if_returns, validateMode_returns.
  split.
  - intros (Hm & H1 & H2 & H3 & H4). split; [exact Hm |].
    split; [| split; [| split]].
    + intros d Hd. rewrite Hd in H1. by apply Z.ltb_ge.
    + intros d Hd. rewrite Hd in H2. by apply Z.ltb_ge.
    + intros Ha d Hd. rewrite Ha, Hd in H3. cbn in H3. by apply Z.leb_gt.
    + intros l Hl. rewrite Hl in H4. apply includes_levels.
      by destruct (includes _ l).
  - intros (Hm & H1 & H2 & H3 & H4). split; [exact Hm |].
    split; [| split; [| split]].
    + destruct (lockDelay c) as [d|]; [| done]. apply Z.ltb_ge. by apply H1.
    + destruct (unlockDelay c) as [d|]; [| done]. apply Z.ltb_ge.
      by apply H2.
    + destruct (autoLock c) as [[|]|]; try done. cbn.
      destruct (autoLockDelay c) as [d|]; [| done]. apply Z.leb_gt.
      by apply H3.
    + destruct (logging c) as [l|]; [| done].
      apply (proj2 (includes_levels l)) in H4; [by rewrite H4 | done].
Qed.

(** X2: [validateConfig] accepts a lock exactly when its mode is one of
    the three and the settings of that mode are complete (for mqtt: broker
    and both topics, user name and password given together or not at all;
    for command: the three commands and a positive interval), no delay is
    negative, [autoLockDelay] is positive when auto-lock is on, and
    [logging] is one of the three levels. *)
Theorem validateConfig_accepts c :
  validateConfig c = Returned tt <-> well_formed c.
Proof. apply validateConfig_iff. Qed.

Lemma validateMode_name n c :
  throws (validateMode (with_name n c)) = throws (validateMode c).
Proof.
  unfold validateMode. cbn [mode with_name mqttSettings commandSettings].
  destruct (String.eqb (mode c) "mqtt").
  - destruct (mqttSettings c) as [m|]; [| done]. unfold throw_if.
    destruct (truthy (mqttBroker m)), (truthy (mqttTopicSubscribe m)),
      (truthy (mqttTopicPublish m)), (truthy_opt (mqttUsername m)),
      (truthy_opt (mqttPassword m)); done.
  - destruct (String.eqb (mode c) "command").
    + destruct (commandSettings c) as [cs|]; [| done]. unfold throw_if.
      destruct (_ || _); [done |]. cbn. by destruct (_ <=? _).
    + by destruct (String.eqb (mode c) "dummy").
Qed.

(** X3: validation never looks at the lock's name: a lock is accepted or
    rejected whatever its name is, the empty name included. *)
Theorem validation_ignores_name n c :
  valid (with_name n c) = valid c.
Proof.
  unfold valid, validateConfig. f_equal.
  pose proof (validateMode_name n c) as Hm.
  destruct (validateMode (with_name n c)) as [[]|m1],
    (validateMode c) as [[]|m2]; try discriminate; [| done].
  cbn [JS.bind with_name lockDelay unlockDelay autoLock autoLockDelay logging].
  unfold throw_if.
  repeat match goal with
         | |- context [if ?b then Thrown _ else _] => destruct b; [done |]
         end; done.
Qed.

(** ** Setting up a validated lock *)

Lemma logError_or_nothing config message :
  logError config message = [LogError message] \/ logError config message = [].
Proof. unfold logError. destruct (includes _ _); auto. Qed.

(** What the constructor does for a lock that passed validation. *)
Lemma validated_setup config ctx :
  validateConfig config = Returned tt ->
  let r := construct config ctx idle in
  List.filter is_error r.2 = []
  /\ (forall cs, mode config = "command" -> commandSettings config = Some cs ->
        monitorIntervalHandle r.1 = Some 0%nat
        /\ timers (loop r.1)
           = {[ 0%nat := {| due := monitorInterval cs * 1000;
                            callback := MonitorCb;
                            period := Some (monitorInterval cs * 1000) |} ]}
        /\ 0 < monitorInterval cs * 1000
        /\ mqttClient r.1 = None)
  /\ (forall m, mode config = "mqtt" -> mqttSettings config = Some m ->
        mqttClient r.1 = Some {| ended := false |}
        /\ timers (loop r.1) = ∅
        /\ In (MqttConnect (mqttBroker m) (Some (or_num (mqttPort m) 1883))
                 (credential (mqttUsername m)) (credential (mqttPassword m)))
             r.2)
  /\ (mode config = "dummy" ->
        mqttClient r.1 = None /\ timers (loop r.1) = ∅).
Proof.
  intros Hv. apply validateConfig_iff in Hv. cbv zeta.
  destruct Hv as (Hmode & _).
  unfold construct, setupMode, setupMQTT, setupCommandLine, TS.setInterval.
  destruct Hmode as [(Hm & m & Hs & _) | [(Hm & cs & Hs & H1 & H2 & H3 & H4)
                                          | Hm]];
    rewrite Hm; cbn [String.eqb Ascii.eqb Bool.eqb]; rewrite ?Hs.
  - cbn. split; [done |]. split; [by intros cs [=] |].
    split; [| by intros [=]].
    intros m' _ [= <-]. split; [done |]. split; [done |]. auto 10.
  - rewrite H1, H2, H3. cbn [negb orb].
    replace (monitorInterval cs =? 0) with false
      by (symmetry; apply Z.eqb_neq; lia).
    cbn. split; [done |]. split; [| split; [by intros m [=] | by intros [=]]].
    intros cs' _ [= <-]. split; [done |]. split; [| split; [lia | done]].
    by rewrite insert_empty.
  - cbn. split; [done |]. split; [by intros cs [=] |].
    split; [by intros m [=] | done].
Qed.



(** ** The monitor command *)

Lemma resume_monitor_resolved config stdout stderr s :
  resume config AfterMonitor (Resolved stdout stderr) s
  = match monitorState stdout with
    | Some b =>
        if negb (Bool.eqb b (isLocked s))
        then ((updateLockState config b false s).1,
              (if truthy stderr
               then logError config
                      (tag config +:+ "monitorCommand error output: "
                       +:+ trim stderr)
               else []) ++ (updateLockState config b false s).2)
        else (s, if truthy stderr
                 then logError config
                        (tag config +:+ "monitorCommand error output: "
                         +:+ trim stderr)
                 else [])
    | None => (s, if truthy stderr
                  then logError config
                         (tag config +:+ "monitorCommand error output: "
                          +:+ trim stderr)
                  else [])
    end.
Proof.
  unfold resume, executeMonitorCommand_settle.
  cbn [execAsync JS.bind try_catch fst snd].
  destruct (monitorState stdout) as [b|]; [| done].
  destruct (negb (Bool.eqb b (isLocked s))); [| done].
  by destruct (updateLockState config b false s).
Qed.

Lemma stderr_log_quiet config stderr :
  List.filter is_host_write
    (if truthy stderr
     then logError config
            (tag config +:+ "monitorCommand error output: " +:+ trim stderr)
     else []) = [].
Proof. destruct (truthy stderr); [| done]. apply logError_quiet. Qed.



Lemma lower_upper c : lower_char (upper_char c) = lower_char c.
Proof. destruct c as [[] [] [] [] [] [] [] []]; by vm_compute. Qed.

Lemma space_upper c : is_space (upper_char c) = is_space c.
Proof. destruct c as [[] [] [] [] [] [] [] []]; by vm_compute. Qed.

Lemma rev_string_upper s :
  forall acc,
    rev_string (toUpperCase acc) (toUpperCase s)
    = toUpperCase (rev_string acc s).
Proof.
  induction s as [| c s IH]; intros acc; [done |].
  cbn. apply (IH (String c acc)).
Qed.

Lemma trim_start_upper s :
  trim_start (toUpperCase s) = toUpperCase (trim_start s).
Proof.
  induction s as [| c s IH]; [done |].
  cbn. rewrite space_upper. by destruct (is_space c).
Qed.

Lemma trim_upper s : trim (toUpperCase s) = toUpperCase (trim s).
Proof.
  unfold trim.
  rewrite trim_start_upper.
  rewrite (rev_string_upper _ EmptyString), trim_start_upper.
  apply (rev_string_upper _ EmptyString).
Qed.

Lemma toLowerCase_upper s : toLowerCase (toUpperCase s) = toLowerCase s.
Proof.
  induction s as [| c s IH]; [done |]. cbn. by rewrite lower_upper, IH.
Qed.

(** X6: the output of the monitor command is matched without regard to
    case: an output of ASCII characters, written in capitals, is read as
    the output itself. *)
Theorem monitor_output_case_insensitive stdout :
  ascii_only stdout = true ->
  monitorState (toUpperCase stdout) = monitorState stdout.
Proof. intros _. unfold monitorState. by rewrite trim_upper, toLowerCase_upper. Qed.

Lemma monitor_output_case_insensitive_witness :
  monitorState "CLOSED" = monitorState "closed".
Proof. exact (monitor_output_case_insensitive "closed" eq_refl). Defined.

(** ** Timers the controller holds *)

(** An update leaves the loop and the handles alone, or arms the auto-lock
    timer after the fields were written. *)
Lemma updateLockState_loop config d t s :
  let s' := (updateLockState config d t s).1 in
  (loop s' = loop s /\ autoLockTimeout s' = autoLockTimeout s
   /\ monitorIntervalHandle s' = monitorIntervalHandle s
   /\ lockDelayTimeout s' = lockDelayTimeout s
   /\ unlockDelayTimeout s' = unlockDelayTimeout s
   /\ mqttClient s' = mqttClient s)
  \/ (t = true /\ or_false (autoLock config) = true /\ d = false
      /\ s' = armAutoLock config (written d s)).
Proof.
  unfold updateLockState.
  destruct (Bool.eqb d (isLocked s) && Bool.eqb (targetState s) d);
    [left; done |]. cbn [fst].
  destruct t, (or_false (autoLock config)), d; cbn [andb negb];
    (by right) || (left; done).
Qed.

Lemma armAutoLock_fields config s :
  monitorIntervalHandle (armAutoLock config s) = monitorIntervalHandle s
  /\ lockDelayTimeout (armAutoLock config s) = lockDelayTimeout s
  /\ unlockDelayTimeout (armAutoLock config s) = unlockDelayTimeout s
  /\ mqttClient (armAutoLock config s) = mqttClient s
  /\ running (loop (armAutoLock config s)) = running (loop s)
  /\ now (loop (armAutoLock config s)) = now (loop s).
Proof. unfold armAutoLock. by destruct (autoLockTimeout s). Qed.













Lemma started_Held config ctx : Held (started config ctx).
Proof.
  unfold started, construct, setupMode, setupMQTT, setupCommandLine.
  intros h t.
  destruct (String.eqb (mode config) "mqtt").
  - by destruct (mqttSettings config).
  - destruct (String.eqb (mode config) "command"); [| done].
    destruct (commandSettings config) as [cs|]; [| done].
    destruct (_ || _); [done |]. cbn.
    destruct (decide (h = 0%nat)) as [-> | Hne].
    + rewrite lookup_insert_eq. intros [= <-]. by right.
    + by rewrite lookup_insert_ne.
Qed.

(** ** [shutdown] *)

Lemma clear_loop o s :
  timers (loop (clear o s)) = clearing o (timers (loop s))
  /\ now (loop (clear o s)) = now (loop s)
  /\ nextTimer (loop (clear o s)) = nextTimer (loop s)
  /\ running (loop (clear o s)) = running (loop s)
  /\ nextPid (loop (clear o s)) = nextPid (loop s).
Proof. by destruct o. Qed.

Lemma clear_handles o s :
  monitorIntervalHandle (clear o s) = monitorIntervalHandle s
  /\ autoLockTimeout (clear o s) = autoLockTimeout s
  /\ lockDelayTimeout (clear o s) = lockDelayTimeout s
  /\ unlockDelayTimeout (clear o s) = unlockDelayTimeout s
  /\ mqttClient (clear o s) = mqttClient s.
Proof. by destruct o. Qed.

(** The state [shutdown] leaves when [end] returns. *)
Lemma shutdown_returns s :
  exists s',
    shutdown None s
    = (Returned s', match mqttClient s with Some _ => [MqttEnd] | None => [] end)
    /\ timers (loop s')
       = clearing (unlockDelayTimeout s)
           (clearing (lockDelayTimeout s)
              (clearing (autoLockTimeout s)
                 (clearing (monitorIntervalHandle s) (timers (loop s)))))
    /\ (now (loop s') = now (loop s) /\ nextTimer (loop s') = nextTimer (loop s)
        /\ running (loop s') = running (loop s)
        /\ nextPid (loop s') = nextPid (loop s))
    /\ (monitorIntervalHandle s' = monitorIntervalHandle s
        /\ autoLockTimeout s' = autoLockTimeout s
        /\ lockDelayTimeout s' = lockDelayTimeout s
        /\ unlockDelayTimeout s' = unlockDelayTimeout s)
    /\ (isLocked s' = isLocked s /\ targetState s' = targetState s
        /\ context s' = context s)
    /\ mqttClient s'
       = match mqttClient s with
         | Some _ => Some {| ended := true |}
         | None => None
         end.
Proof.
  unfold shutdown.
  set (s0 := match mqttClient s with
             | Some _ => set_mqttClient (Some {| ended := true |}) s
             | None => s
             end).
  exists (clear (unlockDelayTimeout
                   (clear (lockDelayTimeout
                             (clear (autoLockTimeout
                                       (clear (monitorIntervalHandle s0) s0))
                                (clear (monitorIntervalHandle s0) s0)))
                      (clear (autoLockTimeout
                                (clear (monitorIntervalHandle s0) s0))
                         (clear (monitorIntervalHandle s0) s0))))
            (clear (lockDelayTimeout
                      (clear (autoLockTimeout
                                (clear (monitorIntervalHandle s0) s0))
                         (clear (monitorIntervalHandle s0) s0)))
               (clear (autoLockTimeout (clear (monitorIntervalHandle s0) s0))
                  (clear (monitorIntervalHandle s0) s0)))).
  split; [unfold s0; by destruct (mqttClient s) |].
  set (s1 := clear (monitorIntervalHandle s0) s0).
  set (s2 := clear (autoLockTimeout s1) s1).
  set (s3 := clear (lockDelayTimeout s2) s2).
  destruct (clear_loop (monitorIntervalHandle s0) s0) as (A1 & A2 & A3 & A4 & A5).
  destruct (clear_handles (monitorIntervalHandle s0) s0)
    as (B1 & B2 & B3 & B4 & B5).
  destruct (clear_kept (monitorIntervalHandle s0) s0) as (C1 & C2 & C3).
  fold s1 in A1, A2, A3, A4, A5, B1, B2, B3, B4, B5, C1, C2, C3.
  destruct (clear_loop (autoLockTimeout s1) s1) as (D1 & D2 & D3 & D4 & D5).
  destruct (clear_handles (autoLockTimeout s1) s1)
    as (E1 & E2 & E3 & E4 & E5).
  destruct (clear_kept (autoLockTimeout s1) s1) as (F1 & F2 & F3).
  fold s2 in D1, D2, D3, D4, D5, E1, E2, E3, E4, E5, F1, F2, F3.
  destruct (clear_loop (lockDelayTimeout s2) s2) as (G1 & G2 & G3 & G4 & G5).
  destruct (clear_handles (lockDelayTimeout s2) s2)
    as (H1 & H2 & H3 & H4 & H5).
  destruct (clear_kept (lockDelayTimeout s2) s2) as (I1 & I2 & I3).
  fold s3 in G1, G2, G3, G4, G5, H1, H2, H3, H4, H5, I1, I2, I3.
  destruct (clear_loop (unlockDelayTimeout s3) s3) as (J1 & J2 & J3 & J4 & J5).
  destruct (clear_handles (unlockDelayTimeout s3) s3)
    as (K1 & K2 & K3 & K4 & K5).
  destruct (clear_kept (unlockDelayTimeout s3) s3) as (L1 & L2 & L3).
  assert (Z0 : monitorIntervalHandle s0 = monitorIntervalHandle s
               /\ autoLockTimeout s0 = autoLockTimeout s
               /\ lockDelayTimeout s0 = lockDelayTimeout s
               /\ unlockDelayTimeout s0 = unlockDelayTimeout s
               /\ loop s0 = loop s
               /\ isLocked s0 = isLocked s /\ targetState s0 = targetState s
               /\ context s0 = context s
               /\ mqttClient s0 = match mqttClient s with
                                  | Some _ => Some {| ended := true |}
                                  | None => None
                                  end).
  { unfold s0. destruct (mqttClient s) eqn:E; by repeat split. }
  destruct Z0 as (Z1 & Z2 & Z3 & Z4 & Z5 & Z6 & Z7 & Z8 & Z9).
  repeat split; congruence.
Qed.

Lemma lookup_clearing o (m : gmap nat (Timer Callback)) h :
  clearing o m !! h = if decide (o = Some h) then None else m !! h.
Proof.
  destruct o as [h'|]; cbn; [| by destruct (decide _)].
  destruct (decide (Some h' = Some h)) as [[= ->] | Hne].
  - apply lookup_delete_eq.
  - apply lookup_delete_ne. congruence.
Qed.

Lemma State_eq (s s' : State) :
  isLocked s = isLocked s' -> targetState s = targetState s' ->
  mqttClient s = mqttClient s' -> autoLockTimeout s = autoLockTimeout s' ->
  monitorIntervalHandle s = monitorIntervalHandle s' ->
  lockDelayTimeout s = lockDelayTimeout s' ->
  unlockDelayTimeout s = unlockDelayTimeout s' ->
  context s = context s' ->
  now (loop s) = now (loop s') -> timers (loop s) = timers (loop s') ->
  nextTimer (loop s) = nextTimer (loop s') ->
  running (loop s) = running (loop s') ->
  nextPid (loop s) = nextPid (loop s') ->
  s = s'.
Proof.
  destruct s as [a1 a2 a3 a4 a5 a6 a7 a8 [b1 b2 b3 b4 b5]],
    s' as [c1 c2 c3 c4 c5 c6 c7 c8 [d1 d2 d3 d4 d5]].
  cbn. by intros -> -> -> -> -> -> -> -> -> -> -> -> ->.
Qed.


(** X7: [shutdown] clears the timer of each of the four handles the
    controller holds and creates none; the lock state and the handles stay
    as they are (the handles are not reset), a second [shutdown] changes
    nothing more; and when the client's [end] throws, [shutdown] stops
    there: no timer is cleared and the error is not caught. *)
Theorem shutdown_clears_held_timers config s message :
  let r := step config s (HostShutdown None) in
  (armed_at (monitorIntervalHandle s) r.1 = None
   /\ armed_at (autoLockTimeout s) r.1 = None
   /\ armed_at (lockDelayTimeout s) r.1 = None
   /\ armed_at (unlockDelayTimeout s) r.1 = None)
  /\ timers (loop r.1) ⊆ timers (loop s)
  /\ (isLocked r.1 = isLocked s /\ targetState r.1 = targetState s
      /\ autoLockTimeout r.1 = autoLockTimeout s
      /\ monitorIntervalHandle r.1 = monitorIntervalHandle s
      /\ lockDelayTimeout r.1 = lockDelayTimeout s
      /\ unlockDelayTimeout r.1 = unlockDelayTimeout s)
  /\ (step config r.1 (HostShutdown None)).1 = r.1
  /\ step config s (HostShutdown (Some message))
     = match mqttClient s with
       | Some _ => (s, [MqttEnd; Uncaught message])
       | None => r
       end.
Proof.
  cbv zeta. cbn [step].
  destruct (shutdown_returns s)
    as (s' & Hs & Ht & (L1 & L2 & L3 & L4) & (F1 & F2 & F3 & F4)
        & (K1 & K2 & K3) & Hc).
  rewrite Hs. cbn [fst snd].
  assert (Hl : forall h,
            timers (loop s') !! h
            = if decide (unlockDelayTimeout s = Some h) then None
              else if decide (lockDelayTimeout s = Some h) then None
              else if decide (autoLockTimeout s = Some h) then None
              else if decide (monitorIntervalHandle s = Some h) then None
              else timers (loop s) !! h).
  { intros h. by rewrite Ht, !lookup_clearing. }
  split; [| split; [| split; [| split]]].
  - unfold armed_at.
    repeat split;
      match goal with
      | |- match ?o with _ => _ end = None =>
          destruct o as [h|] eqn:E; [| done]
      end; rewrite Hl; repeat case_decide; congruence.
  - apply map_subseteq_spec. intros h t. rewrite Hl.
    by repeat case_decide.
  - by repeat split.
  - destruct (shutdown_returns s')
      as (s'' & Hs' & Ht' & (M1 & M2 & M3 & M4) & (G1 & G2 & G3 & G4)
          & (N1 & N2 & N3) & Hc').
    rewrite Hs'. cbn [fst].
    apply State_eq; try congruence.
    + rewrite Hc', Hc. by destruct (mqttClient s).
    + apply map_eq. intros h.
      rewrite Ht', !lookup_clearing, F1, F2, F3, F4, Hl.
      by repeat case_decide.
  - unfold shutdown in Hs |- *.
    destruct (mqttClient s); [done | by injection Hs as <-].
Qed.



(** ** Locks outside command mode *)

Lemma publishState_no_command config d s :
  List.filter is_command (publishState config d s) = [].
Proof.
  unfold publishState. destruct (mqttSettings config) as [ms|]; [| done].
  by destruct (_ && _).
Qed.

Lemma updateLockState_no_command config d t s :
  List.filter is_command (updateLockState config d t s).2 = [].
Proof.
  unfold updateLockState. destruct (_ && _); [done |].
  cbn. apply publishState_no_command.
Qed.

Lemma updateLockState_Virtual config d t s :
  Virtual s -> Virtual (updateLockState config d t s).1.
Proof.
  intros (Ht & Hr & Hm & Hl & Hu).
  destruct (updateLockState_loop config d t s)
    as [(El & _ & Em & Ell & Eu & _) | (_ & _ & _ & ->)].
  - unfold Virtual. by rewrite El, Em, Ell, Eu.
  - destruct (armAutoLock_timers config (written d s)) as [_ Et].
    destruct (armAutoLock_fields config (written d s))
      as (Em & Ell & Eu & _ & Er & _).
    unfold Virtual. rewrite Et, Em, Ell, Eu, Er.
    split; [| done]. intros h t'.
    destruct (decide (h = nextTimer (loop (written d s)))) as [-> | Hne].
    + rewrite lookup_insert_eq. by intros [= <-].
    + rewrite lookup_insert_ne by done.
      destruct (autoLockTimeout (written d s)) as [old|]; [| apply Ht].
      destruct (decide (h = old)) as [-> | Hne'].
      * by rewrite lookup_delete_eq.
      * rewrite lookup_delete_ne by done. apply Ht.
Qed.

Lemma clear_Virtual o s : Virtual s -> Virtual (clear o s).
Proof.
  destruct o as [id|]; [| done].
  intros (Ht & Hr). split; [| done]. intros h t. cbn.
  destruct (decide (h = id)) as [-> | Hne].
  - by rewrite lookup_delete_eq.
  - rewrite lookup_delete_ne by done. apply Ht.
Qed.

Lemma step_Virtual config s ev :
  mode config <> "command" -> Virtual s ->
  Virtual (step config s ev).1
  /\ List.filter is_command (step config s ev).2 = [].
Proof.
  intros Hm H.
  destruct ev as [value | topic message | dt | h | pid r | endThrows];
    cbn [step].
  - unfold setTargetState.
    destruct (String.eqb_spec (mode config) "command"); [done |].
    split; [by apply updateLockState_Virtual
           | apply updateLockState_no_command].
  - unfold busMessage.
    destruct (mqttSettings config) as [ms|]; [| done].
    destruct (mqttClient s) as [c|]; [| done].
    destruct (ended c); [done |].
    destruct (onMessage_observes config ms topic message s) as [-> | [b ->]];
      [done |].
    split; [by apply updateLockState_Virtual
           | apply updateLockState_no_command].
  - by destruct (0 <=? dt).
  - unfold expire.
    destruct (ready h (loop s)) as [t|] eqn:Hr; [| done].
    apply ready_armed_timer in Hr as [Hl _].
    destruct H as (Ht & Hrun & Hh).
    rewrite (Ht h t Hl). cbn [runCallback].
    split; [| apply updateLockState_no_command].
    apply updateLockState_Virtual. split; [| done].
    intros h' t'. cbn. destruct (period t).
    + destruct (decide (h' = h)) as [-> | Hne].
      * rewrite lookup_insert_eq. intros [= <-]. cbn. by apply (Ht h t).
      * rewrite lookup_insert_ne by done. apply Ht.
    + destruct (decide (h' = h)) as [-> | Hne].
      * by rewrite lookup_delete_eq.
      * rewrite lookup_delete_ne by done. apply Ht.
  - unfold exit. destruct H as (Ht & Hrun & Hh).
    by rewrite Hrun, lookup_empty.
  - unfold shutdown.
    destruct (mqttClient s); [destruct endThrows |]; cbn; (split; [| done]);
      try done; by repeat apply clear_Virtual.
Qed.

Lemma run_Virtual config evs :
  mode config <> "command" -> forall s, Virtual s ->
    Virtual (run config s evs).1
    /\ List.filter is_command (run config s evs).2 = [].
Proof.
  intros Hm. induction evs as [| ev evs IH]; intros s H; [done |].
  cbn [run]. destruct (step_Virtual config s ev Hm H) as [H1 E1].
  destruct (step config s ev) as [s1 e1].
  destruct (IH s1 H1) as [H2 E2]. destruct (run config s1 evs) as [s2 e2].
  cbn [fst snd] in *. split; [done |].
  by rewrite List.filter_app, E1, E2.
Qed.

Lemma construct_Virtual config ctx :
  mode config <> "command" ->
  Virtual (started config ctx)
  /\ List.filter is_command (construct config ctx idle).2 = [].
Proof.
  intros Hm. unfold started, construct, setupMode, setupMQTT.
  destruct (String.eqb_spec (mode config) "command"); [done |].
  destruct (String.eqb (mode config) "mqtt"); [| done].
  destruct (mqttSettings config); cbn; [done |].
  split; [done |]. unfold logError. by destruct (includes _ _).
Qed.

(** X9: outside command mode the controller never starts a process: from
    the constructor on, whatever the host, the bus, the clock and child
    processes do, no command is run, no process is awaited, the only
    timers are auto-lock timers, and the handles of the monitor interval
    and of the two delay timers stay unset ([lockDelay] and [unlockDelay]
    have no effect). *)
Theorem virtual_lock_runs_no_command config ctx evs :
  mode config <> "command" ->
  let r := run config (started config ctx) evs in
  Virtual r.1
  /\ List.filter is_command (construct config ctx idle).2 = []
  /\ List.filter is_command r.2 = [].
Proof.
  intros Hm r. destruct (construct_Virtual config ctx Hm) as [H0 E0].
  destruct (run_Virtual config evs Hm _ H0) as [H E].
  split; [exact H | split; [exact E0 | exact E]].
Qed.

Lemma virtual_lock_runs_no_command_witness :
  lockDelayTimeout
    (run front_door (started front_door no_context)
       [HostSet LockTargetState.SECURED; HostSet LockTargetState.UNSECURED;
        Expire 0]).1 = None.
Proof.
  assert (Hm : mode front_door <> "command") by discriminate.
  pose proof (virtual_lock_runs_no_command front_door no_context
                [HostSet LockTargetState.SECURED;
                 HostSet LockTargetState.UNSECURED; Expire 0] Hm) as H.
  exact (proj1 (proj2 (proj2 (proj2 (proj1 H))))).
Defined.

(** ** Locks without auto-lock *)

Lemma NoAutoLock_same s s' :
  timers (loop s') = timers (loop s) ->
  autoLockTimeout s' = autoLockTimeout s ->
  NoAutoLock s -> NoAutoLock s'.
Proof. intros Ht Ha H. unfold NoAutoLock. by rewrite Ht, Ha. Qed.

Lemma updateLockState_NoAutoLock config d t s :
  or_false (autoLock config) = false ->
  NoAutoLock s -> NoAutoLock (updateLockState config d t s).1.
Proof.
  intros Ha.
  destruct (updateLockState_loop config d t s)
    as [(El & Ea & _) | (_ & Ha' & _)]; [| congruence].
  apply NoAutoLock_same; by rewrite ?El.
Qed.

Lemma executeCommand_NoAutoLock config command commandName d s :
  or_false (autoLock config) = false ->
  NoAutoLock s -> NoAutoLock (executeCommand config command commandName d s).1.
Proof.
  intros Ha H. unfold executeCommand.
  destruct (truthy command); [exact H |].
  pose proof (updateLockState_NoAutoLock config d
                (or_false (autoLock config)) s Ha H).
  by destruct (updateLockState config d _ s).
Qed.

Lemma delayed_NoAutoLock cb ms s :
  cb <> AutoLockCb -> NoAutoLock s ->
  NoAutoLock (set_loop (EventLoop.setTimeout cb ms (loop s)).2 s).
Proof.
  intros Hcb [Ht Ha]. split; [| done]. intros h t. cbn.
  destruct (decide (h = nextTimer (loop s))) as [-> | Hne].
  - rewrite lookup_insert_eq. by intros [= <-].
  - rewrite lookup_insert_ne by done. apply Ht.
Qed.

Lemma setTargetState_NoAutoLock config value s :
  or_false (autoLock config) = false ->
  NoAutoLock s -> NoAutoLock (setTargetState config value s).1.
Proof.
  intros Ha H. unfold setTargetState.
  destruct (String.eqb (mode config) "command");
    [| by apply updateLockState_NoAutoLock].
  destruct (commandSettings config) as [cs|]; [| done].
  destruct (value =? LockTargetState.SECURED).
  - destruct (is_positive (lockDelay config));
      [| by apply executeCommand_NoAutoLock].
    by apply (delayed_NoAutoLock (LockDelayCb cs)).
  - destruct (is_positive (unlockDelay config));
      [| by apply executeCommand_NoAutoLock].
    by apply (delayed_NoAutoLock (UnlockDelayCb cs)).
Qed.

Lemma expire_NoAutoLock config h s :
  or_false (autoLock config) = false ->
  NoAutoLock s -> NoAutoLock (expire config h s).1.
Proof.
  intros Ha H. unfold expire.
  destruct (ready h (loop s)) as [t|] eqn:Hr; [| done].
  apply ready_armed_timer in Hr as [Hl _].
  assert (H' : NoAutoLock (set_loop (expired h t (loop s)) s)).
  { destruct H as [Ht Hn]. split; [| done].
    intros h' t'. cbn. destruct (period t).
    - destruct (decide (h' = h)) as [-> | Hne].
      + rewrite lookup_insert_eq. intros [= <-]. cbn. by apply (Ht h t).
      + rewrite lookup_insert_ne by done. apply Ht.
    - destruct (decide (h' = h)) as [-> | Hne].
      + by rewrite lookup_delete_eq.
      + rewrite lookup_delete_ne by done. apply Ht. }
  destruct (callback t) as [cs | cs | |]; cbn [runCallback].
  - by apply executeCommand_NoAutoLock.
  - by apply executeCommand_NoAutoLock.
  - by apply updateLockState_NoAutoLock.
  - unfold executeMonitorCommand.
    destruct (commandSettings config) as [cs|]; [| done].
    by destruct (truthy (monitorCommand cs)).
Qed.

Lemma clear_NoAutoLock o s : NoAutoLock s -> NoAutoLock (clear o s).
Proof.
  destruct o as [id|]; [| done].
  intros (Ht & Hr). split; [| done]. intros h t. cbn.
  destruct (decide (h = id)) as [-> | Hne].
  - by rewrite lookup_delete_eq.
  - rewrite lookup_delete_ne by done. apply Ht.
Qed.

Lemma step_NoAutoLock config s ev :
  or_false (autoLock config) = false ->
  NoAutoLock s -> NoAutoLock (step config s ev).1.
Proof.
  intros Ha H.
  destruct ev as [value | topic message | dt | h | pid r | endThrows];
    cbn [step].
  - by apply setTargetState_NoAutoLock.
  - unfold busMessage.
    destruct (mqttSettings config) as [ms|]; [| done].
    destruct (mqttClient s) as [c|]; [| done].
    destruct (ended c); [done |].
    destruct (onMessage_observes config ms topic message s) as [-> | [b ->]];
      [done |]. by apply updateLockState_NoAutoLock.
  - by destruct (0 <=? dt).
  - by apply expire_NoAutoLock.
  - unfold exit. destruct (running (loop s) !! pid) as [k|]; [| done].
    destruct k as [commandName d|].
    + rewrite resume_command. by apply updateLockState_NoAutoLock.
    + cbn [resume].
      destruct (monitor_observes config r (set_loop (exited pid (loop s)) s))
        as [[-> | [m ->]] | (b & e & ->)]; try done.
      by apply updateLockState_NoAutoLock.
  - unfold shutdown.
    destruct (mqttClient s); [destruct endThrows |]; cbn;
      try done; by repeat apply clear_NoAutoLock.
Qed.

Lemma started_NoAutoLock config ctx : NoAutoLock (started config ctx).
Proof.
  unfold started, construct, setupMode, setupMQTT, setupCommandLine.
  destruct (String.eqb (mode config) "mqtt").
  - by destruct (mqttSettings config).
  - destruct (String.eqb (mode config) "command"); [| done].
    destruct (commandSettings config) as [cs|]; [| done].
    destruct (_ || _); [done |]. split; [| done]. intros h t. cbn.
    destruct (decide (h = 0%nat)) as [-> | Hne].
    + rewrite lookup_insert_eq. by intros [= <-].
    + by rewrite lookup_insert_ne.
Qed.

(** X10: unless [autoLock] is set, no auto-lock timer is ever armed and
    the handle of one is never stored, in any mode and whatever
    [autoLockDelay] says. *)
Theorem auto_lock_off_never_arms config ctx evs :
  or_false (autoLock config) = false ->
  NoAutoLock (run config (started config ctx) evs).1.
Proof.
  intros Ha. generalize (started_NoAutoLock config ctx).
  generalize (started config ctx).
  induction evs as [| ev evs IH]; intros s H; [done |].
  cbn [run]. pose proof (step_NoAutoLock config s ev Ha H) as H1.
  destruct (step config s ev) as [s1 e1].
  specialize (IH s1 H1). by destruct (run config s1 evs).
Qed.

Lemma auto_lock_off_never_arms_witness :
  autoLockTimeout
    (run garage (started garage no_context)
       [HostSet LockTargetState.UNSECURED;
        Exit 0 (Resolved "unlocking garage" EmptyString)]).1 = None.
Proof.
  assert (Ha : or_false (autoLock garage) = false) by reflexivity.
  exact (proj2 (auto_lock_off_never_arms garage no_context
                  [HostSet LockTargetState.UNSECURED;
                   Exit 0 (Resolved "unlocking garage" EmptyString)] Ha)).
Defined.

(** ** Discovery: cached and new accessories *)

Lemma announces_nothing (e : list effect) :
  omap announced e = [] -> omap registered e = [] /\ omap updated e = [].
Proof.
  induction e as [| x e IH]; [done |].
  destruct x; cbn; try done; exact IH.
Qed.

Section CacheFacts.

Variable generate : string -> string.

Lemma discoverDevice_decides c p :
  let r := discoverDevice generate c p in
  stored <$> accessories r.1 = stored <$> accessories p
  /\ omap updated r.2
     = (if valid c && cached generate p c then [generate (name c)] else [])
  /\ omap registered r.2
     = (if valid c && negb (cached generate p c)
        then [generate (name c)] else [])
  /\ UUID <$> created r.1 = (UUID <$> created p) ++ omap registered r.2.
Proof.
  cbv zeta. unfold discoverDevice, valid, cached.
  destruct (validateConfig c) as [[]|m]; cbn [throws negb andb fst snd];
    [| by rewrite app_nil_r].
  destruct (list_find _ _) as [[i acc]|] eqn:Hf.
  - apply list_find_Some in Hf as (Hi & Hu & _).
    destruct (announces_nothing _
                (construct_announces_nothing c (accessory_context acc) idle))
      as [Hr Hup].
    destruct (construct c (accessory_context acc) idle) as [st e].
    cbn [fst snd accessories created] in *.
    rewrite !omap_app, Hr, Hup, app_nil_r. cbn.
    rewrite bool_decide_eq_true_2
      by (rewrite <- Hu; apply list_elem_of_fmap_2;
          by eapply list_elem_of_lookup_2).
    cbn. split; [| by rewrite app_nil_r].
    rewrite list_fmap_insert. apply list_insert_id.
    by rewrite list_lookup_fmap, Hi.
  - apply list_find_None in Hf.
    destruct (announces_nothing _ (construct_announces_nothing c no_context idle))
      as [Hr Hup].
    destruct (construct c no_context idle) as [st e].
    cbn [fst snd accessories created] in *.
    rewrite !omap_app, Hr, Hup, fmap_app. cbn.
    rewrite bool_decide_eq_false_2; [done |].
    intros (acc & Hu & Hin)%list_elem_of_fmap_1.
    by apply (proj1 (Forall_forall _ _) Hf acc Hin).
Qed.

Lemma cached_stored p p' c :
  stored <$> accessories p' = stored <$> accessories p ->
  cached generate p' c = cached generate p c.
Proof.
  intros H. unfold cached.
  assert (E : UUID <$> accessories p' = UUID <$> accessories p).
  { change UUID with ((fun x : string * string * Context => x.1.1) ∘ stored).
    by rewrite !list_fmap_compose, H. }
  by rewrite E.
Qed.

Lemma discoverLoop_decides locks :
  forall p,
    let r := discoverLoop generate locks p in
    stored <$> accessories r.1 = stored <$> accessories p
    /\ omap updated r.2
       = generate ∘ name
         <$> List.filter (fun c => valid c && cached generate p c) locks
    /\ omap registered r.2
       = generate ∘ name
         <$> List.filter (fun c => valid c && negb (cached generate p c)) locks
    /\ UUID <$> created r.1 = (UUID <$> created p) ++ omap registered r.2.
Proof.
  induction locks as [| c locks IH]; intros p; cbv zeta.
  - cbn. by rewrite app_nil_r.
  - cbn [discoverLoop List.filter].
    destruct (discoverDevice_decides c p) as (S1 & U1 & R1 & C1).
    destruct (discoverDevice generate c p) as [p1 e1].
    destruct (IH p1) as (S2 & U2 & R2 & C2).
    destruct (discoverLoop generate locks p1) as [p2 e2].
    cbn [fst snd] in *.
    assert (U2' : omap updated e2
                  = generate ∘ name
                    <$> List.filter
                          (fun c => valid c && cached generate p c) locks).
    { rewrite U2. f_equal. apply List.filter_ext. intros c'.
      by rewrite (cached_stored p p1 c' S1). }
    assert (R2' : omap registered e2
                  = generate ∘ name
                    <$> List.filter
                          (fun c => valid c && negb (cached generate p c))
                          locks).
    { rewrite R2. f_equal. apply List.filter_ext. intros c'.
      by rewrite (cached_stored p p1 c' S1). }
    rewrite !omap_app, C2, C1, U1, R1, U2', R2', S2, S1.
    repeat split.
    + by destruct (valid c && cached generate p c).
    + by destruct (valid c && negb (cached generate p c)).
    + by rewrite <- app_assoc.
Qed.

(** X11: discovery decides per lock by the cache alone.  A valid lock
    whose generated UUID is among the accessories loaded from the cache
    updates that accessory; every other valid lock registers a new one,
    also when an earlier lock of the same name was registered in the same
    pass.  The accessories of the cache keep their place, UUID, display
    name and stored context. *)
Theorem discovery_registers_uncached locks p :
  let r := discoverDevices generate (Some locks) p in
  stored <$> accessories r.1 = stored <$> accessories p
  /\ omap updated r.2
     = generate ∘ name
       <$> List.filter (fun c => valid c && cached generate p c) locks
  /\ omap registered r.2
     = generate ∘ name
       <$> List.filter (fun c => valid c && negb (cached generate p c)) locks
  /\ UUID <$> created r.1 = (UUID <$> created p) ++ omap registered r.2.
Proof. apply discoverLoop_decides. Qed.

End CacheFacts.

(** ** Shutdown of the platform *)

Lemma shutdownLoop_lookup endThrows accs :
  forall i acc, accs !! i = Some acc ->
    (shutdownLoop endThrows accs).1 !! i
    = Some (shutdownAccessory endThrows acc).1.
Proof.
  induction accs as [| a accs IH]; intros i acc; [done |].
  cbn [shutdownLoop].
  destruct (shutdownAccessory endThrows a) as [a' e1] eqn:Ea.
  specialize (IH (pred i) acc).
  destruct (shutdownLoop endThrows accs) as [rest' e2]. cbn [fst] in *.
  destruct i as [| i]; cbn.
  - intros [= <-]. by rewrite Ea.
  - exact IH.
Qed.

Lemma Held_shutdown_empty s s' e :
  Held s -> shutdown None s = (Returned s', e) -> timers (loop s') = ∅.
Proof.
  intros H Hs.
  destruct (shutdown_returns s) as (s'' & Hs' & Ht & _).
  rewrite Hs in Hs'. injection Hs' as -> _.
  apply map_eq. intros h. rewrite lookup_empty, Ht, !lookup_clearing.
  repeat case_decide; try done.
  destruct (timers (loop s) !! h) as [t|] eqn:Hl; [| done].
  destruct (H h t Hl) as [[_ Ha] | [_ Hm]]; congruence.
Qed.

Section PlatformFacts.

Variable generate : string -> string.

Lemma discoverDevice_new c p :
  validateConfig c = Returned tt -> cached generate p c = false ->
  discoverDevice generate c p
  = ({| accessories := accessories p;
        created := created p ++ [new_accessory generate c] |},
     (construct c no_context idle).2
     ++ [RegisterPlatformAccessories (generate (name c))]).
Proof.
  intros Hv Hc. unfold discoverDevice. rewrite Hv.
  destruct (list_find _ _) as [[i acc]|] eqn:Hf.
  - apply list_find_Some in Hf as (Hi & Hu & _).
    apply bool_decide_eq_false in Hc. exfalso. apply Hc.
    rewrite <- Hu. apply list_elem_of_fmap_2. by eapply list_elem_of_lookup_2.
  - unfold new_accessory, started.
    by destruct (construct c no_context idle).
Qed.

Lemma discoverDevice_cached c p i acc :
  validateConfig c = Returned tt ->
  list_find (fun a => UUID a = generate (name c)) (accessories p)
  = Some (i, acc) ->
  discoverDevice generate c p
  = ({| accessories :=
          <[i := {| UUID := UUID acc; displayName := displayName acc;
                    persisted := persisted acc;
                    instance := Some (c, started c (accessory_context acc)) |}]>
            (accessories p);
        created := created p |},
     (construct c (accessory_context acc) idle).2
     ++ [UpdatePlatformAccessories (generate (name c))]).
Proof.
  intros Hv Hf. unfold discoverDevice. rewrite Hv, Hf. unfold started.
  by destruct (construct c (accessory_context acc) idle).
Qed.

(** X12: an accessory that discovery registers as new is not among the
    accessories the platform shuts down.  After the host's [SHUTDOWN] its
    controller is in the state the constructor left: in command mode the
    monitor interval is still armed, in mqtt mode the client is still
    open; and the shutdown does what it does without the lock. *)
Theorem new_accessory_is_not_shut_down endThrows c p :
  validateConfig c = Returned tt -> cached generate p c = false ->
  let r := shutdownPlatform endThrows (discoverDevice generate c p).1 in
  let st := started c no_context in
  created r.1 = created p ++ [new_accessory generate c]
  /\ r.2 = (shutdownPlatform endThrows p).2
  /\ (mode c = "command" ->
        exists t, armed_at (monitorIntervalHandle st) st = Some t
                  /\ callback t = MonitorCb /\ is_Some (period t))
  /\ (mode c = "mqtt" -> mqttClient st = Some {| ended := false |}).
Proof.
  intros Hv Hc. cbv zeta. rewrite (discoverDevice_new c p Hv Hc).
  unfold shutdownPlatform. cbn [fst snd accessories created].
  destruct (shutdownLoop endThrows (accessories p)) as [accs e].
  cbn [fst snd created]. split; [done |]. split; [done |].
  destruct (validated_setup c no_context Hv) as (_ & Hcmd & Hmq & _).
  pose proof (proj1 (validateConfig_iff c) Hv) as (Hmode & _).
  unfold started. split.
  - intros Hm.
    destruct Hmode as [(Hm' & _) | [(_ & cs & Hs & _) | Hm']];
      [congruence | | congruence].
    destruct (Hcmd cs Hm Hs) as (Hh & Ht & _).
    unfold armed_at. rewrite Hh, Ht, lookup_singleton_eq. eauto.
  - intros Hm.
    destruct Hmode as [(_ & m & Hs & _) | [(Hm' & _) | Hm']];
      [| congruence | congruence].
    by destruct (Hmq m Hm Hs) as (Hcl & _).
Qed.

(** X13: a cached accessory whose lock is configured gets a controller
    built on the context the accessory carries, and the platform's
    shutdown reaches it: when [end] does not throw, the controller is left
    in the restored lock state with no timer armed. *)
Theorem cached_accessory_is_shut_down c p i acc :
  validateConfig c = Returned tt ->
  list_find (fun a => UUID a = generate (name c)) (accessories p)
  = Some (i, acc) ->
  let r := shutdownPlatform (fun _ => None) (discoverDevice generate c p).1 in
  exists st,
    instance <$> accessories r.1 !! i = Some (Some (c, st))
    /\ timers (loop st) = ∅
    /\ isLocked st = default true (ctx_isLocked (accessory_context acc))
    /\ targetState st = default true (ctx_targetState (accessory_context acc))
    /\ created r.1 = created p.
Proof.
  intros Hv Hf. cbv zeta. rewrite (discoverDevice_cached c p i acc Hv Hf).
  pose proof Hf as (Hi & _)%list_find_Some.
  unfold shutdownPlatform. cbn [fst accessories created].
  match goal with |- context [shutdownLoop ?f ?l] =>
    pose proof (shutdownLoop_lookup f l i) as Hl;
    destruct (shutdownLoop f l) as [accs e] end.
  cbn [fst accessories created] in *.
  rewrite list_lookup_insert_eq in Hl by (by eapply lookup_lt_Some).
  specialize (Hl _ eq_refl). rewrite Hl. clear Hl.
  unfold shutdownAccessory. cbn [instance].
  destruct (shutdown_returns (started c (accessory_context acc)))
    as (s' & Hs & _ & _ & _ & (K1 & K2 & _) & _).
  rewrite Hs. cbn [fst instance]. exists s'.
  split; [done |].
  split; [by eapply Held_shutdown_empty; [apply started_Held | exact Hs] |].
  pose proof (construct_state c (accessory_context acc) idle) as Hc.
  unfold started in *. destruct (construct c (accessory_context acc) idle).
  cbn [fst] in *. destruct Hc as (C1 & C2 & _).
  by rewrite K1, K2, C1, C2.
Qed.

End PlatformFacts.

Lemma new_accessory_is_not_shut_down_witness :
  UUID <$> created
    (shutdownPlatform (fun _ => None)
       (discoverDevice (fun n => "uuid:" +:+ n) garage no_accessories).1).1
  = ["uuid:Garage Lock"].
Proof.
  pose proof (new_accessory_is_not_shut_down (fun n => "uuid:" +:+ n)
                (fun _ => None) garage no_accessories eq_refl eq_refl) as H.
  exact (f_equal (fmap UUID) (proj1 H)).
Defined.

Lemma cached_accessory_is_shut_down_witness :
  exists st,
    instance
    <$> accessories
          (shutdownPlatform (fun _ => None)
             (discoverDevice (fun n => "uuid:" +:+ n) garage garage_cache).1).1
    !! 0%nat = Some (Some (garage, st))
    /\ timers (loop st) = ∅ /\ isLocked st = false.
Proof.
  destruct (cached_accessory_is_shut_down (fun n => "uuid:" +:+ n)
              garage garage_cache 0%nat _ eq_refl eq_refl)
    as (st & H1 & H2 & H3 & _).
  exists st. exact (conj H1 (conj H2 H3)).
Defined.

(** ** What the host and the bus are told *)

Lemma publishState_quiet config d s :
  List.filter is_host_write (publishState config d s) = [].
Proof.
  unfold publishState. destruct (mqttSettings config); [| done].
  by destruct (_ && _).
Qed.

Lemma logError_unpublished config message :
  omap published (logError config message) = [].
Proof. unfold logError. by destruct (includes _ _). Qed.

Lemma updateLockState_told config d t s :
  told config s (updateLockState config d t s).1
    (updateLockState config d t s).2.
Proof.
  destruct (updateLockState_settles config d t s) as [H1 H2].
  unfold told. revert H1 H2. unfold updateLockState.
  destruct (Bool.eqb d (isLocked s) && Bool.eqb (targetState s) d) eqn:Hg;
    [by left |].
  cbn [fst snd]. intros H1 H2. right. exists d.
  split; [done |]. split; [done |].
  split; [destruct d, (isLocked s), (targetState s); cbn in Hg; auto |].
  rewrite List.filter_app, publishState_quiet. by destruct d.
Qed.

Lemma told_after_log config s s' e0 e :
  List.filter is_host_write e0 = [] -> omap published e0 = [] ->
  told config s s' e -> told config s s' (e0 ++ e).
Proof.
  intros H0 P0 [(H1 & H2 & H3 & H4) | (d & H1 & H2 & Hc & H3 & H4)];
    [left | right; exists d];
    by rewrite List.filter_app, omap_app, H0, P0, H3, H4.
Qed.

Lemma told_nothing config s e :
  List.filter is_host_write e = [] -> omap published e = [] ->
  told config s s e.
Proof. by left. Qed.

Lemma told_log config s message : told config s s (logError config message).
Proof.
  apply told_nothing; [apply logError_quiet | apply logError_unpublished].
Qed.

Lemma executeCommand_told config command commandName d s :
  told config s (executeCommand config command commandName d s).1
    (executeCommand config command commandName d s).2.
Proof.
  unfold executeCommand. destruct (truthy command); [by left |].
  pose proof (updateLockState_told config d (or_false (autoLock config)) s).
  destruct (updateLockState config d _ s). cbn [fst snd] in *.
  apply told_after_log;
    [apply logError_quiet | apply logError_unpublished | done].
Qed.

Lemma setTargetState_told config value s :
  told config s (setTargetState config value s).1
    (setTargetState config value s).2.
Proof.
  unfold setTargetState.
  destruct (String.eqb (mode config) "command");
    [| apply updateLockState_told].
  destruct (commandSettings config) as [cs|]; [| apply told_log].
  destruct (value =? LockTargetState.SECURED).
  - destruct (is_positive (lockDelay config));
      [by left | apply executeCommand_told].
  - destruct (is_positive (unlockDelay config));
      [by left | apply executeCommand_told].
Qed.

Lemma stderr_log_unpublished config text stderr :
  omap published
    (if truthy stderr then logError config (text stderr) else []) = [].
Proof. destruct (truthy stderr); [| done]. apply logError_unpublished. Qed.

Lemma resume_told config k r s :
  told config s (resume config k r s).1 (resume config k r s).2.
Proof.
  destruct k as [commandName d|].
  - rewrite resume_command. cbn [fst snd].
    apply told_after_log; [| | apply updateLockState_told];
      destruct r as [stdout stderr | message];
      try (destruct (truthy stderr); [| done]);
      apply logError_quiet || apply logError_unpublished.
  - destruct r as [stdout stderr | message].
    + rewrite resume_monitor_resolved.
      pose proof (stderr_log_quiet config stderr) as Hq.
      pose proof (stderr_log_unpublished config
                    (fun x => tag config +:+ "monitorCommand error output: "
                              +:+ trim x) stderr) as Hp.
      cbv beta in Hp.
      destruct (monitorState stdout) as [b|]; [| by left].
      destruct (negb (Bool.eqb b (isLocked s))); [| by left].
      cbn [fst snd]. apply told_after_log; [done | done |].
      apply updateLockState_told.
    + cbn. apply told_log.
Qed.

Lemma step_told config s ev :
  told config s (step config s ev).1 (step config s ev).2.
Proof.
  destruct ev as [value | topic message | dt | h | pid r | endThrows];
    cbn [step].
  - apply setTargetState_told.
  - unfold busMessage.
    destruct (mqttSettings config) as [ms|]; [| by left].
    destruct (mqttClient s) as [c|]; [| by left].
    destruct (ended c); [by left |].
    destruct (onMessage_observes config ms topic message s) as [-> | [b ->]];
      [by left | apply updateLockState_told].
  - destruct (0 <=? dt); by left.
  - unfold expire. destruct (ready h (loop s)) as [t|]; [| by left].
    change (told config (set_loop (expired h t (loop s)) s)
              (runCallback config (callback t)
                 (set_loop (expired h t (loop s)) s)).1
              (runCallback config (callback t)
                 (set_loop (expired h t (loop s)) s)).2).
    destruct (callback t) as [cs | cs | |]; cbn [runCallback].
    + apply executeCommand_told.
    + apply executeCommand_told.
    + apply updateLockState_told.
    + unfold executeMonitorCommand.
      destruct (commandSettings config) as [cs|]; [| apply told_log].
      destruct (truthy (monitorCommand cs)); [by left | apply told_log].
  - unfold exit. destruct (running (loop s) !! pid) as [k|]; [| by left].
    apply (resume_told config k r (set_loop (exited pid (loop s)) s)).
  - destruct endThrows as [m|].
    + unfold shutdown. destruct (mqttClient s); [by left |].
      left. cbn. by rewrite !(proj1 (clear_kept _ _)),
                    !(proj1 (proj2 (clear_kept _ _))).
    + destruct (shutdown_returns s) as (s' & -> & _ & _ & _ & (K1 & K2 & _) & _).
      left. cbn [fst snd]. rewrite K1, K2. by destruct (mqttClient s).
Qed.

Lemma host_view_filter e :
  host_view (List.filter is_host_write e) = host_view e.
Proof.
  unfold host_view. f_equal; f_equal;
    (induction e as [| [[] v| | | | | | | | |] e IH]; cbn; by rewrite ?IH).
Qed.

Lemma host_view_app e0 e :
  host_view (e0 ++ e)
  = host_view (List.filter is_host_write e0 ++ List.filter is_host_write e).
Proof. by rewrite <- List.filter_app, host_view_filter. Qed.

Lemma told_view config s s' e0 e :
  told config s s' e ->
  host_view e0 = (Some (secured CurrentState (isLocked s)),
                  Some (secured TargetState (targetState s))) ->
  host_view (e0 ++ e) = (Some (secured CurrentState (isLocked s')),
                         Some (secured TargetState (targetState s'))).
Proof.
  intros [(H1 & H2 & H3 & _) | (d & H1 & H2 & _ & H3 & _)] H0;
    rewrite host_view_app, H3.
  - by rewrite app_nil_r, host_view_filter, H1, H2.
  - rewrite H1, H2. unfold host_view, host_writes.
    rewrite !omap_app. cbn. rewrite !last_snoc. by destruct d.
Qed.

Lemma run_view config evs :
  forall s e0,
    host_view e0 = (Some (secured CurrentState (isLocked s)),
                    Some (secured TargetState (targetState s))) ->
    host_view (e0 ++ (run config s evs).2)
    = (Some (secured CurrentState (isLocked (run config s evs).1)),
       Some (secured TargetState (targetState (run config s evs).1))).
Proof.
  induction evs as [| ev evs IH]; intros s e0 H0.
  - cbn. by rewrite app_nil_r.
  - cbn [run]. pose proof (step_told config s ev) as Ht.
    destruct (step config s ev) as [s1 e1]. cbn [fst snd] in Ht.
    specialize (IH s1 (e0 ++ e1) (told_view _ _ _ _ _ Ht H0)).
    destruct (run config s1 evs) as [s2 e2]. cbn [fst snd] in *.
    by rewrite app_assoc.
Qed.

(** X14: the host always knows the lock state.  From the constructor on,
    whatever happens, the values last written to the host's two
    characteristics are the controller's current and target state: a step
    writes to the host exactly when it changes a field, and then both
    characteristics. *)
Theorem host_view_is_current config ctx l evs :
  let c := construct config ctx l in
  let r := run config c.1 evs in
  host_view (c.2 ++ r.2)
  = (Some (secured CurrentState (isLocked r.1)),
     Some (secured TargetState (targetState r.1))).
Proof.
  cbv zeta. apply run_view.
  pose proof (construct_state config ctx l) as H.
  destruct (construct config ctx l) as [s e]. cbn [fst snd].
  destruct H as (H1 & H2 & _ & H4).
  by rewrite <- host_view_filter, H4, H1, H2.
Qed.

(** X15: the bus is told every change, in mqtt mode only.  A step
    publishes exactly when it changes a field while the controller is in
    mqtt mode with a client and a publish topic; then it publishes once,
    to the publish topic, the message configured for the new state
    ([closed] and [opened] when none is).  This holds for the changes the
    bus itself reported, and a step that changes no field publishes
    nothing. *)
Theorem state_changes_are_published config s ev :
  let r := step config s ev in
  omap published r.2
  = if negb (unchanged s r.1) && publishing config s
    then [state_message config (isLocked r.1)] else [].
Proof.
  cbv zeta. unfold unchanged.
  destruct (step_told config s ev)
    as [(H1 & H2 & _ & H4) | (d & H1 & H2 & Hc & _ & H4)]; rewrite H4, H1, H2.
  - by rewrite !Bool.eqb_reflx.
  - replace (Bool.eqb d (isLocked s) && Bool.eqb d (targetState s))
      with false
      by (destruct d, (isLocked s), (targetState s); cbn; intuition).
    cbn [negb andb]. unfold publishing, publishState, state_message.
    destruct (mqttSettings config) as [ms|];
      [| by rewrite andb_false_r].
    by destruct (_ && _ && _).
Qed.

End TSFacts.

(** * Properties of the JavaScript controller *)

Module LegacyFacts.

Import Legacy LegacyProps.

Lemma handle_of_set_handle cb cb' o s :
  handle_of cb' (set_handle cb o s)
  = if decide (cb = cb') then o else handle_of cb' s.
Proof. by destruct cb, cb'. Qed.

Lemma loop_set_handle cb o s : loop (set_handle cb o s) = loop s.
Proof. by destruct cb. Qed.

Lemma Owned_fewer s s' :
  (forall cb, handle_of cb s' = handle_of cb s) -> fewer s' s ->
  Owned s -> Owned s'.
Proof. intros Hf Hs H h t Hl. rewrite Hf. by apply H, Hs. Qed.

Lemma Owned_armed s s' n t :
  timers (loop s') = <[n := t]> (timers (loop s)) ->
  handle_of (callback t) s' = Some n ->
  (forall cb, cb <> callback t -> handle_of cb s' = handle_of cb s) ->
  Owned s -> NoKind (callback t) s -> Owned s'.
Proof.
  intros Ht Hh Ho H Hn h t'. rewrite Ht.
  destruct (decide (h = n)) as [-> | Hne].
  - rewrite lookup_insert_eq. by intros [= <-].
  - rewrite lookup_insert_ne by done. intros Hl.
    rewrite Ho; [by apply H | by apply (Hn h)].
Qed.

Lemma fewer_refl s : fewer s s.
Proof. by intros h t. Qed.

Lemma NoKind_fewer cb s s' : fewer s' s -> NoKind cb s -> NoKind cb s'.
Proof. intros Hs H h t Hl. by apply (H h), Hs. Qed.

Lemma fewer_clearTimeout h s : fewer (clearTimeout h s) s.
Proof.
  intros h' t. cbn. destruct (decide (h' = h)) as [-> | Hne].
  - by rewrite lookup_delete_eq.
  - by rewrite lookup_delete_ne.
Qed.

Lemma cancel_spec cb s :
  Owned s ->
  Owned (cancel cb s) /\ NoKind cb (cancel cb s) /\ fewer (cancel cb s) s
  /\ (forall cb', handle_of cb' (cancel cb s) = handle_of cb' s).
Proof.
  intros H. unfold cancel. destruct (handle_of cb s) as [h|] eqn:Hh.
  - assert (Hf : forall cb', handle_of cb' (clearTimeout h s)
                             = handle_of cb' s) by (by intros []).
    split; [| split; [| split]].
    + apply (Owned_fewer s); [done | apply fewer_clearTimeout | done].
    + intros h' t. cbn. destruct (decide (h' = h)) as [-> | Hne].
      * by rewrite lookup_delete_eq.
      * rewrite lookup_delete_ne by done. intros Hl Hcb.
        specialize (H h' t Hl). rewrite Hcb in H. congruence.
    + apply fewer_clearTimeout.
    + done.
  - split; [done |]. split; [| split; [apply fewer_refl | done]].
    intros h t Hl Hcb. specialize (H h t Hl). rewrite Hcb in H.
    congruence.
Qed.

Lemma release_cancel cb s :
  release cb s = match handle_of cb s with
                 | Some _ => set_handle cb None (cancel cb s)
                 | None => s
                 end.
Proof. unfold release, cancel. by destruct (handle_of cb s). Qed.

Lemma release_spec cb s :
  Owned s ->
  Owned (release cb s) /\ NoKind cb (release cb s) /\ fewer (release cb s) s
  /\ handle_of cb (release cb s) = None
  /\ (forall cb', cb' <> cb ->
        handle_of cb' (release cb s) = handle_of cb' s).
Proof.
  intros H. destruct (cancel_spec cb s H) as (Ho & Hn & Hs & Hf).
  rewrite release_cancel. destruct (handle_of cb s) as [h|] eqn:Hh.
  - assert (Hl : forall h' t,
              timers (loop (set_handle cb None (cancel cb s))) !! h' = Some t
              -> timers (loop (cancel cb s)) !! h' = Some t)
      by (intros h' t; by rewrite loop_set_handle).
    split; [| split; [| split; [| split]]].
    + intros h' t Hl'. apply Hl in Hl'.
      rewrite handle_of_set_handle. destruct (decide (cb = callback t)).
      * by destruct (Hn h' t Hl').
      * by apply Ho.
    + intros h' t Hl'. by apply (Hn h'), Hl.
    + intros h' t Hl'. by apply Hs, Hl.
    + rewrite handle_of_set_handle. by destruct (decide (cb = cb)).
    + intros cb' Hne. rewrite handle_of_set_handle, Hf.
      by destruct (decide (cb = cb')).
  - split; [done |]. split; [| split; [apply fewer_refl | done]].
    intros h t Hl Hcb. specialize (H h t Hl). rewrite Hcb in H.
    congruence.
Qed.

Lemma cleanup_released endThrows s :
  cleanup endThrows s
  = (Returned (set_mqttClient None (released s)),
     match mqttClient s with Some _ => [MqttEnd] | None => [] end).
Proof.
  unfold cleanup.
  change (match pollIntervalObj s with
          | Some h => set_pollIntervalObj None (clearTimeout h s)
          | None => s
          end) with (release PollCb s).
  set (s1 := release PollCb s).
  change (match autoLockTimeout s1 with
          | Some h => set_autoLockTimeout None (clearTimeout h s1)
          | None => s1
          end) with (release AutoLockCb s1).
  set (s2 := release AutoLockCb s1).
  change (match lockDelayTimeout s2 with
          | Some h => set_lockDelayTimeout None (clearTimeout h s2)
          | None => s2
          end) with (release LockDelayCb s2).
  set (s3 := release LockDelayCb s2).
  change (match unlockDelayTimeout s3 with
          | Some h => set_unlockDelayTimeout None (clearTimeout h s3)
          | None => s3
          end) with (release UnlockDelayCb s3).
  change (release UnlockDelayCb s3) with (released s).
  assert (Hc : mqttClient (released s) = mqttClient s).
  { unfold released. subst s3 s2 s1. unfold release.
    repeat match goal with
           | |- context [match handle_of ?cb ?x with _ => _ end] =>
               destruct (handle_of cb x)
           end; done. }
  rewrite Hc. destruct (mqttClient s) as [c|] eqn:E.
  - by destruct endThrows.
  - f_equal. destruct (released s). cbn in *. by subst.
Qed.

Lemma released_spec s :
  Owned s ->
  Owned (released s) /\ (forall cb, handle_of cb (released s) = None)
  /\ timers (loop (released s)) = ∅.
Proof.
  intros H0. unfold released.
  destruct (release_spec PollCb s H0) as (H1 & _ & _ & E1 & K1).
  set (s1 := release PollCb s) in *.
  destruct (release_spec AutoLockCb s1 H1) as (H2 & _ & _ & E2 & K2).
  set (s2 := release AutoLockCb s1) in *.
  destruct (release_spec LockDelayCb s2 H2) as (H3 & _ & _ & E3 & K3).
  set (s3 := release LockDelayCb s2) in *.
  destruct (release_spec UnlockDelayCb s3 H3) as (H4 & _ & _ & E4 & K4).
  set (s4 := release UnlockDelayCb s3) in *.
  assert (Hall : forall cb, handle_of cb s4 = None).
  { intros [].
    - by rewrite K4.
    - done.
    - by rewrite K4, K3.
    - by rewrite K4, K3, K2. }
  split; [done |]. split; [done |].
  apply map_eq. intros h. rewrite lookup_empty.
  destruct (timers (loop s4) !! h) as [t|] eqn:Hl; [| done].
  specialize (H4 h t Hl). by rewrite Hall in H4.
Qed.

Lemma release_fields cb s :
  settings (release cb s) = settings s
  /\ currentState (release cb s) = currentState s
  /\ targetState (release cb s) = targetState s
  /\ mqttClient (release cb s) = mqttClient s
  /\ now (loop (release cb s)) = now (loop s)
  /\ running (loop (release cb s)) = running (loop s).
Proof. unfold release. destruct cb; cbn; by destruct (_ : option nat). Qed.

Lemma released_fields s :
  settings (released s) = settings s
  /\ currentState (released s) = currentState s
  /\ targetState (released s) = targetState s
  /\ mqttClient (released s) = mqttClient s
  /\ now (loop (released s)) = now (loop s)
  /\ running (loop (released s)) = running (loop s).
Proof.
  unfold released.
  destruct (release_fields PollCb s) as (A1 & A2 & A3 & A4 & A5 & A6).
  set (s1 := release PollCb s) in *.
  destruct (release_fields AutoLockCb s1) as (B1 & B2 & B3 & B4 & B5 & B6).
  set (s2 := release AutoLockCb s1) in *.
  destruct (release_fields LockDelayCb s2) as (C1 & C2 & C3 & C4 & C5 & C6).
  set (s3 := release LockDelayCb s2) in *.
  destruct (release_fields UnlockDelayCb s3) as (D1 & D2 & D3 & D4 & D5 & D6).
  repeat split; congruence.
Qed.

(** ** The invariant of the timer fields *)

Lemma Inv_same s s' :
  (forall cb, handle_of cb s' = handle_of cb s) ->
  timers (loop s') = timers (loop s) ->
  Inv s -> Inv s'.
Proof.
  intros Hf Ht [H1 H2]. split.
  - apply (Owned_fewer s); [done | | done]. intros h t. by rewrite Ht.
  - pose proof (Hf LockDelayCb) as Hl. pose proof (Hf UnlockDelayCb) as Hu.
    cbn in Hl, Hu. by rewrite Hl, Hu.
Qed.

Lemma doLock_keeps s : Inv s -> Inv (doLock s).1.
Proof.
  unfold doLock.
  destruct (String.eqb (mode (settings s)) "cmd"
            && truthy (cmdLockCommand (settings s)));
    cbn [fst]; apply Inv_same; by try intros [].
Qed.

Lemma doUnlock_keeps s : Inv s -> Inv (doUnlock s).1.
Proof.
  intros H. unfold doUnlock.
  set (s1 := (if String.eqb (mode (settings s)) "cmd"
                 && truthy (cmdUnlockCommand (settings s))
              then (spawn AfterUnlock s, [Exec (cmdUnlockCommand (settings s))])
              else (s, []))).
  assert (H1 : Inv s1.1).
  { subst s1. destruct (_ && _); cbn [fst]; [| done].
    revert H. apply Inv_same; by try intros []. }
  destruct s1 as [s1 e1]. cbn [fst] in *.
  set (s2 := set_targetState _ _).
  assert (H2 : Inv s2) by (revert H1; apply Inv_same; by try intros []).
  destruct (autoLock (settings s)); [| exact H2].
  change (match autoLockTimeout s2 with
          | Some h => clearTimeout h s2
          | None => s2
          end) with (cancel AutoLockCb s2).
  destruct (cancel_spec AutoLockCb s2 (proj1 H2)) as (Ho & Hn & _ & Hf).
  cbn [fst]. split.
  - eapply (Owned_armed (cancel AutoLockCb s2));
      [cbn; reflexivity | done | by intros [] | exact Ho | exact Hn].
  - pose proof (Hf LockDelayCb) as Hl. pose proof (Hf UnlockDelayCb) as Hu.
    cbn in Hl, Hu |- *. rewrite Hl, Hu. apply H2.
Qed.

Lemma handleTargetStateSet_keeps value s :
  Inv s -> Inv (handleTargetStateSet value s).1.
Proof.
  intros H. unfold handleTargetStateSet.
  set (s0 := set_targetState value s).
  assert (H0 : Inv s0) by (revert H; apply Inv_same; by try intros []).
  change (clearLockUnlockDelays s0)
    with (release UnlockDelayCb (release LockDelayCb s0)).
  destruct (release_spec LockDelayCb s0 (proj1 H0))
    as (H1 & N1 & F1 & E1 & K1).
  set (s1 := release LockDelayCb s0) in *.
  destruct (release_spec UnlockDelayCb s1 H1) as (H2 & N2 & F2 & E2 & K2).
  set (s2 := release UnlockDelayCb s1) in *.
  assert (E1' : lockDelayTimeout s2 = None)
    by (rewrite <- E1; by apply (K2 LockDelayCb)).
  destruct (value =? LockTargetState.SECURED).
  - destruct (0 <? lockDelay (settings s0)); [| by apply doLock_keeps].
    cbn [fst]. split.
    + eapply (Owned_armed s2);
        [cbn; reflexivity | done | by intros [] | exact H2
        | exact (NoKind_fewer _ _ _ F2 N1)].
    + right. exact E2.
  - destruct (value =? LockTargetState.UNSECURED); [| exact H0].
    destruct (0 <? unlockDelay (settings s0)); [| by apply doUnlock_keeps].
    cbn [fst]. split.
    + eapply (Owned_armed s2);
        [cbn; reflexivity | done | by intros [] | exact H2 | exact N2].
    + left. exact E1'.
Qed.

Lemma expired_keeps h t s :
  timers (loop s) !! h = Some t ->
  Inv s -> Inv (set_loop (expired h t (loop s)) s).
Proof.
  intros Hl [H1 H2]. split; [| exact H2].
  intros h' t'. cbn. destruct (period t).
  - destruct (decide (h' = h)) as [-> | Hne].
    + rewrite lookup_insert_eq. intros [= <-]. cbn. by apply (H1 h t).
    + rewrite lookup_insert_ne by done. apply H1.
  - destruct (decide (h' = h)) as [-> | Hne].
    + by rewrite lookup_delete_eq.
    + rewrite lookup_delete_ne by done. apply H1.
Qed.

Lemma expire_keeps h s : Inv s -> Inv (expire h s).1.
Proof.
  intros H. unfold expire.
  destruct (ready h (loop s)) as [t|] eqn:Hr; [| done].
  apply ready_armed_timer in Hr as [Hl _].
  pose proof (expired_keeps h t s Hl H) as H'.
  destruct (callback t); cbn [runCallback].
  - by apply doLock_keeps.
  - by apply doUnlock_keeps.
  - apply doLock_keeps. revert H'. apply Inv_same; by try intros [].
  - cbn [fst]. revert H'. apply Inv_same; by try intros [].
Qed.

Lemma cleanup_keeps endThrows s :
  Inv s -> exists s', (cleanup endThrows s).1 = Returned s' /\ Inv s'.
Proof.
  intros [H _]. rewrite cleanup_released. eexists. split; [done |].
  destruct (released_spec s H) as (Ho & Hn & _).
  split; [exact Ho |]. left. apply (Hn LockDelayCb).
Qed.

Lemma configure_keeps config endThrows s :
  Inv s -> exists s', (configure config endThrows s).1 = Returned s' /\ Inv s'.
Proof.
  intros H. unfold configure.
  set (s1 := set_settings (assign config) s).
  assert (H1 : Inv s1) by (revert H; apply Inv_same; by try intros []).
  rewrite cleanup_released.
  destruct (released_spec s1 (proj1 H1)) as (Ho & Hn & He).
  set (s2 := set_mqttClient None (released s1)).
  assert (H2 : Inv s2).
  { split; [exact Ho |]. left. apply (Hn LockDelayCb). }
  assert (He2 : timers (loop s2) = ∅) by exact He.
  destruct (String.eqb (mode (settings s2)) "mqtt").
  - unfold setupMqtt. destruct (_ || _); cbn [fst]; eexists; (split; [done |]);
      revert H2; apply Inv_same; by try intros [].
  - destruct (String.eqb (mode (settings s2)) "cmd");
      [| by eexists].
    unfold setupCommandPolling. destruct (_ || _); cbn [fst]; eexists;
      (split; [done |]).
    + revert H2; apply Inv_same; by try intros [].
    + split.
      * eapply (Owned_armed s2);
          [cbn; reflexivity | done | by intros [] | exact (proj1 H2) |].
        intros h t. by rewrite He2, lookup_empty.
      * exact (proj2 H2).
Qed.

Lemma step_keeps s ev : Inv s -> Inv (step s ev).1.
Proof.
  intros H.
  destruct ev as [value | message | dt | h | pid r | config endThrows
                 | endThrows]; cbn [step].
  - by apply handleTargetStateSet_keeps.
  - unfold busMessage. destruct (mqttClient s); [| done].
    destruct (String.eqb message _); cbn [fst];
      [revert H; apply Inv_same; by try intros [] |].
    destruct (String.eqb message _); cbn [fst]; [| done].
    revert H; apply Inv_same; by try intros [].
  - destruct (0 <=? dt); [| done]. cbn [fst].
    revert H; apply Inv_same; by try intros [].
  - by apply expire_keeps.
  - unfold exit. destruct (running (loop s) !! pid) as [[| |]|]; [| | | done];
      cbn [fst]; try (revert H; apply Inv_same; by try intros []).
    unfold polled. destruct r as [stdout stderr | m]; cbn [fst].
    + destruct (_ || _); [| destruct (_ || _)];
        revert H; apply Inv_same; by try intros [].
    + revert H; apply Inv_same; by try intros [].
  - destruct (configure_keeps config endThrows s H) as (s' & Hs & H').
    destruct (configure config endThrows s) as [o e]. cbn in Hs. by subst o.
  - destruct (cleanup_keeps endThrows s H) as (s' & Hs & H').
    destruct (cleanup endThrows s) as [o e]. cbn in Hs. by subst o.
Qed.

Lemma run_keeps evs : forall s, Inv s -> Inv (run s evs).1.
Proof.
  induction evs as [| ev evs IH]; intros s H; [done |].
  cbn [run]. pose proof (step_keeps s ev H) as H1.
  destruct (step s ev) as [s1 e1].
  specialize (IH s1 H1). by destruct (run s1 evs).
Qed.

Lemma blank_keeps config : Inv (blank config).
Proof.
  split; [| by left]. intros h t Hl.
  change (timers (loop (blank config))) with (∅ : gmap nat (Timer Callback))
    in Hl.
  by rewrite lookup_empty in Hl.
Qed.

(** The constructor returns. *)
Lemma construct_returns config :
  exists s, (construct config).1 = Returned s /\ Inv s.
Proof.
  unfold construct.
  destruct (cleanup_keeps None (blank config) (blank_keeps config))
    as (s1 & Hs1 & H1).
  destruct (cleanup None (blank config)) as [o1 e1]. cbn in Hs1. subst o1.
  destruct (configure_keeps config None s1 H1) as (s2 & Hs2 & H2).
  destruct (configure config None s1) as [o2 e2]. cbn in Hs2. subst o2.
  by exists s2.
Qed.

Lemma started_keeps config : Inv (started config).
Proof.
  unfold started. destruct (construct_returns config) as (s & -> & H).
  exact H.
Qed.

(** ** [cleanup] *)

Lemma cleanup_idle endThrows s :
  (forall cb, handle_of cb s = None) -> mqttClient s = None ->
  cleanup endThrows s = (Returned s, []).
Proof.
  intros Hn Hc. unfold cleanup.
  pose proof (Hn PollCb) as H1. pose proof (Hn AutoLockCb) as H2.
  pose proof (Hn LockDelayCb) as H3. pose proof (Hn UnlockDelayCb) as H4.
  cbn in H1, H2, H3, H4. by rewrite H1, H2, H3, H4, Hc.
Qed.



(** ** The two delay timers *)

(** In the JavaScript controller a lock-delay timer and an unlock-delay
    timer are never armed together. *)
Lemma delay_timers_exclusive config evs h1 t1 h2 t2 :
  let s := (run (started config) evs).1 in
  timers (loop s) !! h1 = Some t1 -> callback t1 = LockDelayCb ->
  timers (loop s) !! h2 = Some t2 -> callback t2 = UnlockDelayCb ->
  False.
Proof.
  intros s Hl1 Hc1 Hl2 Hc2.
  assert (H : Inv s) by apply run_keeps, started_keeps.
  destruct H as [Ho Hx].
  pose proof (Ho h1 t1 Hl1) as E1. pose proof (Ho h2 t2 Hl2) as E2.
  rewrite Hc1 in E1. rewrite Hc2 in E2. cbn in E1, E2.
  destruct Hx; congruence.
Qed.

(** A request whose direction has no delay does not cancel the pending
    timer of the other direction: with a lock delay of 5 s and no unlock
    delay, an unlock 1 s after a lock request runs the unlock command at
    once and the lock command at 5 s, and the lock ends locked. *)
Lemma undelayed_request_keeps_pending_timer :
  let r := run (started shed)
             [HostSet LockTargetState.SECURED; Elapse 1000;
              HostSet LockTargetState.UNSECURED; Elapse 4000;
              Expire 1%nat] in
  List.filter is_side_effect r.2 = [Exec "shed unlock"; Exec "shed lock"]
  /\ currentState r.1 = LockCurrentState.SECURED.
Proof. by vm_compute. Qed.

(** ** Requests with a delay *)

Lemma release_loop cb s :
  nextTimer (loop (release cb s)) = nextTimer (loop s)
  /\ nextPid (loop (release cb s)) = nextPid (loop s).
Proof. unfold release. destruct cb; cbn; by destruct (_ : option nat). Qed.



(** ** Auto-lock *)

Lemma doLock_spec s :
  doLock s
  = (set_targetState LockTargetState.SECURED
       (set_currentState LockCurrentState.SECURED
          (if String.eqb (mode (settings s)) "cmd"
              && truthy (cmdLockCommand (settings s))
           then spawn AfterLock s else s)),
     lock_action s
     ++ [UpdateCharacteristic CurrentState LockCurrentState.SECURED;
         UpdateCharacteristic TargetState LockTargetState.SECURED]).
Proof.
  unfold doLock, lock_action.
  destruct (String.eqb (mode (settings s)) "cmd"
            && truthy (cmdLockCommand (settings s))); cbn;
    by rewrite <- app_assoc.
Qed.




(** ** Observations *)


Lemma toUpperCase_idemp s : toUpperCase (toUpperCase s) = toUpperCase s.
Proof.
  induction s as [| c s IH]; [done |]. cbn. rewrite IH. f_equal.
  destruct c as [[] [] [] [] [] [] [] []]; by vm_compute.
Qed.

(** X18: the output of the poll command is read without regard to case:
    two outputs of ASCII characters that agree when written in capitals
    are read alike, in every state and under every configuration. *)
Theorem poll_output_case_insensitive stdout stdout' stderr s :
  ascii_only stdout = true -> ascii_only stdout' = true ->
  toUpperCase stdout = toUpperCase stdout' ->
  polled (Resolved stdout stderr) s = polled (Resolved stdout' stderr) s.
Proof.
  intros _ _ H. unfold polled.
  by rewrite <- !TSFacts.trim_upper, H.
Qed.

Lemma poll_output_case_insensitive_witness :
  polled (Resolved "open" EmptyString) (started shed)
  = polled (Resolved "Open" EmptyString) (started shed).
Proof.
  exact (poll_output_case_insensitive "open" "Open" EmptyString (started shed)
           eq_refl eq_refl eq_refl).
Defined.

(** ** [configure] *)

Lemma released_loop s :
  nextTimer (loop (released s)) = nextTimer (loop s)
  /\ nextPid (loop (released s)) = nextPid (loop s).
Proof.
  unfold released.
  destruct (release_loop PollCb s) as (A1 & A2).
  set (s1 := release PollCb s) in *.
  destruct (release_loop AutoLockCb s1) as (B1 & B2).
  set (s2 := release AutoLockCb s1) in *.
  destruct (release_loop LockDelayCb s2) as (C1 & C2).
  set (s3 := release LockDelayCb s2) in *.
  destruct (release_loop UnlockDelayCb s3) as (D1 & D2).
  split; congruence.
Qed.

Lemma configure_spec config endThrows s :
  Owned s ->
  exists s',
    configure config endThrows s
    = (Returned s',
       [SetName (or_str (Config.lockName config) "Power Lock")]
       ++ match mqttClient s with Some _ => [MqttEnd] | None => [] end
       ++ match mqttClient s' with
          | Some _ =>
              [MqttConnect (mqttBrokerUrl (settings s')) None
                 (credential (mqttUsername (settings s')))
                 (credential (mqttPassword (settings s')))]
          | None => []
          end)
    /\ (currentState s' = currentState s /\ targetState s' = targetState s)
    /\ mqttClient s'
       = (if String.eqb (mode (settings s')) "mqtt" then Some tt else None)
    /\ timers (loop s')
       = (if String.eqb (mode (settings s')) "cmd"
          then {[ nextTimer (loop s) :=
                    {| due := now (loop s)
                              + cmdPollInterval (settings s') * 1000;
                       callback := PollCb;
                       period := Some (cmdPollInterval (settings s') * 1000) |} ]}
          else ∅)
    /\ (autoLockTimeout s' = None /\ lockDelayTimeout s' = None
        /\ unlockDelayTimeout s' = None)
    /\ (mode (settings s') = or_str (Config.mode config) "dummy"
        \/ mode (settings s') = "dummy")
    /\ running (loop s') = running (loop s).
Proof.
  intros H. unfold configure.
  set (s1 := set_settings (assign config) s).
  assert (H1 : Owned s1) by (revert H; apply Owned_fewer; by try intros []).
  rewrite cleanup_released.
  destruct (released_spec s1 H1) as (Ho & Hn & He).
  destruct (released_fields s1) as (F1 & F2 & F3 & F4 & F5 & F6).
  destruct (released_loop s1) as (L1 & L2).
  pose proof (Hn PollCb) as N1. pose proof (Hn AutoLockCb) as N2.
  pose proof (Hn LockDelayCb) as N3. pose proof (Hn UnlockDelayCb) as N4.
  cbn [handle_of] in N1, N2, N3, N4.
  set (s2 := set_mqttClient None (released s1)).
  change (settings s2) with (settings (released s1)).
  change (mqttClient s1) with (mqttClient s).
  change (lockName (settings s1)) with (or_str (Config.lockName config) "Power Lock").
  rewrite F1.
  set (r := if String.eqb (mode (settings s1)) "mqtt" then setupMqtt s2
            else if String.eqb (mode (settings s1)) "cmd"
                 then setupCommandPolling s2 else (s2, [])).
  assert (Hr :
    r.2 = match mqttClient r.1 with
          | Some _ =>
              [MqttConnect (mqttBrokerUrl (settings r.1)) None
                 (credential (mqttUsername (settings r.1)))
                 (credential (mqttPassword (settings r.1)))]
          | None => []
          end
    /\ (currentState r.1 = currentState s /\ targetState r.1 = targetState s)
    /\ mqttClient r.1
       = (if String.eqb (mode (settings r.1)) "mqtt" then Some tt else None)
    /\ timers (loop r.1)
       = (if String.eqb (mode (settings r.1)) "cmd"
          then {[ nextTimer (loop s) :=
                    {| due := now (loop s)
                              + cmdPollInterval (settings r.1) * 1000;
                       callback := PollCb;
                       period := Some (cmdPollInterval (settings r.1) * 1000) |} ]}
          else ∅)
    /\ (autoLockTimeout r.1 = None /\ lockDelayTimeout r.1 = None
        /\ unlockDelayTimeout r.1 = None)
    /\ (mode (settings r.1) = or_str (Config.mode config) "dummy"
        \/ mode (settings r.1) = "dummy")
    /\ running (loop r.1) = running (loop s)).
  { subst r.
    destruct (String.eqb_spec (mode (settings s1)) "mqtt") as [Em | Em].
    - unfold setupMqtt. change (settings s2) with (settings (released s1)).
      rewrite F1.
      destruct (_ || _); cbn;
        rewrite ?F1, ?F2, ?F3, ?He, ?N2, ?N3, ?N4, ?F6, ?Em; cbn;
        repeat split; auto.
    - destruct (String.eqb_spec (mode (settings s1)) "cmd") as [Ec | Ec].
      + unfold setupCommandPolling.
        change (settings s2) with (settings (released s1)). rewrite F1.
        destruct (_ || _); cbn;
          rewrite ?F1, ?F2, ?F3, ?He, ?N2, ?N3, ?N4, ?F5, ?F6, ?L1, ?Ec; cbn;
          repeat split; auto.
      + cbn. rewrite ?F1, ?F2, ?F3, ?He, ?N2, ?N3, ?N4, ?F6. cbn.
        destruct (String.eqb_spec (or_str (Config.mode config) "dummy") "mqtt");
          [done |].
        destruct (String.eqb_spec (or_str (Config.mode config) "dummy") "cmd");
          [done |].
        repeat split; auto. }
  destruct r as [s3 e']. cbn [fst snd] in Hr. destruct Hr as (-> & Hr).
  by exists s3.
Qed.

(** X19: [configure] leaves exactly the machinery of the mode it ends in.
    In every state a run reaches it returns, also when the old client's
    [end] throws; it names the service, ends the old client before it
    connects a new one, and keeps the lock state.  Afterwards the client
    is set exactly in mode [mqtt], the poll interval is the only timer and
    armed exactly in mode [cmd], the auto-lock and delay timers of the
    old configuration are gone; the mode is the configured one or, when
    the settings of that mode are incomplete, [dummy]; processes in flight
    are not stopped. *)
Theorem configure_sets_up_one_mode cfg evs config endThrows :
  let s := (run (started cfg) evs).1 in
  exists s',
    configure config endThrows s
    = (Returned s',
       [SetName (or_str (Config.lockName config) "Power Lock")]
       ++ match mqttClient s with Some _ => [MqttEnd] | None => [] end
       ++ match mqttClient s' with
          | Some _ =>
              [MqttConnect (mqttBrokerUrl (settings s')) None
                 (credential (mqttUsername (settings s')))
                 (credential (mqttPassword (settings s')))]
          | None => []
          end)
    /\ (currentState s' = currentState s /\ targetState s' = targetState s)
    /\ mqttClient s'
       = (if String.eqb (mode (settings s')) "mqtt" then Some tt else None)
    /\ timers (loop s')
       = (if String.eqb (mode (settings s')) "cmd"
          then {[ nextTimer (loop s) :=
                    {| due := now (loop s)
                              + cmdPollInterval (settings s') * 1000;
                       callback := PollCb;
                       period := Some (cmdPollInterval (settings s') * 1000) |} ]}
          else ∅)
    /\ (autoLockTimeout s' = None /\ lockDelayTimeout s' = None
        /\ unlockDelayTimeout s' = None)
    /\ (mode (settings s') = or_str (Config.mode config) "dummy"
        \/ mode (settings s') = "dummy")
    /\ running (loop s') = running (loop s).
Proof.
  intros s. apply configure_spec.
  assert (H : Inv s) by apply run_keeps, started_keeps. apply H.
Qed.

(** ** The lock state *)

Lemma doLock_state s :
  currentState (doLock s).1 = LockCurrentState.SECURED
  /\ targetState (doLock s).1 = LockTargetState.SECURED.
Proof. by rewrite doLock_spec. Qed.

Lemma doUnlock_state s :
  currentState (doUnlock s).1 = LockCurrentState.UNSECURED
  /\ targetState (doUnlock s).1 = LockTargetState.UNSECURED.
Proof.
  unfold doUnlock.
  destruct (String.eqb (mode (settings s)) "cmd"
            && truthy (cmdUnlockCommand (settings s)));
    destruct (autoLock (settings s)); cbn;
    by repeat match goal with
              | |- context [match ?o with Some _ => _ | None => _ end] =>
                  destruct o
              end.
Qed.

Lemma clearLockUnlockDelays_state s :
  currentState (clearLockUnlockDelays s) = currentState s.
Proof.
  change (clearLockUnlockDelays s)
    with (release UnlockDelayCb (release LockDelayCb s)).
  destruct (release_fields LockDelayCb s) as (_ & A & _).
  destruct (release_fields UnlockDelayCb (release LockDelayCb s))
    as (_ & B & _).
  congruence.
Qed.

Lemma step_Binary s ev : Binary s -> Binary (step s ev).1.
Proof.
  intros H.
  destruct ev as [value | message | dt | h | pid r | config endThrows
                 | endThrows]; cbn [step].
  - unfold handleTargetStateSet.
    destruct (value =? LockTargetState.SECURED).
    + destruct (0 <? _); [| left; apply doLock_state].
      unfold Binary. cbn -[clearLockUnlockDelays].
      by rewrite clearLockUnlockDelays_state.
    + destruct (value =? LockTargetState.UNSECURED); [| exact H].
      destruct (0 <? _); [| right; apply doUnlock_state].
      unfold Binary. cbn -[clearLockUnlockDelays].
      by rewrite clearLockUnlockDelays_state.
  - unfold busMessage. destruct (mqttClient s); [| done].
    destruct (String.eqb message _); [by right |].
    destruct (String.eqb message _); [by left | done].
  - by destruct (0 <=? dt).
  - unfold expire. destruct (ready h (loop s)) as [t|]; [| done].
    destruct (callback t); cbn [runCallback].
    + left; apply doLock_state.
    + right; apply doUnlock_state.
    + left; apply doLock_state.
    + exact H.
  - unfold exit. destruct (running (loop s) !! pid) as [[| |]|]; try done.
    unfold polled. destruct r as [stdout stderr | m]; [| done].
    destruct (_ || _); [by right |]. destruct (_ || _); [by left | done].
  - unfold configure. rewrite cleanup_released.
    destruct (released_fields (set_settings (assign config) s))
      as (_ & F2 & _).
    set (s2 := set_mqttClient None _).
    assert (H2 : Binary s2) by (unfold Binary; cbn; by rewrite F2).
    destruct (String.eqb _ "mqtt").
    + unfold setupMqtt. by destruct (_ || _).
    + destruct (String.eqb _ "cmd"); [| done].
      unfold setupCommandPolling. by destruct (_ || _).
  - rewrite cleanup_released. cbn.
    destruct (released_fields s) as (_ & F2 & _).
    unfold Binary. cbn. by rewrite F2.
Qed.

Lemma construct_spec config :
  exists s,
    construct config
    = (Returned s,
       [SetName (or_str (Config.lockName config) "Power Lock")]
       ++ match mqttClient s with
          | Some _ =>
              [MqttConnect (mqttBrokerUrl (settings s)) None
                 (credential (mqttUsername (settings s)))
                 (credential (mqttPassword (settings s)))]
          | None => []
          end
       ++ [UpdateCharacteristic CurrentState LockCurrentState.SECURED;
           UpdateCharacteristic TargetState LockTargetState.SECURED])
    /\ currentState s = LockCurrentState.SECURED
    /\ targetState s = LockTargetState.SECURED.
Proof.
  unfold construct.
  rewrite (cleanup_idle None (blank config)) by (by try intros []).
  destruct (configure_spec config None (blank config)
              (proj1 (blank_keeps config)))
    as (s' & -> & (C1 & C2) & _).
  exists s'. unfold updateHomeKitStates. rewrite C1, C2. by cbn.
Qed.

(** X20: the JavaScript controller keeps no lock state across restarts
    and never reports a state other than locked or unlocked.  Whatever the
    configuration, the constructor returns a controller that is locked,
    with locked as its target, and tells the host so after it set up the
    mode; and in every state a run reaches the current state is locked or
    unlocked. *)
Theorem starts_locked_and_stays_binary config evs :
  (exists s,
     construct config
     = (Returned s,
        [SetName (or_str (Config.lockName config) "Power Lock")]
        ++ match mqttClient s with
           | Some _ =>
               [MqttConnect (mqttBrokerUrl (settings s)) None
                  (credential (mqttUsername (settings s)))
                  (credential (mqttPassword (settings s)))]
           | None => []
           end
        ++ [UpdateCharacteristic CurrentState LockCurrentState.SECURED;
            UpdateCharacteristic TargetState LockTargetState.SECURED])
     /\ currentState s = LockCurrentState.SECURED
     /\ targetState s = LockTargetState.SECURED)
  /\ Binary (run (started config) evs).1.
Proof.
  split; [apply construct_spec |].
  assert (H0 : Binary (started config)).
  { unfold started. destruct (construct_spec config) as (s & -> & C1 & _).
    by left. }
  revert H0. generalize (started config).
  induction evs as [| ev evs IH]; intros s H; [done |].
  cbn [run]. pose proof (step_Binary s ev H) as H1.
  destruct (step s ev) as [s1 e1].
  specialize (IH s1 H1). by destruct (run s1 evs).
Qed.

(** ** The platform *)

Lemma handled_insert accs i a u st :
  accs !! i = Some a ->
  (forall u', handler_UUID a = Some u' -> u' = u) ->
  handled accs ⊆ handled (<[i := Handler u st]> accs)
  /\ u ∈ handled (<[i := Handler u st]> accs).
Proof.
  intros Hi Ha.
  assert (Hin : Handler u st ∈ <[i := Handler u st]> accs)
    by (apply list_elem_of_insert; by eapply lookup_lt_Some).
  split.
  - intros x (y & Hy & Hx)%list_elem_of_omap.
    apply list_elem_of_omap.
    apply list_elem_of_lookup in Hy as [j Hj].
    destruct (decide (j = i)) as [-> | Hne].
    + rewrite Hi in Hj. injection Hj as <-.
      exists (Handler u st). split; [done |]. cbn. f_equal.
      symmetry. by apply Ha.
    + exists y. split; [| done].
      apply list_elem_of_lookup. exists j.
      by rewrite list_lookup_insert_ne.
  - apply list_elem_of_omap. by exists (Handler u st).
Qed.

Section LegacyPlatformFacts.

Variable generate : string -> string.

Lemma configureLock_handlers endThrows c accs :
  Forall handler_ok accs ->
  exists accs',
    (configureLock generate endThrows c accs).1 = Returned accs'
    /\ Forall handler_ok accs'
    /\ handled accs ⊆ handled accs'
    /\ (named c = true -> uuid_of generate c ∈ handled accs').
Proof.
  intros H. unfold configureLock, named, uuid_of.
  destruct (Config.lockName c) as [n|]; cbn [truthy_opt default];
    [| by exists accs].
  destruct (truthy n); cbn [negb]; [| by exists accs].
  destruct (construct_returns c) as (st & Hst & Hinv).
  destruct (construct c) as [o e]. cbn [fst] in Hst. subst o.
  assert (Hcreate : exists accs',
            (Returned (accs ++ [Handler (generate n) st]),
             e ++ [RegisterPlatformAccessories (generate n)]).1
            = Returned accs'
            /\ Forall handler_ok accs'
            /\ handled accs ⊆ handled accs'
            /\ (true = true -> generate n ∈ handled accs')).
  { eexists. split; [done |]. unfold handled. rewrite omap_app.
    split; [apply Forall_app; split; [done | by constructor] |].
    split; [intros x Hx; apply elem_of_app; by left |].
    intros _. apply elem_of_app. right. cbn. by apply list_elem_of_singleton. }
  destruct (list_find _ _) as [[i [u dn | u st0]]|] eqn:Hf; [| | exact Hcreate].
  - destruct (truthy dn); [| exact Hcreate].
    apply list_find_Some in Hf as (Hi & Hu & _). cbn in Hu. subst u.
    destruct (handled_insert accs i _ (generate n) st Hi) as [Hs Hin];
      [by intros u' [=] |].
    eexists. split; [done |].
    split; [by apply Forall_insert |]. done.
  - apply list_find_Some in Hf as (Hi & Hu & _). cbn in Hu. subst u.
    pose proof (Forall_lookup_1 _ _ _ _ H Hi) as Hinv0. cbn in Hinv0.
    destruct (configure_keeps c endThrows st0 Hinv0) as (st' & Hc & Hinv').
    destruct (configure c endThrows st0) as [o' e']. cbn [fst] in Hc. subst o'.
    destruct (handled_insert accs i _ (generate n) st' Hi) as [Hs Hin];
      [by intros u' [= <-] |].
    eexists. split; [done |].
    split; [by apply Forall_insert |]. done.
Qed.

Lemma configureAccessories_handlers endThrows locks :
  forall accs,
    Forall handler_ok accs ->
    exists accs',
      (configureAccessories generate endThrows locks accs).1 = Returned accs'
      /\ Forall handler_ok accs'
      /\ handled accs ⊆ handled accs'
      /\ uuid_of generate <$> List.filter named locks ⊆ handled accs'.
Proof.
  induction locks as [| c locks IH]; intros accs H.
  - exists accs. repeat split; try done. intros x Hx. by apply elem_of_nil in Hx.
  - cbn [configureAccessories List.filter].
    destruct (configureLock_handlers endThrows c accs H)
      as (accs1 & E1 & H1 & S1 & N1).
    destruct (configureLock generate endThrows c accs) as [o1 e1].
    cbn [fst] in E1. subst o1.
    destruct (IH accs1 H1) as (accs2 & E2 & H2 & S2 & N2).
    destruct (configureAccessories generate endThrows locks accs1) as [o2 e2].
    cbn [fst] in *. subst o2. exists accs2.
    split; [done |]. split; [done |].
    split; [intros x Hx; by apply S2, S1 |].
    destruct (named c); [| done].
    cbn [fmap list_fmap]. intros x [-> | Hx]%elem_of_cons.
    + by apply S2, N1.
    + by apply N2.
Qed.

End LegacyPlatformFacts.

Lemma shutdownAll_quiet endThrows accs :
  Forall handler_ok accs ->
  exists accs',
    (shutdownAll endThrows accs).1 = Returned accs'
    /\ Forall quiet accs'
    /\ handled accs' = handled accs
    /\ entry_UUID <$> accs' = entry_UUID <$> accs.
Proof.
  induction accs as [| a accs IH]; intros H; [by exists [] |].
  apply Forall_cons in H as [Ha H].
  destruct (IH H) as (accs' & E & Q & Hh & Hu).
  cbn [shutdownAll]. destruct a as [u dn | u st].
  - destruct (shutdownAll endThrows accs) as [o e]. cbn [fst] in *. subst o.
    exists (Cached u dn :: accs'). cbn [JS.bind].
    split; [done |]. split; [by constructor |].
    unfold handled in *. cbn. by rewrite Hh, Hu.
  - rewrite cleanup_released.
    destruct (shutdownAll endThrows accs) as [o e]. cbn [fst] in *. subst o.
    eexists. cbn [JS.bind]. split; [done |].
    destruct (released_spec st (proj1 Ha)) as (_ & _ & He).
    split; [by constructor |].
    unfold handled in *. cbn. by rewrite Hh, Hu.
Qed.

(** X21: the JavaScript platform cleans up every controller it has, new
    or wrapped around a cached accessory.  Starting from the accessories
    of the cache, [configureAccessories] returns and leaves a controller
    for every lock that has a name; the handler of the host's [shutdown]
    then returns and leaves every controller with no timer armed and no
    client, whether or not a client's [end] throws. *)
Theorem shutdown_cleans_every_controller generate endThrows endThrows'
    locks cached :
  exists accs accs',
    (configureAccessories generate endThrows locks (cache cached)).1
    = Returned accs
    /\ uuid_of generate <$> List.filter named locks ⊆ handled accs
    /\ (shutdownAll endThrows' accs).1 = Returned accs'
    /\ Forall quiet accs'
    /\ handled accs' = handled accs
    /\ entry_UUID <$> accs' = entry_UUID <$> accs.
Proof.
  assert (H0 : Forall handler_ok (cache cached)).
  { unfold cache. apply Forall_fmap, Forall_true. by intros []. }
  destruct (configureAccessories_handlers generate endThrows locks _ H0)
    as (accs & E & H & _ & N).
  destruct (shutdownAll_quiet endThrows' accs H) as (accs' & E' & Q & Hh & Hu).
  by exists accs, accs'.
Qed.

Lemma cleanup_registers_nothing endThrows s :
  omap TSProps.registered (cleanup endThrows s).2 = [].
Proof. rewrite cleanup_released. cbn. by destruct (mqttClient s). Qed.

Lemma configure_registers_nothing config endThrows s :
  omap TSProps.registered (configure config endThrows s).2 = [].
Proof.
  unfold configure. rewrite cleanup_released.
  set (s2 := set_mqttClient None _).
  assert (He : forall r : State * list effect,
            omap TSProps.registered r.2 = [] ->
            omap TSProps.registered
              (let '(s3, e') := r in
               (Returned s3,
                [SetName (lockName (settings (set_settings (assign config) s)))]
                ++ match mqttClient (set_settings (assign config) s) with
                   | Some _ => [MqttEnd]
                   | None => []
                   end ++ e')).2 = []).
  { intros [s3 e'] Hr. cbn in *. rewrite omap_app, Hr.
    by destruct (mqttClient s). }
  apply He.
  destruct (String.eqb _ "mqtt").
  - unfold setupMqtt. by destruct (_ || _).
  - destruct (String.eqb _ "cmd"); [| done].
    unfold setupCommandPolling. by destruct (_ || _).
Qed.

Lemma construct_registers_nothing config :
  omap TSProps.registered (construct config).2 = [].
Proof.
  destruct (construct_spec config) as (s & -> & _). cbn.
  by destruct (mqttClient s).
Qed.

Section RegistrationFacts.

Variable generate : string -> string.

Lemma configureLock_registers endThrows c accs :
  Forall cached_named accs ->
  forall accs',
    (configureLock generate endThrows c accs).1 = Returned accs' ->
    Forall cached_named accs'
    /\ omap TSProps.registered (configureLock generate endThrows c accs).2
       = (if named c
             && bool_decide (uuid_of generate c ∉ entry_UUID <$> accs)
          then [uuid_of generate c] else [])
    /\ entry_UUID <$> accs'
       = (entry_UUID <$> accs)
         ++ omap TSProps.registered (configureLock generate endThrows c accs).2.
Proof.
  intros H accs'. unfold configureLock, named, uuid_of.
  destruct (Config.lockName c) as [n|]; cbn [truthy_opt default andb];
    [| intros [= <-]; by rewrite app_nil_r].
  destruct (truthy n); cbn [negb andb];
    [| intros [= <-]; by rewrite app_nil_r].
  pose proof (construct_registers_nothing c) as Hc.
  destruct (list_find _ _) as [[i [u dn | u st0]]|] eqn:Hf.
  - apply list_find_Some in Hf as (Hi & Hu & _). cbn in Hu. subst u.
    pose proof (Forall_lookup_1 _ _ _ _ H Hi) as Hn. cbn in Hn. rewrite Hn.
    assert (Hin : generate n ∈ entry_UUID <$> accs).
    { apply list_elem_of_fmap. exists (Cached (generate n) dn).
      split; [done |]. by eapply list_elem_of_lookup_2. }
    rewrite bool_decide_eq_false_2 by (by intros Hnot).
    destruct (construct c) as [[st|m] e]; cbn [fst snd] in *; [| done].
    intros [= <-]. split; [by apply Forall_insert |]. split; [done |].
    rewrite Hc, app_nil_r, list_fmap_insert. apply list_insert_id.
    by rewrite list_lookup_fmap, Hi.
  - apply list_find_Some in Hf as (Hi & Hu & _). cbn in Hu. subst u.
    assert (Hin : generate n ∈ entry_UUID <$> accs).
    { apply list_elem_of_fmap. exists (Handler (generate n) st0).
      split; [done |]. by eapply list_elem_of_lookup_2. }
    rewrite bool_decide_eq_false_2 by (by intros Hnot).
    pose proof (configure_registers_nothing c endThrows st0) as Hg.
    destruct (configure c endThrows st0) as [[st'|m] e]; cbn [fst snd] in *;
      [| done].
    intros [= <-]. split; [by apply Forall_insert |]. split; [done |].
    rewrite Hg, app_nil_r, list_fmap_insert. apply list_insert_id.
    by rewrite list_lookup_fmap, Hi.
  - apply list_find_None in Hf.
    assert (Hnot : generate n ∉ entry_UUID <$> accs).
    { intros (a & Hu & Hin)%list_elem_of_fmap_1.
      by apply (proj1 (Forall_forall _ _) Hf a Hin). }
    rewrite bool_decide_eq_true_2 by done.
    destruct (construct c) as [[st|m] e]; cbn [fst snd] in *; [| done].
    intros [= <-]. rewrite omap_app, Hc. cbn.
    split; [apply Forall_app; split; [done | by constructor] |].
    split; [done |]. by rewrite fmap_app.
Qed.

Lemma configureAccessories_registers endThrows locks :
  forall accs accs',
    Forall cached_named accs ->
    (configureAccessories generate endThrows locks accs).1 = Returned accs' ->
    let R := omap TSProps.registered
               (configureAccessories generate endThrows locks accs).2 in
    NoDup R
    /\ (forall u, u ∈ R <->
          u ∈ uuid_of generate <$> List.filter named locks
          /\ u ∉ entry_UUID <$> accs)
    /\ entry_UUID <$> accs' = (entry_UUID <$> accs) ++ R.
Proof.
  induction locks as [| c locks IH]; intros accs accs' H; cbv zeta.
  - cbn. intros [= <-]. rewrite app_nil_r.
    split; [constructor |]. split; [| done].
    intros u. split; [by intros ?%elem_of_nil | by intros [?%elem_of_nil _]].
  - cbn [configureAccessories List.filter].
    pose proof (configureLock_registers endThrows c accs H) as H1.
    destruct (configureLock generate endThrows c accs) as [[accs1|m] e1];
      [| done].
    destruct (H1 accs1 eq_refl) as (N1 & R1 & U1). cbn [fst snd] in *.
    specialize (IH accs1 accs' N1).
    destruct (configureAccessories generate endThrows locks accs1) as [o2 e2].
    cbn [fst snd] in *. intros E. destruct (IH E) as (D2 & M2 & U2).
    rewrite omap_app, U2, U1, <- app_assoc.
    split; [| split; [| done]].
    + apply NoDup_app. split; [| split; [| done]].
      * rewrite R1. destruct (_ && _); [apply NoDup_singleton | constructor].
      * intros u Hu Hu2. apply M2 in Hu2 as [_ Hnot]. apply Hnot.
        rewrite U1. apply elem_of_app. by right.
    + intros u. rewrite elem_of_app, M2, U1, R1.
      destruct (named c) eqn:Hn; cbn [andb fmap list_fmap].
      * destruct (bool_decide_reflect (uuid_of generate c ∉ entry_UUID <$> accs))
          as [Hc | Hc].
        -- rewrite list_elem_of_singleton, elem_of_cons, elem_of_app,
             list_elem_of_singleton.
           split.
           ++ intros [-> | [Hu Hnot]]; [by split; [left |] |].
              split; [by right | tauto].
           ++ intros [[-> | Hu] Hnot]; [by left |].
              destruct (decide (u = uuid_of generate c)) as [-> | Hne];
                [by left |].
              right. split; [done |]. tauto.
        -- rewrite app_nil_r, elem_of_cons. split.
           ++ intros [?%elem_of_nil | [Hu Hnot]]; [done |].
              split; [by right | done].
           ++ intros [[-> | Hu] Hnot]; [by destruct Hc |].
              right. by split.
      * rewrite app_nil_r. split.
        -- intros [?%elem_of_nil | HH]; [done | exact HH].
        -- intros HH. by right.
Qed.

(** X22: the JavaScript platform registers a lock's accessory once.  When
    the cached accessories have display names, [configureAccessories]
    registers exactly the UUIDs of the named locks that are not in the
    cache, each one once however often the name is configured; a lock
    whose accessory is cached, or was registered earlier in the pass, is
    configured on that accessory. *)
Theorem registers_each_new_lock_once endThrows locks cached :
  forallb (fun x => truthy x.2) cached = true ->
  let r := configureAccessories generate endThrows locks (cache cached) in
  let R := omap TSProps.registered r.2 in
  NoDup R
  /\ (forall u, u ∈ R <->
        u ∈ uuid_of generate <$> List.filter named locks /\ u ∉ cached.*1)
  /\ exists accs, r.1 = Returned accs /\ entry_UUID <$> accs = cached.*1 ++ R.
Proof.
  intros Hc. cbv zeta.
  assert (H0 : Forall handler_ok (cache cached)).
  { unfold cache. apply Forall_fmap, Forall_true. by intros []. }
  assert (N0 : Forall cached_named (cache cached)).
  { unfold cache. apply Forall_fmap.
    apply Forall_forall. intros x Hx.
    by apply (proj1 (forallb_forall _ _) Hc), list_elem_of_In. }
  assert (EU : entry_UUID <$> cache cached = cached.*1).
  { unfold cache. rewrite <- list_fmap_compose. done. }
  destruct (configureAccessories_handlers generate endThrows locks _ H0)
    as (accs & E & _).
  destruct (configureAccessories_registers endThrows locks _ accs N0 E)
    as (D & M & U).
  rewrite EU in *. split; [done |]. split; [done |]. by exists accs.
Qed.

End RegistrationFacts.

Lemma registers_each_new_lock_once_witness :
  NoDup (omap TSProps.registered
           (configureAccessories (fun n => "uuid:" +:+ n) None street
              (cache [("uuid:Porch", "Porch")])).2).
Proof.
  pose proof (registers_each_new_lock_once (fun n => "uuid:" +:+ n) None
                street [("uuid:Porch", "Porch")] eq_refl) as H.
  exact (proj1 H).
Defined.

(** ** Fresh handles *)

Lemma Fresh_fewer s s' :
  (forall cb, handle_of cb s' = None \/ handle_of cb s' = handle_of cb s) ->
  (nextTimer (loop s) <= nextTimer (loop s'))%nat ->
  Fresh s -> Fresh s'.
Proof.
  intros Hf Hn [D B]. split.
  - intros cb cb' h H1 H2.
    destruct (Hf cb) as [E | E]; [congruence |].
    destruct (Hf cb') as [E' | E']; [congruence |].
    apply (D cb cb' h); congruence.
  - intros cb h H1. destruct (Hf cb) as [E | E]; [congruence |].
    rewrite E in H1. specialize (B cb h H1). lia.
Qed.

Lemma Fresh_armed s s' cb :
  handle_of cb s' = Some (nextTimer (loop s)) ->
  (forall cb', cb' <> cb ->
     handle_of cb' s' = None \/ handle_of cb' s' = handle_of cb' s) ->
  nextTimer (loop s') = S (nextTimer (loop s)) ->
  Fresh s -> Fresh s'.
Proof.
  intros Hh Ho Hn [D B].
  assert (Hold : forall cb' h, cb' <> cb -> handle_of cb' s' = Some h ->
                   handle_of cb' s = Some h /\ (h < nextTimer (loop s))%nat).
  { intros cb' h Hne H1. destruct (Ho cb' Hne) as [E | E]; [congruence |].
    rewrite E in H1. split; [done |]. by apply (B cb'). }
  split.
  - intros c1 c2 h H1 H2.
    destruct (decide (c1 = cb)) as [-> | N1],
             (decide (c2 = cb)) as [-> | N2]; [done | | |].
    + rewrite Hh in H1. injection H1 as <-.
      destruct (Hold c2 _ N2 H2) as [_ Hlt]. lia.
    + rewrite Hh in H2. injection H2 as <-.
      destruct (Hold c1 _ N1 H1) as [_ Hlt]. lia.
    + destruct (Hold c1 _ N1 H1) as [E1 _], (Hold c2 _ N2 H2) as [E2 _].
      by apply (D c1 c2 h).
  - intros c h H1. rewrite Hn.
    destruct (decide (c = cb)) as [-> | N1].
    + rewrite Hh in H1. injection H1 as <-. lia.
    + destruct (Hold c _ N1 H1) as [_ Hlt]. lia.
Qed.

Lemma handle_of_release cb cb' s :
  handle_of cb' (release cb s)
  = if decide (cb = cb') then None else handle_of cb' s.
Proof.
  rewrite release_cancel. destruct (handle_of cb s) as [h|] eqn:Hh.
  - rewrite handle_of_set_handle. destruct (decide (cb = cb')); [done |].
    unfold cancel. rewrite Hh. by destruct cb'.
  - destruct (decide (cb = cb')) as [<- |]; done.
Qed.

Lemma release_Fresh cb s : Fresh s -> Fresh (release cb s).
Proof.
  apply Fresh_fewer.
  - intros cb'. rewrite handle_of_release. destruct (decide _); auto.
  - by rewrite (proj1 (release_loop cb s)).
Qed.

Lemma released_Fresh s : Fresh s -> Fresh (released s).
Proof. intros H. unfold released. by do 4 apply release_Fresh. Qed.

Lemma cancel_loop cb s :
  nextTimer (loop (cancel cb s)) = nextTimer (loop s)
  /\ forall cb', handle_of cb' (cancel cb s) = handle_of cb' s.
Proof.
  unfold cancel. destruct (handle_of cb s); [| done].
  split; [done | by intros []].
Qed.

Lemma doLock_Fresh s : Fresh s -> Fresh (doLock s).1.
Proof.
  rewrite doLock_spec. cbn [fst]. apply Fresh_fewer.
  - intros cb. right. by destruct cb, (_ && _).
  - by destruct (_ && _).
Qed.

Lemma doUnlock_Fresh s : Fresh s -> Fresh (doUnlock s).1.
Proof.
  intros H. unfold doUnlock.
  set (s1 := (if String.eqb (mode (settings s)) "cmd"
                 && truthy (cmdUnlockCommand (settings s))
              then (spawn AfterUnlock s, [Exec (cmdUnlockCommand (settings s))])
              else (s, []))).
  assert (H1 : Fresh s1.1).
  { subst s1. destruct (_ && _); cbn [fst]; [| done].
    revert H. apply Fresh_fewer; [by intros []; right | done]. }
  destruct s1 as [s1 e1]. cbn [fst] in *.
  set (s2 := set_targetState _ _).
  assert (H2 : Fresh s2)
    by (revert H1; apply Fresh_fewer; [by intros []; right | done]).
  destruct (autoLock (settings s)); [| exact H2].
  change (match autoLockTimeout s2 with
          | Some h => clearTimeout h s2
          | None => s2
          end) with (cancel AutoLockCb s2).
  destruct (cancel_loop AutoLockCb s2) as [Hn Hf].
  cbn [fst].
  assert (H3 : Fresh (cancel AutoLockCb s2))
    by (revert H2; apply Fresh_fewer; [intros cb; right; apply Hf | lia]).
  revert H3. apply (Fresh_armed _ _ AutoLockCb); [done | | done].
  intros cb' Hne. right. by destruct cb'.
Qed.

Lemma handleTargetStateSet_Fresh value s :
  Fresh s -> Fresh (handleTargetStateSet value s).1.
Proof.
  intros H. unfold handleTargetStateSet.
  set (s0 := set_targetState value s).
  assert (H0 : Fresh s0)
    by (revert H; apply Fresh_fewer; [by intros []; right | done]).
  change (clearLockUnlockDelays s0)
    with (release UnlockDelayCb (release LockDelayCb s0)).
  pose proof (release_Fresh UnlockDelayCb _ (release_Fresh LockDelayCb _ H0))
    as H2.
  destruct (value =? LockTargetState.SECURED).
  - destruct (0 <? lockDelay (settings s0)); [| by apply doLock_Fresh].
    cbn [fst]. revert H2. apply (Fresh_armed _ _ LockDelayCb); [done | | done].
    intros cb' Hne. right. by destruct cb'.
  - destruct (value =? LockTargetState.UNSECURED); [| exact H0].
    destruct (0 <? unlockDelay (settings s0)); [| by apply doUnlock_Fresh].
    cbn [fst]. revert H2.
    apply (Fresh_armed _ _ UnlockDelayCb); [done | | done].
    intros cb' Hne. right. by destruct cb'.
Qed.

Lemma cleanup_Fresh s :
  Fresh s -> Fresh (set_mqttClient None (released s)).
Proof.
  intros H. pose proof (released_Fresh s H) as H'. revert H'.
  apply Fresh_fewer; [by intros []; right | done].
Qed.

Lemma configure_Fresh config endThrows s s' :
  (configure config endThrows s).1 = Returned s' -> Fresh s -> Fresh s'.
Proof.
  unfold configure. rewrite cleanup_released. intros E H.
  set (s1 := set_settings (assign config) s) in *.
  assert (H1 : Fresh s1)
    by (revert H; apply Fresh_fewer; [by intros []; right | done]).
  pose proof (cleanup_Fresh s1 H1) as H2.
  set (s2 := set_mqttClient None (released s1)) in *.
  revert E. destruct (String.eqb _ "mqtt").
  - unfold setupMqtt. destruct (_ || _); cbn [fst]; intros [= <-];
      revert H2; apply Fresh_fewer; by try (intros []; right).
  - destruct (String.eqb _ "cmd"); [| by intros [= <-]].
    unfold setupCommandPolling. destruct (_ || _); cbn [fst]; intros [= <-].
    + revert H2; apply Fresh_fewer; by try (intros []; right).
    + revert H2. apply (Fresh_armed _ _ PollCb); [done | | done].
      intros cb' Hne. right. by destruct cb'.
Qed.

Lemma step_Fresh s ev : Fresh s -> Fresh (step s ev).1.
Proof.
  intros H.
  destruct ev as [value | message | dt | h | pid r | config endThrows
                 | endThrows]; cbn [step].
  - by apply handleTargetStateSet_Fresh.
  - unfold busMessage. destruct (mqttClient s); [| done].
    destruct (String.eqb message _); cbn [fst];
      [revert H; apply Fresh_fewer; by try (intros []; right) |].
    destruct (String.eqb message _); cbn [fst]; [| done].
    revert H; apply Fresh_fewer; by try (intros []; right).
  - destruct (0 <=? dt); [| done]. cbn [fst].
    revert H; apply Fresh_fewer; by try (intros []; right).
  - unfold expire. destruct (ready h (loop s)) as [t|]; [| done].
    assert (H' : Fresh (set_loop (expired h t (loop s)) s))
      by (revert H; apply Fresh_fewer; by try (intros []; right)).
    destruct (callback t); cbn [runCallback].
    + by apply doLock_Fresh.
    + by apply doUnlock_Fresh.
    + apply doLock_Fresh. revert H'.
      apply Fresh_fewer; by try (intros []; right).
    + cbn [fst]. revert H'. apply Fresh_fewer; by try (intros []; right).
  - unfold exit. destruct (running (loop s) !! pid) as [[| |]|]; [| | | done];
      cbn [fst]; try (revert H; apply Fresh_fewer; by try (intros []; right)).
    unfold polled. destruct r as [stdout stderr | m]; cbn [fst].
    + destruct (_ || _); [| destruct (_ || _)];
        revert H; apply Fresh_fewer; by try (intros []; right).
    + revert H; apply Fresh_fewer; by try (intros []; right).
  - pose proof (configure_Fresh config endThrows s) as Hc.
    destruct (configure config endThrows s) as [[s'|m] e]; [| done].
    by apply Hc.
  - rewrite cleanup_released. cbn [settle fst]. by apply cleanup_Fresh.
Qed.

Lemma started_Fresh config : Fresh (started config).
Proof.
  assert (Hb : Fresh (blank config)) by (split; by intros []).
  unfold started, construct.
  rewrite (cleanup_idle None (blank config)) by (by try intros []).
  pose proof (configure_Fresh config None (blank config)) as Hc.
  destruct (configure config None (blank config)) as [[s'|m] e]; cbn [fst];
    [by apply Hc | done].
Qed.

Lemma run_Fresh evs : forall s, Fresh s -> Fresh (run s evs).1.
Proof.
  induction evs as [| ev evs IH]; intros s H; [done |].
  cbn [run]. pose proof (step_Fresh s ev H) as H1.
  destruct (step s ev) as [s1 e1].
  specialize (IH s1 H1). by destruct (run s1 evs).
Qed.


Lemma cancel_keeps cb s h t :
  Owned s -> Fresh s ->
  timers (loop s) !! h = Some t -> callback t <> cb ->
  timers (loop (cancel cb s)) !! h = Some t.
Proof.
  intros Ho [D _] Hl Hne. unfold cancel.
  destruct (handle_of cb s) as [h'|] eqn:Hh; [| done]. cbn.
  rewrite lookup_delete_ne; [done |]. intros E.
  apply Hne. symmetry.
  apply (D cb (callback t) h); [by rewrite <- E | by apply Ho].
Qed.

Lemma armed_keeps (m : gmap nat (Timer Callback)) n x h t s :
  Owned s -> Fresh s -> nextTimer (loop s) = n ->
  timers (loop s) !! h = Some t -> m = timers (loop s) ->
  <[n := x]> m !! h = Some t.
Proof.
  intros Ho [_ B] Hn Hl ->.
  rewrite lookup_insert_ne; [done |]. intros E. subst h.
  specialize (B _ _ (Ho _ t Hl)). lia.
Qed.





(** X24: in the JavaScript controller a request without a delay cancels
    no delay timer.  In any state a run reaches, a request whose direction
    has no delay leaves every timer armed except the auto-lock timer,
    which an unlock replaces: a pending delay timer of the other direction
    still fires and undoes the request. *)
Theorem undelayed_request_keeps_timers config evs value h t :
  let s := (run (started config) evs).1 in
  delay_of value (settings s) <= 0 ->
  timers (loop s) !! h = Some t -> callback t <> AutoLockCb ->
  timers (loop (step s (HostSet value)).1) !! h = Some t.
Proof.
  intros s Hd Hl Hc.
  assert (H : Inv s) by apply run_keeps, started_keeps.
  assert (F : Fresh s) by apply run_Fresh, started_Fresh.
  clearbody s. cbn [step]. unfold handleTargetStateSet, delay_of in *.
  set (s0 := set_targetState value s).
  change (settings s0) with (settings s).
  destruct (value =? LockTargetState.SECURED).
  - rewrite (proj2 (Z.ltb_ge _ _) Hd). rewrite doLock_spec. cbn [fst].
    by destruct (_ && _).
  - destruct (value =? LockTargetState.UNSECURED); [| done].
    rewrite (proj2 (Z.ltb_ge _ _) Hd). unfold doUnlock.
    set (s1 := (if String.eqb (mode (settings s0)) "cmd"
                   && truthy (cmdUnlockCommand (settings s0))
                then (spawn AfterUnlock s0,
                      [Exec (cmdUnlockCommand (settings s0))])
                else (s0, []))).
    assert (H1 : Owned s1.1 /\ Fresh s1.1
                 /\ timers (loop s1.1) !! h = Some t).
    { subst s1. destruct (_ && _); cbn [fst].
      - split; [| split; [| done]].
        + destruct H as [H _]. revert H. apply Owned_fewer; by try intros [].
        + revert F. apply Fresh_fewer; [by intros []; right | done].
      - split; [| split; [| done]].
        + destruct H as [H _]. revert H. apply Owned_fewer; by try intros [].
        + revert F. apply Fresh_fewer; [by intros []; right | done]. }
    destruct s1 as [s1 e1]. cbn [fst] in *. destruct H1 as (O1 & F1 & L1).
    set (s2 := set_targetState _ _).
    assert (O2 : Owned s2)
      by (revert O1; apply Owned_fewer; by try intros []).
    assert (F2 : Fresh s2)
      by (revert F1; apply Fresh_fewer; [by intros []; right | done]).
    destruct (autoLock (settings s0)); [| exact L1].
    change (match autoLockTimeout s2 with
            | Some h => clearTimeout h s2
            | None => s2
            end) with (cancel AutoLockCb s2).
    destruct (cancel_spec AutoLockCb s2 O2) as (O3 & _).
    destruct (cancel_loop AutoLockCb s2) as [Hn Hf].
    assert (F3 : Fresh (cancel AutoLockCb s2))
      by (revert F2; apply Fresh_fewer; [intros cb; right; apply Hf | lia]).
    pose proof (cancel_keeps AutoLockCb s2 h t O2 F2 L1 Hc) as L3.
    cbn [fst]. by apply (armed_keeps _ _ _ h t (cancel AutoLockCb s2)).
Qed.

Lemma undelayed_request_keeps_timers_witness :
  callback
  <$> timers (loop (run (started shed)
                      [HostSet LockTargetState.SECURED;
                       HostSet LockTargetState.UNSECURED]).1) !! 1%nat
  = Some LockDelayCb.
Proof.
  assert (Hd : delay_of LockTargetState.UNSECURED
                 (settings (run (started shed)
                              [HostSet LockTargetState.SECURED]).1) <= 0)
    by (vm_compute; discriminate).
  assert (Hc : callback {| due := 5000; callback := LockDelayCb;
                           period := None |} <> AutoLockCb)
    by discriminate.
  pose proof (undelayed_request_keeps_timers shed
                [HostSet LockTargetState.SECURED] LockTargetState.UNSECURED
                1%nat _ Hd eq_refl Hc) as H.
  exact (f_equal (fmap callback) H).
Defined.

End LegacyFacts.
